(** * streamer-clips-bot: the clip-to-short pipeline of [clipbot.py]

    A shallow embedding of [YouTubeShortsAutomation] and of [main]:
    Python [str] values are byte strings, dictionaries whose iteration
    order matters are insertion-ordered association lists, the process
    environment and the local file system are finite maps, and every
    call that leaves the program (HTTP, the media library, the
    transcription engine, the random generator) is answered by an
    explicit oracle and recorded in a trace of events. *)

From Stdlib Require Import Ascii String QArith Qpower Lqa.
From stdpp Require Import gmap strings list fin_maps.

Local Open Scope string_scope.

(** ** Python string primitives *)

Module PyStr.

(** [str.lower] and [str.upper] on one character.  Characters are
    bytes: the letters [A]..[Z] and [a]..[z] move to one another and
    every other byte is kept.  That is what Python does on ASCII text;
    what it does to letters outside ASCII is not modelled, and a
    statement that depends on it is made for ASCII text only. *)
Definition lower_char (c : ascii) : ascii :=
  let n := N_of_ascii c in
  if ((65 <=? n) && (n <=? 90))%N then ascii_of_N (n + 32) else c.

Definition upper_char (c : ascii) : ascii :=
  let n := N_of_ascii c in
  if ((97 <=? n) && (n <=? 122))%N then ascii_of_N (n - 32) else c.

Fixpoint lower (s : string) : string :=
  match s with
  | EmptyString => EmptyString
  | String c s' => String (lower_char c) (lower s')
  end.

Fixpoint upper (s : string) : string :=
  match s with
  | EmptyString => EmptyString
  | String c s' => String (upper_char c) (upper s')
  end.

(** The scan behind [s.count(sub)] for a non-empty [sub]: a match at
    the current position counts once and the scan resumes right after
    it, so [skip] characters covered by the last match are stepped
    over without being tried. *)
Fixpoint count_from (sub : string) (skip : nat) (s : string) : nat :=
  match s with
  | EmptyString => 0
  | String _ s' =>
      match skip with
      | S k => count_from sub k s'
      | O =>
          if String.prefix sub s
          then S (count_from sub (String.length sub - 1) s')
          else count_from sub 0 s'
      end
  end.

(** [s.count(sub)]: the number of non-overlapping occurrences, found
    left to right; the empty [sub] is found at every gap. *)
Definition count (s sub : string) : nat :=
  match sub with
  | EmptyString => (String.length s + 1)%nat
  | _ => count_from sub 0 s
  end.

(** The number of positions of [s] at which [sub] occurs, overlapping
    occurrences included. *)
Fixpoint occurrences (sub s : string) : nat :=
  (if String.prefix sub s then 1 else 0)%nat +
  match s with
  | EmptyString => 0
  | String _ s' => occurrences sub s'
  end.

(** [sub in s] *)
Fixpoint contains (sub s : string) : bool :=
  String.prefix sub s ||
  match s with
  | EmptyString => false
  | String _ s' => contains sub s'
  end.

(** [sep.join(l)] *)
Fixpoint join (sep : string) (l : list string) : string :=
  match l with
  | [] => ""
  | [x] => x
  | x :: rest => x ++ sep ++ join sep rest
  end.

(** The scan behind [s.split(sep)] for a non-empty [sep]: [cur] is the
    piece being collected, in reverse. *)
Fixpoint split_from (sep : string) (skip : nat) (cur : string) (s : string)
  : list string :=
  match s with
  | EmptyString => [String.rev cur]
  | String c s' =>
      match skip with
      | S k => split_from sep k cur s'
      | O =>
          if String.prefix sep s
          then String.rev cur :: split_from sep (String.length sep - 1) "" s'
          else split_from sep 0 (String c cur) s'
      end
  end.

(** [s.split(sep)]; an empty separator raises [ValueError]. *)
Definition split (s sep : string) : option (list string) :=
  match sep with
  | EmptyString => None
  | _ => Some (split_from sep 0 "" s)
  end.

End PyStr.

(** ** Insertion-ordered dictionaries *)

Module Dict.
Section Dict.
Context {V : Type}.

Fixpoint get (k : string) (d : list (string * V)) : option V :=
  match d with
  | [] => None
  | (k', v) :: d' => if String.eqb k k' then Some v else get k d'
  end.

(** [d[k] = v]: an existing key keeps its place, a new key goes last. *)
Fixpoint set (k : string) (v : V) (d : list (string * V)) : list (string * V) :=
  match d with
  | [] => [(k, v)]
  | (k', v') :: d' =>
      if String.eqb k k' then (k, v) :: d' else (k', v') :: set k v d'
  end.
End Dict.
End Dict.

(** [max(iterable, key=...)] on a non-empty iterable [x :: l]: the
    running best is replaced only by a strictly larger key, so the first
    of several maximal items is returned. *)
Definition py_max {A : Type} (key : A -> nat) (x : A) (l : list A) : A :=
  fold_left (fun best y => if (key best <? key y)%nat then y else best) l x.

(** ** [analyze_content] *)

Definition highlight_keywords : list (string * list string) :=
  [ ("excitement", ["wow"; "amazing"; "incredible"; "perfect"; "clutch"; "insane"; "crazy"]);
    ("action", ["headshot"; "kill"; "victory"; "win"; "champion"; "eliminated"]);
    ("reaction", ["omg"; "wtf"; "holy"; "jesus"; "god"; "damn"]);
    ("skill", ["pro"; "skilled"; "talent"; "god-tier"; "masterclass"]) ].

Record content_analysis := ContentAnalysis {
  total_score : nat;
  categories : list (string * nat);
  dominant_emotion : string
}.

(** [sum(transcription_lower.count(keyword) for keyword in keywords)] *)
Definition keyword_sum (transcription_lower : string) (keywords : list string) : nat :=
  sum_list (map (PyStr.count transcription_lower) keywords).

(** One turn of the loop over [highlight_keywords.items()]. *)
Definition score_step (transcription_lower : string)
    (ca : content_analysis) (item : string * list string) : content_analysis :=
  let category_score := keyword_sum transcription_lower item.2 in
  {| total_score := (total_score ca + category_score)%nat;
     categories := Dict.set item.1 category_score (categories ca);
     dominant_emotion := dominant_emotion ca |}.

Definition analyze_content (transcription : string) : content_analysis :=
  let content_analysis0 :=
    {| total_score := 0; categories := []; dominant_emotion := "neutral" |} in
  let transcription_lower := PyStr.lower transcription in
  let ca := fold_left (score_step transcription_lower)
                      highlight_keywords content_analysis0 in
  match categories ca with
  | [] => ca
  | first :: rest =>
      let max_category := py_max snd first rest in
      if (0 <? max_category.2)%nat
      then {| total_score := total_score ca;
              categories := categories ca;
              dominant_emotion := max_category.1 |}
      else ca
  end.

(** The score [analyze_content] stores for one category. *)
Definition category_score (category transcription : string) : option nat :=
  Dict.get category (categories (analyze_content transcription)).

(** ** The world outside the program *)

Inductive http_method := HEAD | GET | POST | PUT.

(** A value inside a decoded JSON object; of a nested list or object
    only the number of entries is kept, which is what truthiness needs. *)
Inductive jvalue :=
| JNull
| JBool (b : bool)
| JNum (q : Q)
| JStr (s : string)
| JCompound (entries : nat).

(** Python truthiness, as used by [if not access_token] and [if video_id]. *)
Definition truthy (v : jvalue) : bool :=
  match v with
  | JNull => false
  | JBool b => b
  | JNum q => negb (Qeq_bool q 0)
  | JStr s => negb (String.eqb s "")
  | JCompound n => negb (n =? 0)%nat
  end.

(** What the media library sees in a file. *)
Record media := Media { duration : Q; width : Z; height : Z }.

Record file := File { size : nat; video : option media }.

(** An HTTP response.  [json] is [None] when the body does not decode to
    a JSON object, so that [response.json()] or the access that follows
    raises; [stream_breaks = Some n] makes [iter_content] raise after [n]
    bytes were delivered. *)
Record response := Response {
  status_code : nat;
  headers : list (string * string);
  json : option (list (string * jvalue));
  content : file;
  stream_breaks : option nat
}.

Inductive encode_outcome :=
| Encoded (bytes : nat)
| EncodeFailed (partial : option nat).

(** ** Decoded JSON

    What [response.json()] gives for the answers of the listing
    services, in full: [get_twitch_clips] hands such a value to
    [process_clips], which walks through it. *)

Module Json.

#[local] Unset Elimination Schemes.
Inductive json :=
| JsNull
| JsBool (b : bool)
| JsInt (z : Z)
| JsFloat (q : Q)
| JsStr (s : string)
| JsList (items : list json)
| JsDict (entries : list (string * json)).
#[local] Set Elimination Schemes.

Definition truthy (v : json) : bool :=
  match v with
  | JsNull => false
  | JsBool b => b
  | JsInt z => negb (z =? 0)%Z
  | JsFloat q => negb (Qeq_bool q 0)
  | JsStr s => negb (String.eqb s "")
  | JsList items => negb (length items =? 0)%nat
  | JsDict entries => negb (length entries =? 0)%nat
  end.

(** [v[key]] for a string key; [None] stands for the [KeyError] or
    [TypeError] it raises. *)
Definition subscript (v : json) (key : string) : option json :=
  match v with
  | JsDict entries => Dict.get key entries
  | _ => None
  end.

(** [v[0]] *)
Definition index0 (v : json) : option json :=
  match v with
  | JsList (item :: _) => Some item
  | JsStr (String c _) => Some (JsStr (String c ""))
  | _ => None
  end.

(** [v.get(key, default)]; [None] stands for the [AttributeError] of a
    value that is no dictionary. *)
Definition dict_get (v : json) (key : string) (default : json) : option json :=
  match v with
  | JsDict entries =>
      Some (match Dict.get key entries with Some x => x | None => default end)
  | _ => None
  end.

(** [len(v)] is defined. *)
Definition has_len (v : json) : bool :=
  match v with
  | JsStr _ | JsList _ | JsDict _ => true
  | _ => false
  end.

Definition is_dict (v : json) : bool :=
  match v with
  | JsDict _ => true
  | _ => false
  end.

Fixpoint chars (s : string) : list json :=
  match s with
  | EmptyString => []
  | String c s' => JsStr (String c "") :: chars s'
  end.

(** [for item in v]; [None] when [v] cannot be iterated. *)
Definition iterate (v : json) : option (list json) :=
  match v with
  | JsList items => Some items
  | JsStr s => Some (chars s)
  | JsDict entries => Some (map (fun entry => JsStr entry.1) entries)
  | _ => None
  end.

(** [for item in v[:n]]: the items met; [None] when the slice raises,
    as it does for a dictionary. *)
Definition sliced (v : json) (n : nat) : option (list json) :=
  match v with
  | JsList items => Some (take n items)
  | JsStr s => Some (take n (chars s))
  | _ => None
  end.

(** [v[k1][k2]...] *)
Fixpoint path (v : json) (keys : list string) : option json :=
  match keys with
  | [] => Some v
  | key :: keys' =>
      match subscript v key with
      | Some v' => path v' keys'
      | None => None
      end
  end.

(** An answer of a listing service: [body] is [None] when
    [response.json()] raises. *)
Record reply := Reply {
  status : nat;
  body : option json
}.

(** The requests of the listing functions; the time stamps
    [started_at] and [publishedAfter] are left out. *)
Inductive call :=
| PostToken (client_id client_secret : string)
| GetUsers (client_id : string) (access_token : json) (login : string)
| GetClips (client_id : string) (access_token broadcaster_id : json) (first : Z)
| SearchChannel (q : string)
| SearchVideos (channel_id : json) (max_results : Z).

End Json.

(** The pipeline stages whose invocation the trace records. *)
Inductive stage := DownloadClip | CreateVertical | TrimVideo | UploadShort.

(** What a run leaves in the trace: every call that leaves the program,
    and three kinds of marks set by [process_clips] itself, [EvClip]
    when the body of its loop is entered for a clip, [EvCall] and
    [EvReturn] around each stage it calls. *)
Inductive event :=
| EvLoadModel
| EvMkdir (path : string)
| EvHttp (m : http_method) (url : string) (answer : option response)
| EvExtractInfo (url : string)
| EvTwitchClips (streamer : string)
| EvTranscribe (path : string)
| EvOpenVideo (path : string)
| EvWriteVideo (path : string) (t_start t_end : Q)
| EvWriteFile (path : string)
| EvReadFile (path : string)
| EvRemove (path : string)
| EvSleep (seconds : nat)
| EvRandom (n : nat)
| EvClip (clip : Json.json)
| EvCall (f : stage) (arg : string)
| EvReturn (f : stage) (r : bool).

(** Calls that reach, or may reach, a remote service:
    [whisper.load_model] fetches the model when it is not cached. *)
Definition is_network (e : event) : bool :=
  match e with
  | EvLoadModel | EvHttp _ _ _ | EvExtractInfo _ | EvTwitchClips _ => true
  | _ => false
  end.

(** Every answer of the outside world.  The first argument of each
    oracle is the number of events recorded so far, so the same request
    may be answered differently each time it is made.  [mkdir_ok] and
    [open_ok] tell whether the system lets a directory be made and a
    file be opened for writing; [twitch_api] answers the requests of
    [get_twitch_clips]; [audio_temp] tells what the encoder does with
    its scratch file, see [write_videofile]; [format_value] is the text
    [str] gives for a decoded value that is no string. *)
Record world := World {
  whisper_available : bool;
  whisper_loads : bool;
  mkdir_ok : nat -> string -> bool;
  open_ok : nat -> string -> bool;
  http : nat -> http_method -> string -> option response;
  ydl_url : nat -> string -> option string;
  twitch_api : nat -> Json.call -> option Json.reply;
  format_value : Json.json -> string;
  whisper_text : nat -> string -> option string;
  encode : nat -> string -> encode_outcome;
  audio_temp : nat -> string -> option (option file);
  remove_ok : nat -> string -> bool;
  randbelow : nat -> nat -> nat
}.

Record state := State {
  fs : gmap string file;
  trace : list event
}.

(** ** State and exceptions *)

Inductive result (A : Type) :=
| Ok (a : A)
| Raise (msg : string).
Arguments Ok {A} a.
Arguments Raise {A} msg.

Definition E (A : Type) : Type := state -> result A * state.

Definition ret {A} (a : A) : E A := fun st => (Ok a, st).

Definition bind {A B} (m : E A) (k : A -> E B) : E B :=
  fun st =>
    match m st with
    | (Ok a, st') => k a st'
    | (Raise msg, st') => (Raise msg, st')
    end.

Definition raise {A} (msg : string) : E A := fun st => (Raise msg, st).

(** [try: m  except Exception: h] *)
Definition try_except {A} (m : E A) (h : string -> E A) : E A :=
  fun st =>
    match m st with
    | (Ok a, st') => (Ok a, st')
    | (Raise msg, st') => h msg st'
    end.

Definition tell (e : event) : E unit :=
  fun st => (Ok tt, {| fs := fs st; trace := trace st ++ [e] |}).

Definition clock : E nat := fun st => (Ok (length (trace st)), st).

Definition get_fs : E (gmap string file) := fun st => (Ok (fs st), st).

Definition put_file (path : string) (f : file) : E unit :=
  fun st => (Ok tt, {| fs := <[path := f]> (fs st); trace := trace st |}).

Definition delete_file (path : string) : E unit :=
  fun st => (Ok tt, {| fs := delete path (fs st); trace := trace st |}).

Declare Scope py_scope.
Delimit Scope py_scope with py.
Notation "x ← y ; z" := (bind y (fun x => z))
  (at level 20, y at level 100, z at level 200, only parsing) : py_scope.
Notation "x ;; z" := (bind x (fun _ => z))
  (at level 100, z at level 200, only parsing, right associativity) : py_scope.
Local Open Scope py_scope.

(** [os.path.exists] and [os.path.getsize] *)
Definition path_exists (path : string) : E bool :=
  m ← get_fs; ret (bool_decide (is_Some (m !! path))).

Definition getsize (path : string) : E nat :=
  m ← get_fs;
  match m !! path with
  | Some f => ret (size f)
  | None => raise "FileNotFoundError"
  end.

(** [v[key]] on a decoded value: a [KeyError] when a dictionary lacks
    the key, a [TypeError] when [v] is no dictionary. *)
Definition getitem (v : Json.json) (key : string) : E Json.json :=
  match v, Json.subscript v key with
  | _, Some x => ret x
  | Json.JsDict _, None => raise ("KeyError: " ++ key)
  | _, None => raise "TypeError"
  end.

(** [headers.get(name)]: header names compare without regard to case. *)
Fixpoint header_get (name : string) (hs : list (string * string)) : option string :=
  match hs with
  | [] => None
  | (k, v) :: hs' =>
      if String.eqb (PyStr.lower k) (PyStr.lower name) then Some v
      else header_get name hs'
  end.

Definition status_in_200_201 (r : response) : bool :=
  (status_code r =? 200)%nat || (status_code r =? 201)%nat.

(** [random.choice(seq)] picks [seq[i]] for a draw [i] below [len(seq)];
    the draw is the world's, reduced to that range. *)
Definition choice (seq : list string) (draw : nat) : string :=
  nth (draw mod length seq) seq "".

(** [max(0, x)] *)
Definition max0 (x : Q) : Q := if Qle_bool x 0 then 0%Q else x.

(** ** The program *)

(** An instance of [YouTubeShortsAutomation].  [__init__] hands one out
    only after [_validate_credentials] has passed, so the credential
    attributes are the strings read from the environment. *)
Record automation := Automation {
  twitch_client_id : string;
  twitch_client_secret : string;
  twitch_streamer : string;
  youtube_api_key : string;
  youtube_client_id : string;
  youtube_client_secret : string;
  youtube_refresh_token : string;
  youtube_streamers : list string;
  whisper_model : bool
}.

(** [not value] for a value read with [os.getenv]. *)
Definition falsy (value : option string) : bool :=
  match value with
  | None => true
  | Some s => String.eqb s ""
  end.

Definition required_creds (env : gmap string string) : list (string * option string) :=
  [ ("TWITCH_CLIENT_ID", env !! "TWITCH_CLIENT_ID");
    ("TWITCH_CLIENT_SECRET", env !! "TWITCH_CLIENT_SECRET");
    ("TWITCH_STREAMER_NAME", env !! "TWITCH_STREAMER_NAME");
    ("YOUTUBE_API_KEY", env !! "YOUTUBE_API_KEY");
    ("YOUTUBE_CLIENT_ID", env !! "YOUTUBE_CLIENT_ID");
    ("YOUTUBE_CLIENT_SECRET", env !! "YOUTUBE_CLIENT_SECRET");
    ("YOUTUBE_REFRESH_TOKEN", env !! "YOUTUBE_REFRESH_TOKEN") ].

Definition missing_creds (env : gmap string string) : list string :=
  map fst (filter (fun kv => Is_true (falsy kv.2)) (required_creds env)).

Definition _validate_credentials (env : gmap string string) : E unit :=
  match missing_creds env with
  | [] => ret tt
  | missing => raise ("Missing credentials: " ++ PyStr.join ", " missing)
  end.

(** ** Binary floating point

    A Python [float] is a binary64 number; it is kept as the rational
    it denotes, and an operation is the exact operation followed by
    rounding. *)

(** The integer nearest to [n / d], a tie going to the even one; [n]
    is not negative and [d] is positive. *)
Definition round_half_even (n d : Z) : Z :=
  let q := (n / d)%Z in
  match (2 * (n mod d) ?= d)%Z with
  | Lt => q
  | Gt => (q + 1)%Z
  | Eq => if Z.even q then q else (q + 1)%Z
  end.

(** [2^b <= n / d], for positive [n] and [d]. *)
Definition pow2_le (b n d : Z) : bool :=
  if (0 <=? b)%Z then (d * 2 ^ b <=? n)%Z else (d <=? n * 2 ^ (- b))%Z.

(** The exponent [b] with [2^b <= n / d < 2^(b+1)]. *)
Definition binade (n d : Z) : Z :=
  let l := (Z.log2 n - Z.log2 d)%Z in
  if pow2_le l n d then l else (l - 1)%Z.

(** The binary64 number nearest to [x], a tie going to the even
    significand: 53 bits from [2^-1022] on, steps of [2^-1074] below.
    Numbers too large for the format are not treated; no duration
    comes near them. *)
Definition round64 (x : Q) : Q :=
  let n := Z.abs (Qnum x) in
  let d := Z.pos (Qden x) in
  if (n =? 0)%Z then 0%Q
  else
    let e := Z.max (binade n d - 52) (-1074) in
    let m := if (0 <=? e)%Z then round_half_even n (d * 2 ^ e)
             else round_half_even (n * 2 ^ (- e)) d in
    let y := (inject_Z m * 2 ^ e)%Q in
    if (Qnum x <? 0)%Z then (- y)%Q else y.

Definition fadd (x y : Q) : Q := round64 (x + y).
Definition fsub (x y : Q) : Q := round64 (x - y).
Definition fdiv (x y : Q) : Q := round64 (x / y).

(** [trim_video]'s choice of what to keep of a source of [duration]
    seconds: the bounds handed to [subclip], or [None] for the whole
    source. *)
Definition trim_window (duration max_duration : Q) : option (Q * Q) :=
  if negb (Qle_bool duration max_duration)
  then
    let start_time := max0 (fdiv (fsub duration max_duration) 2) in
    let end_time := fadd start_time max_duration in
    Some (start_time, end_time)
  else None.

Definition templates (streamer_name : string) : list (string * list string) :=
  [ ("excitement",
      [ "THIS " ++ PyStr.upper streamer_name ++ " MOMENT IS INSANE! 🔥";
        streamer_name ++ " GOES ABSOLUTELY CRAZY! 😱";
        "UNBELIEVABLE " ++ streamer_name ++ " PLAY! 🤯" ]);
    ("action",
      [ streamer_name ++ " DESTROYS EVERYONE! 💀";
        "UNSTOPPABLE " ++ streamer_name ++ " GAMEPLAY! 🎯";
        streamer_name ++ " DOMINATION! ⚡" ]);
    ("skill",
      [ streamer_name ++ " IS A LITERAL GOD! 👑";
        "PRO LEVEL " ++ streamer_name ++ " SKILLS! 🎯";
        streamer_name ++ " MASTERCLASS! 🔥" ]);
    ("neutral",
      [ "BEST " ++ streamer_name ++ " MOMENTS! 🔥";
        streamer_name ++ " HIGHLIGHTS! ⭐";
        "EPIC " ++ streamer_name ++ " CLIP! 🎮" ]) ].

(** [templates.get(emotion, templates['neutral'])] *)
Definition selected_titles (ca : content_analysis) (streamer_name : string) : list string :=
  let emotion := dominant_emotion ca in
  match Dict.get emotion (templates streamer_name) with
  | Some titles => titles
  | None => default [] (Dict.get "neutral" (templates streamer_name))
  end.

(** ** The crop of [create_vertical_video] *)

(** [int(x)]: the integer part, rounded towards zero. *)
Definition py_int (x : Q) : Z := Z.quot (Qnum x) (Z.pos (Qden x)).

Definition target_width : Z := 1080.
Definition target_height : Z := 1920.

(** Which band of the frame [video.crop] keeps: columns [x1..x2] of a
    source that is too wide, rows [y1..y2] of any other. *)
Inductive crop :=
| CropX (x1 x2 : Z)
| CropY (y1 y2 : Z).

(** The crop [create_vertical_video] asks for, for a source of [w] by
    [h] pixels; the caller has made sure that [h] is not zero.  The
    source computes in binary floating point; the quotients are exact
    here, which gives the same integers for every frame size a video
    can have: 1080/1920 is a binary fraction, and a quotient by 9 that
    is no integer is at least 1/9 away from the next one. *)
Definition crop_box (w h : Z) : crop :=
  let video_aspect := (inject_Z w / inject_Z h)%Q in
  let target_aspect := (inject_Z target_width / inject_Z target_height)%Q in
  if negb (Qle_bool video_aspect target_aspect)
  then
    let new_width := py_int (inject_Z h * target_aspect) in
    let x_center := (inject_Z w / 2)%Q in
    let x1 := py_int (x_center - inject_Z new_width / 2) in
    CropX x1 (x1 + new_width)
  else
    let new_height := py_int (inject_Z w / target_aspect) in
    let y_center := (inject_Z h / 2)%Q in
    let y1 := py_int (y_center - inject_Z new_height / 2) in
    CropY y1 (y1 + new_height).

(** [video.crop(...)]: the band that is kept. *)
Definition apply_crop (c : crop) (v : media) : media :=
  match c with
  | CropX x1 x2 =>
      {| duration := duration v; width := x2 - x1; height := height v |}
  | CropY y1 y2 =>
      {| duration := duration v; width := width v; height := y2 - y1 |}
  end.

(** [video.resize((w, h))] *)
Definition resize (w h : Z) (v : media) : media :=
  {| duration := duration v; width := w; height := h |}.

(** [video.subclip(t_start, t_end)] for a start that is not negative,
    as moviepy 1 has it: a start beyond the end of the clip raises
    ([None]), a negative end counts from the end of the clip, and the
    duration of the part is the difference of the two bounds. *)
Definition subclip (t_start t_end : Q) (v : media) : option media :=
  if negb (Qle_bool t_start (duration v)) then None
  else
    let t_end' := if negb (Qle_bool 0 t_end) then fadd (duration v) t_end
                  else t_end in
    Some {| duration := fsub t_end' t_start;
            width := width v; height := height v |}.

(** ** Listing clips and videos

    [get_twitch_oauth_token], [get_twitch_clips] and
    [get_youtube_videos], request by request. *)

Module Listing.
Import Json.

(** [url] is the text ["https://www.youtube.com/watch?v="] followed
    by the formatted value. *)
Record video := Video {
  id : json;
  title : json;
  url : string * json;
  published_at : json;
  thumbnail : json
}.

Definition video_data (item : json) : option video :=
  match path item ["id"; "videoId"], path item ["snippet"; "title"],
        path item ["snippet"; "publishedAt"],
        path item ["snippet"; "thumbnails"; "high"; "url"] with
  | Some video_id, Some title, Some published_at, Some thumbnail =>
      Some {| id := video_id; title := title;
              url := ("https://www.youtube.com/watch?v=", video_id);
              published_at := published_at; thumbnail := thumbnail |}
  | _, _, _, _ => None
  end.

(** The loop that fills [videos]; [None] when an item raises. *)
Fixpoint collect (items : list json) : option (list video) :=
  match items with
  | [] => Some []
  | item :: rest =>
      match video_data item with
      | Some v =>
          match collect rest with
          | Some videos => Some (v :: videos)
          | None => None
          end
      | None => None
      end
  end.

Section Listing.
(** [requests c] is the answer to a call made with [requests], [None]
    when it raises; [build key] tells whether the YouTube client can be
    imported and built; [execute c] is the decoded answer to a search,
    [None] when it raises. *)
Variable requests : call -> option reply.
Variable build : string -> bool.
Variable execute : call -> option json.

(** Python's [None] and JSON's [null] are the same value. *)
Definition get_twitch_oauth_token (self : automation) : json * list call :=
  let c := PostToken (twitch_client_id self) (twitch_client_secret self) in
  (match requests c with
   | Some response =>
       if (status response =? 200)%nat then
         match body response with
         | Some v =>
             match subscript v "access_token" with
             | Some token => token
             | None => JsNull
             end
         | None => JsNull
         end
       else JsNull
   | None => JsNull
   end, [c]).

Definition get_twitch_clips (self : automation) (streamer_name : string)
    (limit : Z) : json * list call :=
  let '(access_token, calls) := get_twitch_oauth_token self in
  if negb (truthy access_token) then (JsList [], calls)
  else
    let users := GetUsers (twitch_client_id self) access_token streamer_name in
    match requests users with
    | None => (JsList [], (calls ++ [users])%list)
    | Some user_response =>
        if negb (status user_response =? 200)%nat
        then (JsList [], (calls ++ [users])%list)
        else
          match body user_response with
          | None => (JsList [], (calls ++ [users])%list)
          | Some user_data =>
              match dict_get user_data "data" JsNull with
              | None => (JsList [], (calls ++ [users])%list)
              | Some data =>
                  if negb (truthy data) then (JsList [], (calls ++ [users])%list)
                  else
                    match index0 data with
                    | None => (JsList [], (calls ++ [users])%list)
                    | Some user =>
                        match subscript user "id" with
                        | None => (JsList [], (calls ++ [users])%list)
                        | Some user_id =>
                            let clips :=
                              GetClips (twitch_client_id self) access_token
                                       user_id limit in
                            (match requests clips with
                             | None => JsList []
                             | Some clips_response =>
                                 if (status clips_response =? 200)%nat then
                                   match body clips_response with
                                   | None => JsList []
                                   | Some v =>
                                       match dict_get v "data" (JsList []) with
                                       | None => JsList []
                                       | Some clips_data =>
                                           if has_len clips_data then clips_data
                                           else JsList []
                                       end
                                   end
                                 else JsList []
                             end, (calls ++ [users; clips])%list)
                        end
                    end
              end
          end
    end.

Definition get_youtube_videos (self : automation) (streamer_name : string)
    (max_results : Z) : list video * list call :=
  if negb (build (youtube_api_key self)) then ([], [])
  else
    let search := SearchChannel streamer_name in
    match execute search with
    | None => ([], [search])
    | Some search_response =>
        match dict_get search_response "items" JsNull with
        | None => ([], [search])
        | Some items =>
            if negb (truthy items) then ([], [search])
            else
              match index0 items with
              | None => ([], [search])
              | Some channel =>
                  match path channel ["id"; "channelId"] with
                  | None => ([], [search])
                  | Some channel_id =>
                      let recent := SearchVideos channel_id max_results in
                      (match execute recent with
                       | None => []
                       | Some videos_response =>
                           match dict_get videos_response "items" (JsList []) with
                           | None => []
                           | Some found =>
                               match iterate found with
                               | None => []
                               | Some items' =>
                                   match collect items' with
                                   | Some videos => videos
                                   | None => []
                                   end
                               end
                           end
                       end, [search; recent])
                  end
              end
        end
    end.
(** The token request is answered with status 200 and a body whose
    [access_token] is the truthy [token]. *)
Definition token_granted (self : automation) (token : json) : Prop :=
  exists r v,
    requests (PostToken (twitch_client_id self) (twitch_client_secret self)) = Some r /\
    status r = 200%nat /\ body r = Some v /\
    subscript v "access_token" = Some token /\ truthy token = true.

(** The user request made with [token] is answered with status 200
    and a dictionary whose [data] is truthy and begins with an entry
    that has [user_id] as its [id]. *)
Definition user_known (self : automation) (streamer_name : string)
    (token user_id : json) : Prop :=
  exists r d data user,
    requests (GetUsers (twitch_client_id self) token streamer_name) = Some r /\
    status r = 200%nat /\ body r = Some (JsDict d) /\
    Dict.get "data" d = Some data /\ truthy data = true /\
    index0 data = Some user /\ subscript user "id" = Some user_id.

(** The client is built, and the channel search is answered with a
    dictionary whose [items] is truthy and begins with an entry that
    has [channel_id] as the [channelId] of its [id]. *)
Definition channel_found (self : automation) (streamer_name : string)
    (channel_id : json) : Prop :=
  build (youtube_api_key self) = true /\
  exists d items channel,
    execute (SearchChannel streamer_name) = Some (JsDict d) /\
    Dict.get "items" d = Some items /\ truthy items = true /\
    index0 items = Some channel /\
    path channel ["id"; "channelId"] = Some channel_id.

End Listing.

End Listing.

Definition token_url : string := "https://oauth2.googleapis.com/token".
Definition init_url : string := "https://www.googleapis.com/upload/youtube/v3/videos".

Section Program.

Variable W : world.

(** A call through [requests]: it is recorded with its answer, and
    raises when the world gives no response (time-out, connection
    error). *)
Definition request (m : http_method) (url : string) : E response :=
  t ← clock;
  let answer := http W t m url in
  tell (EvHttp m url answer);;
  match answer with
  | Some r => ret r
  | None => raise "RequestException"
  end.

(** [Path(path).mkdir(exist_ok=True)]: it raises when a file that is
    no directory has the name, and when the system refuses. *)
Definition mkdir (path : string) : E unit :=
  t ← clock;
  tell (EvMkdir path);;
  m ← get_fs;
  match m !! path with
  | Some _ => raise "FileExistsError"
  | None => if mkdir_ok W t path then ret tt else raise "OSError"
  end.

Definition __init__ (env : gmap string string) : E automation :=
  youtube_streamers ←
    match PyStr.split (default "" (env !! "YOUTUBE_STREAMERS")) "," with
    | Some l => ret l
    | None => raise "ValueError"
    end;
  whisper_model ←
    (if whisper_available W
     then tell EvLoadModel;; ret (whisper_loads W)
     else ret false);
  mkdir "downloads";;
  mkdir "processed";;
  mkdir "uploads";;
  _validate_credentials env;;
  ret {| twitch_client_id := default "" (env !! "TWITCH_CLIENT_ID");
         twitch_client_secret := default "" (env !! "TWITCH_CLIENT_SECRET");
         twitch_streamer := default "" (env !! "TWITCH_STREAMER_NAME");
         youtube_api_key := default "" (env !! "YOUTUBE_API_KEY");
         youtube_client_id := default "" (env !! "YOUTUBE_CLIENT_ID");
         youtube_client_secret := default "" (env !! "YOUTUBE_CLIENT_SECRET");
         youtube_refresh_token := default "" (env !! "YOUTUBE_REFRESH_TOKEN");
         youtube_streamers := youtube_streamers;
         whisper_model := whisper_model |}.

Definition get_fresh_access_token : E (option jvalue) :=
  try_except
    (r ← request POST token_url;
     if (status_code r =? 200)%nat
     then
       match json r with
       | Some token_data =>
           match Dict.get "access_token" token_data with
           | Some v => ret (Some v)
           | None => raise "KeyError: access_token"
           end
       | None => raise "JSONDecodeError"
       end
     else ret None)
    (fun _ => ret None).

(** Clip discovery, as one step of the run: the three requests of
    [Listing.get_twitch_clips] are answered by the world as it is when
    the step begins.  The result is whatever the [data] of the last
    answer holds, if it has a length. *)
Definition get_twitch_clips (self : automation) (streamer_name : string)
  : E Json.json :=
  t ← clock;
  tell (EvTwitchClips streamer_name);;
  ret (Listing.get_twitch_clips (twitch_api W t) self streamer_name 20).1.

(** The loop over [possible_urls]; a probe that raises is skipped. *)
Fixpoint probe (possible_urls : list string) : E (option string) :=
  match possible_urls with
  | [] => ret None
  | url :: rest =>
      found ← try_except
                (r ← request HEAD url; ret (status_code r =? 200)%nat)
                (fun _ => ret false);
      if found then ret (Some url) else probe rest
  end.

Definition get_clip_download_url (clip_url : string) : E (option string) :=
  try_except
    (pieces ← match PyStr.split clip_url "/" with
              | Some l => ret l
              | None => raise "ValueError"
              end;
     let clip_slug := List.last pieces "" in
     let possible_urls :=
       [ "https://clips-media-assets2.twitch.tv/" ++ clip_slug ++ ".mp4";
         "https://clips-media-assets.twitch.tv/" ++ clip_slug ++ ".mp4";
         "https://production.assets.clips.twitchcdn.net/" ++ clip_slug ++ ".mp4" ] in
     found ← probe possible_urls;
     match found with
     | Some url => ret (Some url)
     | None =>
         t ← clock;
         tell (EvExtractInfo clip_url);;
         ret (ydl_url W t clip_url)
     end)
    (fun _ => ret None).

(** [with open(filepath, 'wb') as f: for chunk in ...: f.write(chunk)] *)
Definition write_stream (filepath : string) (r : response) : E unit :=
  t ← clock;
  tell (EvWriteFile filepath);;
  if negb (open_ok W t filepath) then raise "OSError"
  else
    match stream_breaks r with
    | None => put_file filepath (content r)
    | Some n =>
        put_file filepath {| size := n; video := None |};;
        raise "ChunkedEncodingError"
    end.

Definition download_clip (clip_url filename : string) : E bool :=
  try_except
    (download_url ← get_clip_download_url clip_url;
     match download_url with
     | None => ret false
     | Some url =>
         if String.eqb url "" then ret false
         else
           r ← request GET url;
           if (status_code r =? 200)%nat
           then
             let filepath := "downloads/" ++ filename in
             write_stream filepath r;;
             present ← path_exists filepath;
             if present
             then bytes ← getsize filepath; ret (1000 <? bytes)%nat
             else ret false
           else ret false
     end)
    (fun _ => ret false).

Definition transcribe_audio (self : automation) (video_path : string) : E string :=
  if negb (whisper_model self) then ret ""
  else
    t ← clock;
    tell (EvTranscribe video_path);;
    ret (default "" (whisper_text W t video_path)).

(** [mp.VideoFileClip(path)] *)
Definition open_video (path : string) : E media :=
  tell (EvOpenVideo path);;
  m ← get_fs;
  match m !! path with
  | Some {| video := Some v |} => ret v
  | _ => raise "OSError"
  end.

Definition temp_audiofile : string := "temp-audio.m4a".

(** [video.write_videofile(path, ..., temp_audiofile='temp-audio.m4a',
    remove_temp=True)] for the part [t_start..t_end] of the opened
    source.  When the clip has sound the encoder writes it to the
    scratch file first and removes that file once the video is
    written; [audio_temp] is [None] when no scratch file is made, and
    otherwise tells what a failed run leaves of it. *)
Definition write_videofile (path : string) (out : media) (t_start t_end : Q) : E unit :=
  t ← clock;
  tell (EvWriteVideo path t_start t_end);;
  match encode W t path with
  | Encoded bytes =>
      match audio_temp W t path with
      | Some _ => delete_file temp_audiofile
      | None => ret tt
      end;;
      put_file path {| size := bytes; video := Some out |}
  | EncodeFailed partial =>
      match audio_temp W t path with
      | Some (Some remains) => put_file temp_audiofile remains
      | Some None => delete_file temp_audiofile
      | None => ret tt
      end;;
      match partial with
      | Some n => put_file path {| size := n; video := None |}
      | None => ret tt
      end;;
      raise "IOError"
  end.

Definition create_vertical_video (input_path output_path : string) : E bool :=
  try_except
    (v ← open_video input_path;
     if negb (Qle_bool 1 (duration v)) then ret false
     else if (height v =? 0)%Z then raise "ZeroDivisionError"
     else
       let cropped := apply_crop (crop_box (width v) (height v)) v in
       let resized := resize target_width target_height cropped in
       write_videofile output_path resized 0 (duration v);;
       ret true)
    (fun _ => ret false).

Definition trim_video (input_path output_path : string) (max_duration : Q) : E bool :=
  try_except
    (v ← open_video input_path;
     match trim_window (duration v) max_duration with
     | Some (start_time, end_time) =>
         match subclip start_time end_time v with
         | Some part =>
             write_videofile output_path part start_time end_time;;
             ret true
         | None => raise "ValueError"
         end
     | None =>
         write_videofile output_path v 0 (duration v);;
         ret true
     end)
    (fun _ => ret false).

(** The clip's own title is not looked at, whatever it is. *)
Definition generate_engaging_title {T : Type} (clip_title : T)
    (ca : content_analysis) (streamer_name : string) : E string :=
  let selected := selected_titles ca streamer_name in
  t ← clock;
  tell (EvRandom (length selected));;
  ret (choice selected (randbelow W t (length selected))).

Definition upload_to_youtube_shorts (video_path title description : string)
    (tags : list string) : E bool :=
  try_except
    (access_token ← get_fresh_access_token;
     if negb (from_option truthy false access_token) then ret false
     else
       init_response ← request POST init_url;
       if negb (status_in_200_201 init_response) then ret false
       else
         match header_get "Location" (headers init_response) with
         | None => ret false
         | Some upload_url =>
             if String.eqb upload_url "" then ret false
             else
               tell (EvReadFile video_path);;
               _ ← getsize video_path;
               upload_response ← request PUT upload_url;
               if status_in_200_201 upload_response
               then
                 match json upload_response with
                 | Some response_data =>
                     ret (from_option truthy false (Dict.get "id" response_data))
                 | None => raise "JSONDecodeError"
                 end
               else ret false
         end)
    (fun _ => ret false).

(** A stage call at its call site in [process_clips]. *)
Definition call (f : stage) (arg : string) (m : E bool) : E bool :=
  tell (EvCall f arg);;
  r ← m;
  tell (EvReturn f r);;
  ret r.

(** The cleanup loop; a removal that fails is swallowed. *)
Fixpoint cleanup (paths : list string) : E unit :=
  match paths with
  | [] => ret tt
  | path :: rest =>
      present ← path_exists path;
      (if present
       then
         t ← clock;
         tell (EvRemove path);;
         if remove_ok W t path then delete_file path else ret tt
       else ret tt);;
      cleanup rest
  end.

(** [str(v)] in an f-string *)
Definition py_str (v : Json.json) : string :=
  match v with
  | Json.JsStr s => s
  | _ => format_value W v
  end.

(** [download_clip] as [process_clips] calls it, with whatever the
    clip has as its [url]: for a value that is no string
    [clip_url.split] raises inside [get_clip_download_url], which
    returns [None], and [download_clip] returns [False]. *)
Definition download_clip_of (clip_url : Json.json) (filename : string) : E bool :=
  match clip_url with
  | Json.JsStr clip_url => download_clip clip_url filename
  | _ => ret false
  end.

(** The [try] body of one turn of the loop in [process_clips]; the
    result tells whether [processed_count] was incremented.  Nothing
    that follows the increment can raise. *)
Definition process_clip (self : automation) (clip : Json.json) : E bool :=
  tell (EvClip clip);;
  clip_id ← getitem clip "id";
  clip_title ← getitem clip "title";
  clip_url ← getitem clip "url";
  let streamer_name := twitch_streamer self in
  let filename := "twitch_clip_" ++ py_str clip_id ++ ".mp4" in
  downloaded ← call DownloadClip filename (download_clip_of clip_url filename);
  if negb downloaded then ret false
  else
    let input_path := "downloads/" ++ filename in
    present ← path_exists input_path;
    bytes ← (if present then getsize input_path else ret 0%nat);
    if negb present || (bytes <? 1000)%nat then ret false
    else
      transcription ← transcribe_audio self input_path;
      let content_analysis := analyze_content transcription in
      let vertical_path := "processed/vertical_" ++ filename in
      vertical ← call CreateVertical input_path
                   (create_vertical_video input_path vertical_path);
      if negb vertical then ret false
      else
        let final_path := "uploads/final_" ++ filename in
        trimmed ← call TrimVideo vertical_path
                    (trim_video vertical_path final_path 40);
        if negb trimmed then ret false
        else
          title ← generate_engaging_title clip_title content_analysis streamer_name;
          let description :=
            "🔥 Epic " ++ streamer_name ++ " gaming moment!" ++
            String "010" (String "010" "🎮 Follow for more amazing clips!") ++
            String "010" (String "010" "") in
          let tags :=
            ["shorts"; "gaming"; PyStr.lower streamer_name; "viral"; "epic"; "twitch"] in
          uploaded ← call UploadShort final_path
                       (upload_to_youtube_shorts final_path title description tags);
          cleanup [input_path; vertical_path; final_path];;
          tell (EvSleep 30);;
          ret uploaded.

Definition max_uploads : nat := 3.

(** The handler of the loop, [logger.error(f"... {clip.get('id',
    'unknown')}: {e}")] and [continue]: [clip.get] raises for a clip
    that is no dictionary, and nothing catches that. *)
Definition skip_clip (clip : Json.json) : E bool :=
  if Json.is_dict clip then ret false else raise "AttributeError".

(** The [for] loop of [process_clips], from a given [processed_count]. *)
Fixpoint process_loop (self : automation) (clips : list Json.json)
    (processed_count : nat) : E nat :=
  match clips with
  | [] => ret processed_count
  | clip :: rest =>
      if (max_uploads <=? processed_count)%nat then ret processed_count
      else
        uploaded ← try_except (process_clip self clip)
                              (fun _ => skip_clip clip);
        process_loop self rest
          (if uploaded then S processed_count else processed_count)
  end.

(** The slice [clips[:max_uploads * 2]] stands outside the [try]: it
    raises when the clips are a dictionary. *)
Definition process_clips (self : automation) : E nat :=
  clips ← get_twitch_clips self (twitch_streamer self);
  if negb (Json.truthy clips) then ret 0%nat
  else
    match Json.sliced clips (max_uploads * 2) with
    | Some items => process_loop self items 0
    | None => raise "TypeError"
    end.

(** [main()]: its return value. *)
Definition main (env : gmap string string) (st : state) : nat * state :=
  match (automation ← __init__ env; process_clips automation) st with
  | (Ok _, st') => (0%nat, st')
  | (Raise _, st') => (1%nat, st')
  end.

(** The script, [if __name__ == "__main__": main()]: the call is an
    expression statement, its value is dropped, and the interpreter
    leaves with status 0 once the module body has run to its end. *)
Definition script_exit_status (env : gmap string string) (st : state) : nat * state :=
  let '(_, st') := main env st in (0%nat, st').

End Program.

(** ** Vocabulary of the statements *)

(** The keyword list of a category of [highlight_keywords]. *)
Definition keywords_of (category : string) : list string :=
  default [] (Dict.get category highlight_keywords).

Definition category_names : list string := map fst highlight_keywords.

(** The score of a category when every occurrence of a keyword counts,
    overlapping ones included. *)
Definition overlapping_score (category transcription : string) : nat :=
  sum_list (map (fun keyword => PyStr.occurrences keyword (PyStr.lower transcription))
                (keywords_of category)).

(** The score of a category when occurrences are counted the way
    [str.count] does, left to right and without overlap. *)
Definition non_overlapping_score (category transcription : string) : nat :=
  keyword_sum (PyStr.lower transcription) (keywords_of category).

Fixpoint drop_chars (n : nat) (s : string) : string :=
  match n, s with
  | O, _ => s
  | S n', String _ s' => drop_chars n' s'
  | S _, EmptyString => EmptyString
  end.

(** A keyword can overlap itself when one of its proper suffixes is also
    a prefix of it, as the [w] of [wow]. *)
Definition self_overlapping (keyword : string) : bool :=
  existsb (fun k => String.prefix (drop_chars k keyword) keyword)
          (seq 1 (String.length keyword - 1)).

Definition required_names : list string :=
  [ "TWITCH_CLIENT_ID"; "TWITCH_CLIENT_SECRET"; "TWITCH_STREAMER_NAME";
    "YOUTUBE_API_KEY"; "YOUTUBE_CLIENT_ID"; "YOUTUBE_CLIENT_SECRET";
    "YOUTUBE_REFRESH_TOKEN" ].

(** What [__init__] leaves in the trace when nothing stops it. *)
Definition init_events (W : world) : list event :=
  ((if whisper_available W then [EvLoadModel] else []) ++
   [EvMkdir "downloads"; EvMkdir "processed"; EvMkdir "uploads"])%list.

(** The time on the clock when [__init__] comes to its directories. *)
Definition init_clock (W : world) (st : state) : nat :=
  length (trace st) + (if whisper_available W then 1 else 0).

(** [__init__] gets its three directories: no file stands in the place
    of one, and the system lets each be made when it is asked. *)
Definition directories_made (W : world) (st : state) : bool :=
  forallb (fun item : nat * string =>
             bool_decide (fs st !! item.2 = None) &&
             mkdir_ok W (init_clock W st + item.1) item.2)
          [(0, "downloads"); (1, "processed"); (2, "uploads")].

(** The instance [__init__] builds from the environment. *)
Definition instance_of (W : world) (env : gmap string string)
    (streamers : list string) : automation :=
  {| twitch_client_id := default "" (env !! "TWITCH_CLIENT_ID");
     twitch_client_secret := default "" (env !! "TWITCH_CLIENT_SECRET");
     twitch_streamer := default "" (env !! "TWITCH_STREAMER_NAME");
     youtube_api_key := default "" (env !! "YOUTUBE_API_KEY");
     youtube_client_id := default "" (env !! "YOUTUBE_CLIENT_ID");
     youtube_client_secret := default "" (env !! "YOUTUBE_CLIENT_SECRET");
     youtube_refresh_token := default "" (env !! "YOUTUBE_REFRESH_TOKEN");
     youtube_streamers := streamers;
     whisper_model := whisper_available W && whisper_loads W |}.

(** Text without a character outside ASCII. *)
Fixpoint is_ascii (s : string) : bool :=
  match s with
  | EmptyString => true
  | String c s' => (N_of_ascii c <? 128)%N && is_ascii s'
  end.

(** What [get_twitch_clips] returns to [process_clips] when it is
    called at time [t] by the instance made from [env]. *)
Definition listed_clips (W : world) (env : gmap string string) (t : nat) : Json.json :=
  (Listing.get_twitch_clips (twitch_api W t) (instance_of W env [])
     (default "" (env !! "TWITCH_STREAMER_NAME")) 20).1.

Definition neutral_titles (streamer_name : string) : list string :=
  [ "BEST " ++ streamer_name ++ " MOMENTS! 🔥";
    streamer_name ++ " HIGHLIGHTS! ⭐";
    "EPIC " ++ streamer_name ++ " CLIP! 🎮" ].

(** The events a computation added to the trace. *)
Definition new_events (before after : state) : list event :=
  drop (length (trace before)) (trace after).

(** Events of the world outside, as opposed to the marks [process_clips]
    leaves at a new clip, at a stage call and return, and at a success. *)
Definition neutral (e : event) : bool :=
  match e with
  | EvClip _ | EvCall _ _ | EvReturn _ _ => false
  | _ => true
  end.

(** What an observer of a run of [process_clips] keeps track of. *)
Record monitor := Monitor {
  considered : nat;
  shorts : nat;
  download_failed : bool
}.

(** The observer counts the clips taken up and the uploads that
    returned [True], and remembers a download that returned [False]
    until the next clip.  It rejects ([None]) a clip taken up when six
    were already considered or three uploads have succeeded, and a
    stage called for a clip whose download returned [False]. *)
Definition observe (m : monitor) (e : event) : option monitor :=
  match e with
  | EvClip _ =>
      if (considered m <? 6)%nat && (shorts m <? 3)%nat
      then Some {| considered := S (considered m); shorts := shorts m;
                   download_failed := false |}
      else None
  | EvCall _ _ => if download_failed m then None else Some m
  | EvReturn DownloadClip false =>
      Some {| considered := considered m; shorts := shorts m;
              download_failed := true |}
  | EvReturn UploadShort true =>
      Some {| considered := considered m; shorts := S (shorts m);
              download_failed := download_failed m |}
  | _ => Some m
  end.

Fixpoint observe_all (m : monitor) (evs : list event) : option monitor :=
  match evs with
  | [] => Some m
  | e :: evs' =>
      match observe m e with
      | Some m' => observe_all m' evs'
      | None => None
      end
  end.

Definition monitor0 : monitor :=
  {| considered := 0; shorts := 0; download_failed := false |}.

Definition is_put (e : event) : bool :=
  match e with EvHttp PUT _ _ => true | _ => false end.

Definition is_remove (e : event) : bool :=
  match e with EvRemove _ => true | _ => false end.

Definition is_upload_success (e : event) : bool :=
  match e with EvReturn UploadShort true => true | _ => false end.

Definition is_clip (e : event) : bool :=
  match e with EvClip _ => true | _ => false end.

Definition is_stage_call (e : event) : bool :=
  match e with
  | EvCall CreateVertical _ | EvCall TrimVideo _ | EvCall UploadShort _ => true
  | _ => false
  end.

(** The computation adds only events of the world outside. *)
Definition quiet {A} (c : E A) : Prop :=
  forall st, exists evs,
    trace (c st).2 = (trace st ++ evs)%list /\ Forall (fun e => neutral e = true) evs.

(** From observer state [m0], the events the computation adds are all
    accepted, and the result and the observer state reached satisfy [Q]. *)
Definition observed {A} (m0 : monitor) (c : E A)
    (Q : result A -> monitor -> Prop) : Prop :=
  forall st, exists evs m1,
    trace (c st).2 = (trace st ++ evs)%list /\
    observe_all m0 evs = Some m1 /\
    Q (c st).1 m1.

(** ** Worlds and states used at concrete inputs *)

(** Nothing installed, nothing reachable. *)
Definition silent_world : world :=
  {| whisper_available := false;
     whisper_loads := false;
     mkdir_ok := fun _ _ => true;
     open_ok := fun _ _ => true;
     http := fun _ _ _ => None;
     ydl_url := fun _ _ => None;
     twitch_api := fun _ _ => None;
     format_value := fun _ => "";
     whisper_text := fun _ _ => None;
     encode := fun _ _ => EncodeFailed None;
     audio_temp := fun _ _ => None;
     remove_ok := fun _ _ => true;
     randbelow := fun _ _ => 0%nat |}.

(** Whisper is installed and its model loads; nothing else is
    reachable. *)
Definition whisper_world : world :=
  {| whisper_available := true;
     whisper_loads := true;
     mkdir_ok := fun _ _ => true;
     open_ok := fun _ _ => true;
     http := fun _ _ _ => None;
     ydl_url := fun _ _ => None;
     twitch_api := fun _ _ => None;
     format_value := fun _ => "";
     whisper_text := fun _ _ => None;
     encode := fun _ _ => EncodeFailed None;
     audio_temp := fun _ _ => None;
     remove_ok := fun _ _ => true;
     randbelow := fun _ _ => 0%nat |}.

Definition empty_state : state := {| fs := ∅; trace := [] |}.

(** A file named [downloads] stands where the directory should go. *)
Definition blocked_state : state :=
  {| fs := {[ "downloads" := {| size := 0; video := None |} ]}; trace := [] |}.

Definition full_env : gmap string string :=
  list_to_map
    [ ("TWITCH_CLIENT_ID", "id"); ("TWITCH_CLIENT_SECRET", "secret");
      ("TWITCH_STREAMER_NAME", "ninja"); ("YOUTUBE_API_KEY", "key");
      ("YOUTUBE_CLIENT_ID", "yid"); ("YOUTUBE_CLIENT_SECRET", "ysecret");
      ("YOUTUBE_REFRESH_TOKEN", "refresh") ].

Definition ninja : automation :=
  {| twitch_client_id := "id"; twitch_client_secret := "secret";
     twitch_streamer := "ninja"; youtube_api_key := "key";
     youtube_client_id := "yid"; youtube_client_secret := "ysecret";
     youtube_refresh_token := "refresh"; youtube_streamers := [""];
     whisper_model := false |}.

Definition reply (code : nat) : response :=
  {| status_code := code; headers := []; json := None;
     content := {| size := 0; video := None |}; stream_breaks := None |}.

(** The listing service grants a token, knows the streamer, and
    lists the given clips. *)
Definition listing_api (clips : Json.json) (t : nat) (c : Json.call)
  : option Json.reply :=
  match c with
  | Json.PostToken _ _ =>
      Some {| Json.status := 200;
              Json.body := Some (Json.JsDict [("access_token", Json.JsStr "tok")]) |}
  | Json.GetUsers _ _ _ =>
      Some {| Json.status := 200;
              Json.body :=
                Some (Json.JsDict
                        [("data", Json.JsList [Json.JsDict [("id", Json.JsStr "1")]])]) |}
  | Json.GetClips _ _ _ _ =>
      Some {| Json.status := 200; Json.body := Some (Json.JsDict [("data", clips)]) |}
  | _ => None
  end.

Definition one_clip : Json.json :=
  Json.JsDict [ ("id", Json.JsStr "c1"); ("title", Json.JsStr "t");
                ("url", Json.JsStr "https://clips.twitch.tv/abc") ].

Definition one_clip_api : nat -> Json.call -> option Json.reply :=
  listing_api (Json.JsList [one_clip]).

(** Every credential is there, and the listing service answers the
    request for clips with a dictionary where a list should be. *)
Definition malformed_world : world :=
  {| whisper_available := false;
     whisper_loads := false;
     mkdir_ok := fun _ _ => true;
     open_ok := fun _ _ => true;
     http := fun _ _ _ => None;
     ydl_url := fun _ _ => None;
     twitch_api := listing_api (Json.JsDict [("a", Json.JsInt 1)]);
     format_value := fun _ => "";
     whisper_text := fun _ _ => None;
     encode := fun _ _ => EncodeFailed None;
     audio_temp := fun _ _ => None;
     remove_ok := fun _ _ => true;
     randbelow := fun _ _ => 0%nat |}.

(** One clip is found and downloaded, 5000 bytes of video that lasts
    half a second. *)
Definition short_clip_world : world :=
  {| whisper_available := false;
     whisper_loads := false;
     mkdir_ok := fun _ _ => true;
     open_ok := fun _ _ => true;
     http := fun _ m _ =>
       match m with
       | HEAD => Some (reply 200)
       | GET => Some {| status_code := 200; headers := []; json := None;
                        content :=
                          {| size := 5000;
                             video := Some {| duration := 1 # 2;
                                              width := 1920; height := 1080 |} |};
                        stream_breaks := None |}
       | _ => None
       end;
     ydl_url := fun _ _ => None;
     twitch_api := one_clip_api;
     format_value := fun _ => "";
     whisper_text := fun _ _ => None;
     encode := fun _ _ => EncodeFailed None;
     audio_temp := fun _ _ => None;
     remove_ok := fun _ _ => true;
     randbelow := fun _ _ => 0%nat |}.

(** One clip is found, downloaded, reformatted and trimmed, and then
    the token request of the upload gets no answer. *)
Definition failed_upload_world : world :=
  {| whisper_available := false;
     whisper_loads := false;
     mkdir_ok := fun _ _ => true;
     open_ok := fun _ _ => true;
     http := fun _ m _ =>
       match m with
       | HEAD => Some (reply 200)
       | GET => Some {| status_code := 200; headers := []; json := None;
                        content :=
                          {| size := 5000;
                             video := Some {| duration := 50;
                                              width := 1920; height := 1080 |} |};
                        stream_breaks := None |}
       | _ => None
       end;
     ydl_url := fun _ _ => None;
     twitch_api := one_clip_api;
     format_value := fun _ => "";
     whisper_text := fun _ _ => None;
     encode := fun _ _ => Encoded 3000;
     audio_temp := fun _ _ => None;
     remove_ok := fun _ _ => true;
     randbelow := fun _ _ => 0%nat |}.

(** The token is granted and the upload session opens with status 200,
    but the answer carries no [Location] header. *)
Definition no_location_world : world :=
  {| whisper_available := false;
     whisper_loads := false;
     mkdir_ok := fun _ _ => true;
     open_ok := fun _ _ => true;
     http := fun _ m url =>
       match m with
       | POST =>
           if String.eqb url token_url
           then Some {| status_code := 200; headers := [];
                        json := Some [("access_token", JStr "ya29")];
                        content := {| size := 0; video := None |};
                        stream_breaks := None |}
           else Some (reply 200)
       | _ => None
       end;
     ydl_url := fun _ _ => None;
     twitch_api := fun _ _ => None;
     format_value := fun _ => "";
     whisper_text := fun _ _ => None;
     encode := fun _ _ => EncodeFailed None;
     audio_temp := fun _ _ => None;
     remove_ok := fun _ _ => true;
     randbelow := fun _ _ => 0%nat |}.

(** The session opens and the bytes are accepted with status 200, but
    the JSON answer to the PUT has no [id]. *)
Definition no_id_world : world :=
  {| whisper_available := false;
     whisper_loads := false;
     mkdir_ok := fun _ _ => true;
     open_ok := fun _ _ => true;
     http := fun _ m url =>
       match m with
       | POST =>
           if String.eqb url token_url
           then Some {| status_code := 200; headers := [];
                        json := Some [("access_token", JStr "ya29")];
                        content := {| size := 0; video := None |};
                        stream_breaks := None |}
           else Some {| status_code := 200;
                        headers := [("location", "https://upload.example/session")];
                        json := None;
                        content := {| size := 0; video := None |};
                        stream_breaks := None |}
       | PUT => Some {| status_code := 200; headers := [];
                        json := Some [("kind", JStr "youtube#video")];
                        content := {| size := 0; video := None |};
                        stream_breaks := None |}
       | _ => None
       end;
     ydl_url := fun _ _ => None;
     twitch_api := fun _ _ => None;
     format_value := fun _ => "";
     whisper_text := fun _ _ => None;
     encode := fun _ _ => EncodeFailed None;
     audio_temp := fun _ _ => None;
     remove_ok := fun _ _ => true;
     randbelow := fun _ _ => 0%nat |}.

Definition final_clip : media := {| duration := 50; width := 1080; height := 1920 |}.

Definition state_with_final : state :=
  {| fs := {[ "uploads/final.mp4" := {| size := 4000; video := Some final_clip |} ]};
     trace := [] |}.

(** ** Further vocabulary *)

(** The three addresses [get_clip_download_url] tries for a clip page,
    in the order it tries them. *)
Definition candidate_urls (clip_url : string) : list string :=
  let clip_slug := List.last (PyStr.split_from "/" 0 "" clip_url) "" in
  [ "https://clips-media-assets2.twitch.tv/" ++ clip_slug ++ ".mp4";
    "https://clips-media-assets.twitch.tv/" ++ clip_slug ++ ".mp4";
    "https://production.assets.clips.twitchcdn.net/" ++ clip_slug ++ ".mp4" ].

(** A HEAD probe of [url] that did not find the file: no answer, or an
    answer with a status other than 200. *)
Definition failed_probe (e : event) (url : string) : Prop :=
  exists answer,
    e = EvHttp HEAD url answer /\
    forall r, answer = Some r -> status_code r <> 200.

(** The computation adds only events that satisfy [P]. *)
Definition emits {A} (P : event -> bool) (c : E A) : Prop :=
  forall st, exists evs,
    trace (c st).2 = (trace st ++ evs)%list /\ forallb P evs = true.

Definition is_sleep (e : event) : bool :=
  match e with EvSleep _ => true | _ => false end.

(** Events of the world outside other than a removal and a sleep: what
    the stages and the steps between them may add. *)
Definition calm (e : event) : bool :=
  neutral e && negb (is_remove e) && negb (is_sleep e).

(** How far the clip at hand has got, as a second observer of a run of
    [process_clips] sees it. *)
Inductive progress :=
| Idle
| Fresh
| Running (f : stage)
| Passed (f : stage)
| Dropped
| Attempted
| Slept.

Definition stage_eqb (f g : stage) : bool :=
  match f, g with
  | DownloadClip, DownloadClip | CreateVertical, CreateVertical
  | TrimVideo, TrimVideo | UploadShort, UploadShort => true
  | _, _ => false
  end.

(** The stage that must have returned [True] before [f] is called;
    the download comes first. *)
Definition stage_before (f : stage) : option stage :=
  match f with
  | DownloadClip => None
  | CreateVertical => Some DownloadClip
  | TrimVideo => Some CreateVertical
  | UploadShort => Some TrimVideo
  end.

(** The second observer.  A clip is taken up only when the one before
    is over: nothing called yet, the download returned, a stage
    returned [False], or the sleep after an upload is done.  A stage
    is called only when the stage before it has just returned [True],
    and returns before anything else is called.  Files are removed,
    and the run sleeps, for 30 seconds, only between the return of an
    upload and the next clip. *)
Definition watch (s : progress) (e : event) : option progress :=
  match e with
  | EvClip _ =>
      match s with
      | Idle | Fresh | Passed DownloadClip | Dropped | Slept => Some Fresh
      | _ => None
      end
  | EvCall f _ =>
      match stage_before f, s with
      | None, Fresh => Some (Running f)
      | Some g, Passed g' => if stage_eqb g g' then Some (Running f) else None
      | _, _ => None
      end
  | EvReturn f ok =>
      match s with
      | Running g =>
          if stage_eqb f g
          then Some (match f with
                     | UploadShort => Attempted
                     | _ => if ok then Passed f else Dropped
                     end)
          else None
      | _ => None
      end
  | EvRemove _ =>
      match s with Attempted => Some Attempted | _ => None end
  | EvSleep seconds =>
      match s with
      | Attempted => if (seconds =? 30)%nat then Some Slept else None
      | _ => None
      end
  | _ => Some s
  end.

Fixpoint watch_all (s : progress) (evs : list event) : option progress :=
  match evs with
  | [] => Some s
  | e :: evs' =>
      match watch s e with
      | Some s' => watch_all s' evs'
      | None => None
      end
  end.

(** The states in which a clip, and so a run, may end. *)
Definition clip_over (s : progress) : bool :=
  match s with
  | Idle | Fresh | Passed DownloadClip | Dropped | Slept => true
  | _ => false
  end.

(** From observer state [s0], the events the computation adds are all
    accepted, and the result and the state reached satisfy [Q]. *)
Definition watched {A} (s0 : progress) (c : E A)
    (Q : result A -> progress -> Prop) : Prop :=
  forall st, exists evs s1,
    trace (c st).2 = (trace st ++ evs)%list /\
    watch_all s0 evs = Some s1 /\
    Q (c st).1 s1.

(** ** The TikTok downloader *)

Module Tiktok.

(** Text is a list of code points.  [str.strip] takes off the
    characters for which [str.isspace] holds. *)
Definition is_space (c : N) : bool :=
  ((9 <=? c) && (c <=? 13) || (28 <=? c) && (c <=? 32) ||
   (c =? 133) || (c =? 160) || (c =? 5760) ||
   (8192 <=? c) && (c <=? 8202) || (c =? 8232) || (c =? 8233) ||
   (c =? 8239) || (c =? 8287) || (c =? 12288))%N.

Fixpoint lstrip (s : list N) : list N :=
  match s with
  | c :: s' => if is_space c then lstrip s' else s
  | [] => []
  end.

Definition rstrip (s : list N) : list N := rev (lstrip (rev s)).

Definition strip (s : list N) : list N := rstrip (lstrip s).

(** [s.startswith('#')] *)
Definition is_comment (s : list N) : bool :=
  match s with
  | c :: _ => (c =? 35)%N
  | [] => false
  end.

(** Reading in text mode turns [\r\n] and a lone [\r] into [\n]. *)
Fixpoint universal_newlines (s : list N) : list N :=
  match s with
  | [] => []
  | c :: s' =>
      if (c =? 13)%N
      then 10%N :: match s' with
                   | c' :: s'' =>
                       if (c' =? 10)%N then universal_newlines s''
                       else universal_newlines s'
                   | [] => []
                   end
      else c :: universal_newlines s'
  end.

(** [for line in file]: the lines, each with its [\n]; [cur] is the
    line being read, in reverse. *)
Fixpoint lines_from (cur : list N) (s : list N) : list (list N) :=
  match s with
  | [] => match cur with [] => [] | _ => [rev cur] end
  | c :: s' =>
      if (c =? 10)%N then rev (c :: cur) :: lines_from [] s'
      else lines_from (c :: cur) s'
  end.

Definition file_lines (content : list N) : list (list N) :=
  lines_from [] (universal_newlines content).

(** The comprehension of [read_urls_from_file]. *)
Fixpoint keep_urls (lines : list (list N)) : list (list N) :=
  match lines with
  | [] => []
  | line :: rest =>
      match strip line with
      | [] => keep_urls rest
      | url => if is_comment url then keep_urls rest else url :: keep_urls rest
      end
  end.

(** A file as [open(..., encoding='utf-8')] finds it: text, or
    something that cannot be opened or decoded. *)
Inductive text_file :=
| Text (content : list N)
| Unreadable.

(** [read_urls_from_file]; what it prints is left out. *)
Definition read_urls_from_file (files : gmap string text_file)
    (file_path : string) : list (list N) :=
  match files !! file_path with
  | None => []
  | Some Unreadable => []
  | Some (Text content) =>
      match keep_urls (file_lines content) with
      | [] => []
      | urls => urls
      end
  end.

(** Everything [main] asks of the machine.  [version_check] tells
    whether [yt-dlp --version] comes back without [CalledProcessError]
    or [FileNotFoundError], [pip_install] whether the installation comes
    back without [CalledProcessError]; [run_ytdlp i url] is the return
    code of the [i]-th download, [None] when it times out or raises. *)
Record machine := Machine {
  version_check : bool;
  pip_install : bool;
  tiktoks_exists : bool;
  files : gmap string text_file;
  run_ytdlp : nat -> list N -> option Z
}.

Inductive step :=
| CheckVersion
| PipInstall
| Download (url : list N)
| Sleep (seconds : nat).

Definition check_and_install_ytdlp (m : machine) : bool * list step :=
  if version_check m then (true, [CheckVersion])
  else if pip_install m then (true, [CheckVersion; PipInstall])
  else (false, [CheckVersion; PipInstall]).

Definition download_tiktok_video (m : machine) (i : nat) (url : list N) : bool :=
  match run_ytdlp m i url with
  | Some returncode => (returncode =? 0)%Z
  | None => false
  end.

Record summary := Summary {
  total : nat;
  successful_downloads : nat;
  failed_downloads : nat
}.

Definition delay_between_downloads : nat := 3.

(** The download loop, [for i, url in enumerate(urls, 1)], from the
    [i]-th of [n] addresses on. *)
Fixpoint download_loop (m : machine) (n i : nat) (urls : list (list N))
    (successful failed : nat) : summary * list step :=
  match urls with
  | [] => ({| total := n; successful_downloads := successful;
              failed_downloads := failed |}, [])
  | url :: rest =>
      let ok := download_tiktok_video m i url in
      let successful' := if ok then S successful else successful in
      let failed' := if ok then failed else S failed in
      let pause := if (i <? n)%nat then [Sleep delay_between_downloads] else [] in
      let '(result, steps) := download_loop m n (S i) rest successful' failed' in
      (result, (Download url :: pause ++ steps)%list)
  end.

(** [main]: the summary it prints, if it gets that far, and what it
    did on the way. *)
Definition main (m : machine) : option summary * list step :=
  let '(available, steps) := check_and_install_ytdlp m in
  if negb available then (None, steps)
  else if negb (tiktoks_exists m) then (None, steps)
  else
    match read_urls_from_file (files m) "tiktok_urls.txt" with
    | [] => (None, steps)
    | urls =>
        let '(result, downloads) := download_loop m (length urls) 1 urls 0 0 in
        (Some result, (steps ++ downloads)%list)
    end.

(** A file that holds the given addresses, one per line. *)
Definition one_per_line (urls : list (list N)) : list N :=
  flat_map (fun url => (url ++ [10%N])%list) urls.

(** The addresses downloaded and the pauses taken, in order. *)
Definition downloads_of (steps : list step) : list (list N) :=
  omap (fun s => match s with Download url => Some url | _ => None end) steps.

Definition sleeps_of (steps : list step) : list nat :=
  omap (fun s => match s with Sleep seconds => Some seconds | _ => None end) steps.

(** One download for every address, in order, with a pause between two
    downloads. *)
Fixpoint with_pauses (urls : list (list N)) : list step :=
  match urls with
  | [] => []
  | url :: rest =>
      Download url ::
      match rest with
      | [] => []
      | _ => Sleep delay_between_downloads :: with_pauses rest
      end
  end.

End Tiktok.

(** * Theorems *)

Ltac unfold_monad :=
  unfold try_except, bind, ret, raise, tell, clock, get_fs, put_file, delete_file.

(** ** The model at a few inputs *)

Example count_skips_overlap :
  PyStr.count "wowow" "wow" = 1 /\ PyStr.occurrences "wow" "wowow" = 2 /\
  PyStr.count "aaaa" "aa" = 2 /\ PyStr.count "abc" "" = 4.
Proof. repeat split. Qed.

Example split_examples :
  PyStr.split "" "," = Some [""] /\
  PyStr.split "a,b,,c," "," = Some ["a"; "b"; ""; "c"; ""] /\
  PyStr.split "https://clips.twitch.tv/abc" "/" =
    Some ["https:"; ""; "clips.twitch.tv"; "abc"].
Proof. repeat split. Qed.

Example analyze_insane_clutch :
  analyze_content "That was an INSANE clutch play" =
  {| total_score := 2;
     categories := [("excitement", 2); ("action", 0); ("reaction", 0); ("skill", 0)];
     dominant_emotion := "excitement" |}.
Proof. reflexivity. Qed.

Example analyze_god_tier :
  analyze_content "god-tier" =
  {| total_score := 2;
     categories := [("excitement", 0); ("action", 0); ("reaction", 1); ("skill", 1)];
     dominant_emotion := "reaction" |}.
Proof. reflexivity. Qed.

Example main_with_no_clips :
  main silent_world full_env empty_state =
  (0, {| fs := ∅;
         trace := [EvMkdir "downloads"; EvMkdir "processed"; EvMkdir "uploads";
                   EvTwitchClips "ninja"] |}).
Proof. reflexivity. Qed.

(** ** Scores of [analyze_content] *)

Section Scores.

Variable tl : string.

Lemma dict_set_fresh {V} (k : string) (v : V) (d : list (string * V)) :
  k ∉ map fst d -> Dict.set k v d = (d ++ [(k, v)])%list.
Proof.
  induction d as [|[k' v'] d IH]; intros Hk; [reflexivity|].
  cbn in *. apply not_elem_of_cons in Hk as [Hne Hk].
  destruct (String.eqb_spec k k') as [->|_]; [done|].
  by rewrite IH.
Qed.

Lemma fold_score_step (hk : list (string * list string)) (ca : content_analysis) :
  NoDup (map fst (categories ca) ++ map fst hk) ->
  fold_left (score_step tl) hk ca =
  {| total_score := total_score ca + sum_list (map (fun item => keyword_sum tl item.2) hk);
     categories := (categories ca ++ map (fun item => (item.1, keyword_sum tl item.2)) hk)%list;
     dominant_emotion := dominant_emotion ca |}.
Proof.
  revert ca. induction hk as [|[c kws] hk IH]; intros ca Hnd.
  - destruct ca; cbn. by rewrite Nat.add_0_r, app_nil_r.
  - cbn [fold_left]. rewrite IH.
    + unfold score_step; cbn [total_score categories dominant_emotion fst snd].
      apply NoDup_app in Hnd as (_ & Hfresh & _).
      rewrite dict_set_fresh
        by (intros Hin; apply (Hfresh _ Hin); cbn; left).
      cbn [map sum_list fst snd]. fold (keyword_sum tl kws).
      f_equal; [unfold id; lia|]. by rewrite <- app_assoc.
    + unfold score_step; cbn [categories fst snd].
      pose proof Hnd as Hnd'.
      apply NoDup_app in Hnd as (_ & Hfresh & _).
      rewrite dict_set_fresh
        by (intros Hin; apply (Hfresh _ Hin); cbn; left).
      rewrite map_app; cbn [map fst]. rewrite <- app_assoc. exact Hnd'.
Qed.

End Scores.

Lemma py_max_first {A} (key : A -> nat) (x : A) (l : list A) :
  exists i,
    (x :: l) !! i = Some (py_max key x l) /\
    forall j y, (x :: l) !! j = Some y ->
      key y <= key (py_max key x l) /\ (j < i -> key y < key (py_max key x l)).
Proof.
  induction l as [|z l IH] using rev_ind.
  - exists 0. split; [reflexivity|]. intros [|j] y Hy; [|done].
    injection Hy as <-. cbn. lia.
  - destruct IH as (i & Hi & Hmax).
    unfold py_max in *. rewrite fold_left_app. cbn [fold_left].
    set (best := fold_left _ l x) in *.
    pose proof (lookup_lt_Some _ _ _ Hi) as Hlen.
    destruct (Nat.ltb_spec (key best) (key z)) as [Hlt|Hge].
    + exists (length (x :: l)). split.
      * change (x :: l ++ [z])%list with ((x :: l) ++ [z])%list.
        by rewrite list_lookup_middle.
      * intros j y Hy.
        change (x :: l ++ [z])%list with ((x :: l) ++ [z])%list in Hy.
        destruct (decide (j < length (x :: l))) as [Hj|Hj].
        -- rewrite lookup_app_l in Hy by done.
           destruct (Hmax j y Hy). lia.
        -- rewrite lookup_app_r in Hy by lia.
           destruct (j - length (x :: l)) as [|n] eqn:E; [|done].
           injection Hy as <-. lia.
    + exists i. split.
      * change (x :: l ++ [z])%list with ((x :: l) ++ [z])%list.
        by rewrite lookup_app_l.
      * intros j y Hy.
        change (x :: l ++ [z])%list with ((x :: l) ++ [z])%list in Hy.
        destruct (decide (j < length (x :: l))) as [Hj|Hj].
        -- rewrite lookup_app_l in Hy by done. by apply Hmax.
        -- rewrite lookup_app_r in Hy by lia.
           destruct (j - length (x :: l)) as [|n] eqn:E; [|done].
           injection Hy as <-. lia.
Qed.

(** The dictionary and the total at the end of the scoring loop. *)
Lemma scoring_loop (t : string) :
  fold_left (score_step (PyStr.lower t)) highlight_keywords
    {| total_score := 0; categories := []; dominant_emotion := "neutral" |} =
  {| total_score := sum_list (map (fun c => non_overlapping_score c t) category_names);
     categories := map (fun c => (c, non_overlapping_score c t)) category_names;
     dominant_emotion := "neutral" |}.
Proof.
  rewrite fold_score_step.
  - reflexivity.
  - apply (bool_decide_unpack _). by vm_compute.
Qed.

Lemma analyze_content_unfold (t : string) :
  analyze_content t =
  let scores := map (fun c => (c, non_overlapping_score c t)) category_names in
  let max_category :=
    py_max snd ("excitement", non_overlapping_score "excitement" t) (tail scores) in
  {| total_score := sum_list (map (fun c => non_overlapping_score c t) category_names);
     categories := scores;
     dominant_emotion :=
       if (0 <? max_category.2)%nat then max_category.1 else "neutral" |}.
Proof.
  unfold analyze_content. cbv zeta. rewrite scoring_loop.
  cbn [categories category_names map highlight_keywords fst tail total_score dominant_emotion].
  by destruct (0 <? _)%nat.
Qed.

(** ** Occurrences with and without overlap *)

Lemma prefix_app (a b : string) :
  String.prefix a b = true <-> exists r, b = a ++ r.
Proof.
  revert b. induction a as [|c a IH]; intros [|c' b]; cbn.
  - split; [intros _; by exists ""|done].
  - split; [intros _; by exists (String c' b)|done].
  - split; [discriminate|intros [r Hr]; discriminate].
  - destruct (ascii_dec c c') as [->|Hne].
    + rewrite IH. split; [intros [r ->]; by exists r|].
      intros [r Hr]. exists r. by injection Hr.
    + split; [discriminate|]. intros [r Hr]. injection Hr as ->. done.
Qed.

Lemma app_prefix (a b r r' : string) :
  a ++ r = b ++ r' -> String.length a <= String.length b -> String.prefix a b = true.
Proof.
  revert b. induction a as [|c a IH]; intros b Heq Hlen; [by destruct b|].
  destruct b as [|c' b]; cbn in *; [lia|].
  injection Heq as -> Heq. destruct (ascii_dec c' c'); [|done]. apply IH; [done|lia].
Qed.

Lemma drop_chars_app (k : nat) (a r : string) :
  k <= String.length a -> drop_chars k (a ++ r) = drop_chars k a ++ r.
Proof.
  revert a. induction k as [|k IH]; intros a Hk; [reflexivity|].
  destruct a as [|c a]; cbn in *; [lia|]. apply IH. lia.
Qed.

Lemma drop_chars_length (k : nat) (a : string) :
  String.length (drop_chars k a) = String.length a - k.
Proof.
  revert a. induction k as [|k IH]; intros a; cbn; [lia|].
  destruct a as [|c a]; cbn; [done|]. apply IH.
Qed.

(** Inside an occurrence of a keyword that cannot overlap itself, no
    other occurrence starts. *)
Lemma no_occurrence_inside (sub s : string) (j : nat) :
  self_overlapping sub = false ->
  String.prefix sub s = true ->
  0 < j < String.length sub ->
  String.prefix sub (drop_chars j s) = false.
Proof.
  intros Hself Hpre Hj.
  destruct (String.prefix sub (drop_chars j s)) eqn:Hin; [|done].
  apply prefix_app in Hpre as [r ->]. apply prefix_app in Hin as [r' Hr'].
  rewrite drop_chars_app in Hr' by lia.
  assert (String.prefix (drop_chars j sub) sub = true) as Hborder.
  { eapply app_prefix; [exact Hr'|]. rewrite drop_chars_length. lia. }
  assert (self_overlapping sub = true); [|congruence].
  unfold self_overlapping. apply existsb_exists. exists j. split; [|done].
  apply in_seq. lia.
Qed.

Lemma count_from_occurrences (sub s : string) (k : nat) :
  sub <> "" ->
  self_overlapping sub = false ->
  (forall j, j < k -> String.prefix sub (drop_chars j s) = false) ->
  PyStr.count_from sub k s = PyStr.occurrences sub s.
Proof.
  intros Hne Hself. revert k.
  induction s as [|c s IH]; intros k Hskip.
  - destruct sub; [done|reflexivity].
  - cbn [PyStr.count_from PyStr.occurrences]. destruct k as [|k].
    + destruct (String.prefix sub (String c s)) eqn:Hpre.
      * rewrite IH; [reflexivity|]. intros j Hj.
        apply (no_occurrence_inside sub (String c s) (S j)); [done..|lia].
      * rewrite IH; [reflexivity|]. intros j Hj. lia.
    + pose proof (Hskip 0 ltac:(lia)) as H0. cbn [drop_chars] in H0. rewrite H0.
      rewrite IH; [reflexivity|].
      intros j Hj. apply (Hskip (S j)). lia.
Qed.

(** For a keyword that cannot overlap itself, [str.count] finds every
    occurrence. *)
Lemma count_occurrences (s sub : string) :
  sub <> "" -> self_overlapping sub = false ->
  PyStr.count s sub = PyStr.occurrences sub s.
Proof.
  intros Hne Hself. unfold PyStr.count. destruct sub as [|c sub]; [done|].
  apply count_from_occurrences; [done..|]. intros j Hj. lia.
Qed.

Lemma category_score_eq (c t : string) :
  c ∈ category_names ->
  category_score c t = Some (non_overlapping_score c t).
Proof.
  intros Hc. unfold category_score. rewrite analyze_content_unfold.
  cbn [categories category_names highlight_keywords map fst].
  cbn [category_names highlight_keywords map fst] in Hc.
  repeat (apply elem_of_cons in Hc as [->|Hc]; [reflexivity|]).
  by apply elem_of_nil in Hc.
Qed.

(** C1 (as amended): every category score of [analyze_content] is the
    sum, over the keyword list of the category, of the number of
    non-overlapping occurrences of the keyword in the lower-cased
    transcript, counted left to right as [str.count] does; for each
    keyword that cannot overlap itself, which is every keyword but
    [wow] and [talent], that number is also the number of possibly
    overlapping occurrences; and [total_score] is the sum of the four
    category scores. *)
Theorem analyze_content_scores (t : string) :
  Forall (fun c => category_score c t = Some (non_overlapping_score c t))
         ["excitement"; "action"; "reaction"; "skill"] /\
  total_score (analyze_content t) =
    non_overlapping_score "excitement" t + non_overlapping_score "action" t +
    non_overlapping_score "reaction" t + non_overlapping_score "skill" t /\
  Forall (fun keyword =>
            keyword = "wow" \/ keyword = "talent" \/
            PyStr.count (PyStr.lower t) keyword =
            PyStr.occurrences keyword (PyStr.lower t))
         (concat (map snd highlight_keywords)).
Proof.
  split; [|split].
  - apply Forall_forall. intros c Hc. apply category_score_eq. exact Hc.
  - rewrite analyze_content_unfold. cbn [total_score category_names
      highlight_keywords map fst sum_list]. unfold id. lia.
  - cbn [highlight_keywords map snd concat app].
    repeat (apply Forall_cons; split;
            [first [by left | by right; left
                   | right; right; by apply count_occurrences]|]).
    apply Forall_nil_2.
Qed.

(** C1, the claim as written: on [wowow] the excitement score is 1,
    while [wow] occurs twice when overlapping occurrences count. *)
Lemma analyze_content_overlapping_counterexample :
  category_score "excitement" "wowow" <> Some (overlapping_score "excitement" "wowow").
Proof. vm_compute. discriminate. Qed.

(** ** The dominant category *)

(** C8: on the empty transcript every score is zero and the dominant
    category is [neutral]; for every transcript the categories are
    scored in the order excitement, action, reaction, skill, each with
    the number of times its keywords are counted in the lower-cased
    transcript, and either every one of these counts is zero and the
    dominant category is [neutral], or the dominant category is the
    one with the highest count, the first in that order among those
    that reach it. *)
Theorem dominant_emotion_first_maximum (t : string) :
  let a := analyze_content t in
  let names := ["excitement"; "action"; "reaction"; "skill"] in
  let score := fun c => non_overlapping_score c t in
  analyze_content "" =
    {| total_score := 0;
       categories := [("excitement", 0); ("action", 0); ("reaction", 0); ("skill", 0)];
       dominant_emotion := "neutral" |} /\
  categories a = map (fun c => (c, score c)) names /\
  ((Forall (fun c => score c = 0) names /\ dominant_emotion a = "neutral") \/
   (exists i,
      names !! i = Some (dominant_emotion a) /\
      0 < score (dominant_emotion a) /\
      forall j c, names !! j = Some c ->
        score c <= score (dominant_emotion a) /\
        (j < i -> score c < score (dominant_emotion a)))).
Proof.
  cbv zeta. split; [reflexivity|].
  rewrite analyze_content_unfold. cbv zeta.
  cbn [categories dominant_emotion category_names highlight_keywords map fst tail].
  split; [reflexivity|].
  set (score := fun c => non_overlapping_score c t).
  set (names := ["excitement"; "action"; "reaction"; "skill"]).
  set (first := ("excitement", non_overlapping_score "excitement" t)).
  set (rest := [("action", non_overlapping_score "action" t);
                ("reaction", non_overlapping_score "reaction" t);
                ("skill", non_overlapping_score "skill" t)]).
  assert (first :: rest = (fun c => (c, score c)) <$> names) as Hscores by reflexivity.
  destruct (py_max_first snd first rest) as (i & Hi & Hmax).
  destruct (py_max snd first rest) as [c n] eqn:Hbest. cbn [fst snd] in *.
  rewrite Hscores in Hi, Hmax.
  rewrite list_lookup_fmap in Hi.
  destruct (names !! i) as [ci|] eqn:Hci; [|done].
  injection Hi as -> <-.
  destruct (Nat.ltb_spec 0 (score c)) as [Hpos|Hzero].
  - right. exists i. split; [exact Hci|]. split; [exact Hpos|].
    intros j c' Hj. apply (Hmax j (c', score c')).
    by rewrite list_lookup_fmap, Hj.
  - left. split; [|reflexivity].
    apply Forall_forall. intros c' Hin.
    apply list_elem_of_lookup in Hin as [j Hj].
    destruct (Hmax j (c', score c')) as [Hle _];
      [by rewrite list_lookup_fmap, Hj|]. cbn in *. lia.
Qed.

(** ** Initialisation *)

Lemma new_events_app (st st' : state) (evs : list event) :
  trace st' = (trace st ++ evs)%list -> new_events st st' = evs.
Proof. intros H. unfold new_events. rewrite H. apply drop_app_length. Qed.

Lemma split_comma (s : string) : exists l, PyStr.split s "," = Some l.
Proof. unfold PyStr.split. eauto. Qed.

(** One directory that can be made. *)
Lemma mkdir_made (W : world) (path : string) (st : state) :
  fs st !! path = None ->
  mkdir_ok W (length (trace st)) path = true ->
  mkdir W path st =
    (Ok tt, {| fs := fs st; trace := (trace st ++ [EvMkdir path])%list |}).
Proof.
  intros Hfree Hok. unfold mkdir. unfold_monad. cbn [fs trace].
  by rewrite Hfree, Hok.
Qed.

(** One directory that cannot. *)
Lemma mkdir_refused (W : world) (path : string) (st : state) :
  bool_decide (fs st !! path = None) && mkdir_ok W (length (trace st)) path = false ->
  exists msg,
    mkdir W path st =
      (Raise msg, {| fs := fs st; trace := (trace st ++ [EvMkdir path])%list |}).
Proof.
  intros Hno. unfold mkdir. unfold_monad. cbn [fs trace].
  destruct (fs st !! path) as [f|] eqn:Hf; [eauto|].
  rewrite bool_decide_eq_true_2 in Hno by done. cbn in Hno. rewrite Hno. eauto.
Qed.

(** A run of [__init__] that gets its directories. *)
Lemma init_run (W : world) (env : gmap string string) (st : state) :
  directories_made W st = true ->
  exists streamers,
    PyStr.split (default "" (env !! "YOUTUBE_STREAMERS")) "," = Some streamers /\
    __init__ W env st =
      (match missing_creds env with
       | [] => Ok (instance_of W env streamers)
       | missing => Raise ("Missing credentials: " ++ PyStr.join ", " missing)
       end,
       {| fs := fs st; trace := (trace st ++ init_events W)%list |}).
Proof.
  intros Hmade. destruct (split_comma (default "" (env !! "YOUTUBE_STREAMERS")))
    as [streamers Hsplit].
  exists streamers. split; [exact Hsplit|].
  unfold directories_made, init_clock in Hmade. cbn [forallb fst snd] in Hmade.
  rewrite !andb_true_r in Hmade.
  apply andb_prop in Hmade as [[H1 K1]%andb_prop [[H2 K2]%andb_prop [H3 K3]%andb_prop]%andb_prop].
  apply bool_decide_eq_true in H1, H2, H3.
  unfold __init__, _validate_credentials, init_events, instance_of. rewrite Hsplit.
  unfold bind at 1. unfold ret at 1.
  destruct (whisper_available W); cbn [andb].
  - unfold bind at 1. unfold bind at 1. unfold tell at 1. unfold ret at 1.
    unfold bind at 1.
    rewrite mkdir_made; cbn [fs trace]; rewrite ?length_app; cbn [length];
      [|done|by rewrite Nat.add_0_r in K1].
    unfold bind at 1.
    rewrite mkdir_made; cbn [fs trace]; rewrite ?length_app; cbn [length];
      [|done|by replace (length (trace st) + 1 + 1) with (length (trace st) + 1 + 1) by lia].
    unfold bind at 1.
    rewrite mkdir_made; cbn [fs trace]; rewrite ?length_app; cbn [length];
      [|done|by replace (length (trace st) + 1 + 1 + 1) with (length (trace st) + 1 + 2) by lia].
    unfold bind, ret, raise. rewrite <- !app_assoc. cbn [app].
    by destruct (missing_creds env).
  - unfold bind at 1. unfold ret at 1.
    unfold bind at 1.
    rewrite mkdir_made; cbn [fs trace]; rewrite ?length_app; cbn [length];
      [|done|by rewrite !Nat.add_0_r in K1].
    unfold bind at 1.
    rewrite mkdir_made; cbn [fs trace]; rewrite ?length_app; cbn [length];
      [|done|by rewrite Nat.add_0_r in K2].
    unfold bind at 1.
    rewrite mkdir_made; cbn [fs trace]; rewrite ?length_app; cbn [length];
      [|done|by replace (length (trace st) + 1 + 1) with (length (trace st) + 0 + 2) by lia].
    unfold bind, ret, raise. rewrite <- !app_assoc. cbn [app].
    by destruct (missing_creds env).
Qed.

(** A run of [__init__] that does not get them stops there. *)
Lemma init_without_directories (W : world) (env : gmap string string) (st : state) :
  directories_made W st = false ->
  exists msg st',
    __init__ W env st = (Raise msg, st') /\
    (msg = "FileExistsError" \/ msg = "OSError") /\
    fs st' = fs st.
Proof.
  intros Hmade. destruct (split_comma (default "" (env !! "YOUTUBE_STREAMERS")))
    as [streamers Hsplit].
  unfold directories_made, init_clock in Hmade. cbn [forallb fst snd] in Hmade.
  rewrite !andb_true_r in Hmade.
  unfold __init__. rewrite Hsplit. unfold mkdir.
  unfold_monad. cbn [fs trace].
  destruct (whisper_available W); cbn [fs trace];
    rewrite ?length_app; cbn [length fs trace];
    rewrite ?Nat.add_0_r in Hmade;
    replace (length (trace st) + 1 + 1 + 1) with (length (trace st) + 1 + 2) by lia;
    replace (length (trace st) + 1 + 1) with (length (trace st) + 2) in * by lia.
  all: destruct (fs st !! "downloads"); [by eauto 10|];
    rewrite ?(bool_decide_eq_true_2 (@None file = None)) in Hmade by done;
    cbn [andb] in Hmade.
  all: destruct (mkdir_ok W _ "downloads"); [|by eauto 10]; cbn [andb fs trace] in *;
    rewrite ?length_app; cbn [length fs trace].
  all: destruct (fs st !! "processed"); [by eauto 10|];
    rewrite ?(bool_decide_eq_true_2 (@None file = None)) in Hmade by done;
    cbn [andb] in Hmade.
  all: replace (length (trace st) + 1 + 1) with (length (trace st) + 2) in * by lia.
  all: destruct (mkdir_ok W _ "processed"); [|by eauto 10]; cbn [andb fs trace] in *;
    rewrite ?length_app; cbn [length fs trace].
  all: destruct (fs st !! "uploads"); [by eauto 10|];
    rewrite ?(bool_decide_eq_true_2 (@None file = None)) in Hmade by done;
    cbn [andb] in Hmade.
  all: replace (length (trace st) + 1 + 1 + 1) with (length (trace st) + 1 + 2) in * by lia;
       replace (length (trace st) + 1 + 1) with (length (trace st) + 2) in * by lia.
  all: destruct (mkdir_ok W _ "uploads"); [done|by eauto 10].
Qed.

(** ** The streamer list *)

(** C10: with [YOUTUBE_STREAMERS] unset or empty, the string split on
    the comma is the empty string and the split yields the one-element
    list holding it; that list is the [youtube_streamers] of every
    instance [__init__] returns, and [__init__] does return one when no
    required credential is missing and it gets its three directories. *)
Theorem youtube_streamers_default (W : world) (env : gmap string string) (st : state) :
  env !! "YOUTUBE_STREAMERS" = None \/ env !! "YOUTUBE_STREAMERS" = Some "" ->
  PyStr.split (default "" (env !! "YOUTUBE_STREAMERS")) "," = Some [""] /\
  (forall a st', __init__ W env st = (Ok a, st') -> youtube_streamers a = [""]) /\
  (missing_creds env = [] -> directories_made W st = true ->
   exists a st', __init__ W env st = (Ok a, st') /\ youtube_streamers a = [""]).
Proof.
  intros Hunset.
  assert (PyStr.split (default "" (env !! "YOUTUBE_STREAMERS")) "," = Some [""]) as Hsplit.
  { by destruct Hunset as [-> | ->]. }
  split; [exact Hsplit|]. split.
  - intros a st' Hinit.
    destruct (directories_made W st) eqn:Hmade.
    + destruct (init_run W env st Hmade) as (streamers & Hs & Hrun).
      rewrite Hsplit in Hs. injection Hs as <-.
      rewrite Hrun in Hinit. by destruct (missing_creds env); simplify_eq.
    + destruct (init_without_directories W env st Hmade) as (msg & st1 & Hrun & _).
      congruence.
  - intros Hnone Hmade.
    destruct (init_run W env st Hmade) as (streamers & Hs & Hrun).
    rewrite Hsplit in Hs. injection Hs as <-.
    rewrite Hnone in Hrun. eauto.
Qed.

Lemma youtube_streamers_default_witness :
  exists a st',
    __init__ silent_world full_env empty_state = (Ok a, st') /\
    youtube_streamers a = [""].
Proof.
  destruct (youtube_streamers_default silent_world full_env empty_state
              (or_introl eq_refl)) as (_ & _ & Hreturns).
  apply Hreturns; reflexivity.
Defined.

(** ** Titles *)

(** C9: the template mapping has the keys excitement, action, skill and
    neutral, so a dominant category [reaction] finds no list of its own
    and the neutral list is selected; [generate_engaging_title] then
    asks for one draw below 3 and returns the template at that index,
    so that each of the three neutral templates is returned for
    exactly one value of the draw. *)
Theorem reaction_uses_neutral_titles (W : world) (clip_title : string)
    (ca : content_analysis) (streamer_name : string) (st : state) :
  dominant_emotion ca = "reaction" ->
  map fst (templates streamer_name) = ["excitement"; "action"; "skill"; "neutral"] /\
  selected_titles ca streamer_name = neutral_titles streamer_name /\
  generate_engaging_title W clip_title ca streamer_name st =
    (Ok (choice (neutral_titles streamer_name) (randbelow W (length (trace st)) 3)),
     {| fs := fs st; trace := (trace st ++ [EvRandom 3])%list |}) /\
  map (choice (neutral_titles streamer_name)) [0; 1; 2] = neutral_titles streamer_name.
Proof.
  intros Hreaction.
  assert (selected_titles ca streamer_name = neutral_titles streamer_name) as Hsel.
  { unfold selected_titles. rewrite Hreaction. reflexivity. }
  split; [reflexivity|]. split; [exact Hsel|]. split; [|reflexivity].
  unfold generate_engaging_title. rewrite Hsel. reflexivity.
Qed.

Lemma reaction_uses_neutral_titles_witness :
  selected_titles (analyze_content "omg") "ninja" =
  ["BEST ninja MOMENTS! 🔥"; "ninja HIGHLIGHTS! ⭐"; "EPIC ninja CLIP! 🎮"].
Proof.
  destruct (reaction_uses_neutral_titles silent_world "clip" (analyze_content "omg")
              "ninja" empty_state eq_refl) as (_ & Hsel & _).
  exact Hsel.
Defined.

(** ** Rounding *)











(** ** Trimming *)











(** ** Credentials *)

Lemma append_cons (x : ascii) (a b : string) : String x a ++ b = String x (a ++ b).
Proof. reflexivity. Qed.

Lemma append_assoc (a b c : string) : (a ++ b) ++ c = a ++ (b ++ c).
Proof.
  induction a as [|x a IH]; [reflexivity|]. rewrite !append_cons. by f_equal.
Qed.

Lemma append_empty (s : string) : s = s ++ "".
Proof.
  induction s as [|x s IH]; [reflexivity|]. rewrite append_cons. by f_equal.
Qed.

Lemma contains_prefix (sub s : string) :
  String.prefix sub s = true -> PyStr.contains sub s = true.
Proof. intros H. destruct s; cbn [PyStr.contains]; by rewrite H. Qed.

Lemma contains_app_r (sub a b : string) :
  PyStr.contains sub b = true -> PyStr.contains sub (a ++ b) = true.
Proof.
  intros H. induction a as [|x a IH]; [exact H|].
  rewrite append_cons. cbn [PyStr.contains]. rewrite IH. apply orb_true_r.
Qed.

Lemma contains_app_l (sub a b : string) :
  PyStr.contains sub a = true -> PyStr.contains sub (a ++ b) = true.
Proof.
  induction a as [|x a IH]; intros H.
  - cbn [PyStr.contains] in H. rewrite orb_false_r in H. destruct sub; [|done].
    apply contains_prefix. by destruct b.
  - cbn [PyStr.contains] in H. apply orb_true_iff in H as [H|H].
    + apply contains_prefix. apply prefix_app in H as [r Hr].
      apply prefix_app. exists (r ++ b). rewrite Hr. apply append_assoc.
    + rewrite append_cons. cbn [PyStr.contains]. rewrite (IH H). apply orb_true_r.
Qed.

Lemma contains_refl (s : string) : PyStr.contains s s = true.
Proof.
  apply contains_prefix, prefix_app. exists "". apply append_empty.
Qed.

(** Each item of a joined list can be read in the result. *)
Lemma contains_join (sep k : string) (l : list string) :
  k ∈ l -> PyStr.contains k (PyStr.join sep l) = true.
Proof.
  induction l as [|x l IH]; intros Hk; [by apply elem_of_nil in Hk|].
  apply elem_of_cons in Hk as [->|Hk].
  - destruct l as [|y l]; [apply contains_refl|].
    cbn [PyStr.join]. apply contains_app_l, contains_refl.
  - destruct l as [|y l]; [by apply elem_of_nil in Hk|].
    cbn [PyStr.join]. by apply contains_app_r, contains_app_r, IH.
Qed.

Lemma elem_of_missing_creds (env : gmap string string) (k : string) :
  k ∈ missing_creds env <-> k ∈ required_names /\ falsy (env !! k) = true.
Proof.
  unfold missing_creds.
  change (required_creds env) with ((fun k => (k, env !! k)) <$> required_names).
  rewrite list_elem_of_fmap. split.
  - intros ([k' v] & -> & Hin). apply list_elem_of_filter in Hin as [Hfalsy Hin].
    apply list_elem_of_fmap in Hin as (k'' & [= -> ->] & Hreq).
    split; [exact Hreq|]. by apply Is_true_true.
  - intros [Hreq Hfalsy]. exists (k, env !! k). split; [reflexivity|].
    apply list_elem_of_filter. split; [by apply Is_true_true|].
    apply list_elem_of_fmap. by exists k.
Qed.

(** C6, the claim as written: with no credential set and a file
    named [downloads] in the working directory, [__init__] raises
    [FileExistsError] at its first directory, and no configuration
    failure that names the missing credentials.  And where Whisper is
    installed, the model is loaded, which may reach the network, before
    the missing credentials are reported. *)
Lemma missing_credentials_counterexample :
  ((__init__ silent_world ∅ blocked_state).1 = Raise "FileExistsError" /\
   ~ exists st',
       __init__ silent_world ∅ blocked_state =
         (Raise ("Missing credentials: " ++ PyStr.join ", " (missing_creds ∅)), st')) /\
  (exists st',
     __init__ whisper_world ∅ empty_state =
       (Raise ("Missing credentials: " ++ PyStr.join ", " (missing_creds ∅)), st') /\
     EvLoadModel ∈ new_events empty_state st' /\
     is_network EvLoadModel = true).
Proof.
  split.
  - split; [reflexivity|]. intros [st' Hinit].
    apply (f_equal fst) in Hinit. vm_compute in Hinit. discriminate.
  - eexists. split; [reflexivity|]. split; [|reflexivity].
    vm_compute. apply list_elem_of_here.
Qed.

(** C6 (as amended): when a required credential is absent or empty,
    [__init__] never returns an instance and [main] returns 1.  When
    moreover it gets its three directories, it raises an exception
    whose message is [Missing credentials: ] followed by the missing
    names, joined by a comma and a space: that list holds exactly the
    required names that are absent or empty, and each of them occurs
    in the message.  Before the failure [__init__] loads the Whisper
    model, if the library is installed, and makes the directories;
    the model load is the only step among these that may reach the
    network, and no request of the program itself is sent. *)
Theorem missing_credentials_fail_first (W : world) (env : gmap string string)
    (st : state) (k : string) :
  k ∈ required_names ->
  falsy (env !! k) = true ->
  let msg := "Missing credentials: " ++ PyStr.join ", " (missing_creds env) in
  (exists failure st',
     __init__ W env st = (Raise failure, st') /\ main W env st = (1, st')) /\
  (directories_made W st = true ->
   exists st',
     __init__ W env st = (Raise msg, st') /\
     (forall k', k' ∈ missing_creds env <->
                 k' ∈ required_names /\ falsy (env !! k') = true) /\
     (forall k', k' ∈ required_names -> falsy (env !! k') = true ->
                 PyStr.contains k' msg = true) /\
     new_events st st' = init_events W /\
     (forall e, e ∈ new_events st st' -> is_network e = true -> e = EvLoadModel) /\
     (whisper_available W = false ->
      forallb (fun e => negb (is_network e)) (new_events st st') = true)).
Proof.
  intros Hreq Hfalsy msg.
  assert (k ∈ missing_creds env) as Hmissing by by apply elem_of_missing_creds.
  assert (directories_made W st = true ->
          __init__ W env st =
            (Raise msg, {| fs := fs st; trace := (trace st ++ init_events W)%list |}))
    as Hrun.
  { intros Hmade. destruct (init_run W env st Hmade) as (streamers & _ & ->).
    destruct (missing_creds env) as [|k0 ks] eqn:Hlist;
      [by apply elem_of_nil in Hmissing|]. done. }
  split.
  - destruct (directories_made W st) eqn:Hmade.
    + eexists _, _. split; [by apply Hrun|]. unfold main, bind. by rewrite Hrun.
    + destruct (init_without_directories W env st Hmade) as (failure & st' & Hinit & _).
      exists failure, st'. split; [exact Hinit|]. unfold main, bind. by rewrite Hinit.
  - intros Hmade. eexists. split; [by apply Hrun|].
    split; [intros k'; apply elem_of_missing_creds|].
    split.
    { intros k' Hreq' Hfalsy'. subst msg. apply contains_app_r, contains_join.
      by apply elem_of_missing_creds. }
    assert (new_events st {| fs := fs st; trace := (trace st ++ init_events W)%list |}
            = init_events W) as -> by by apply new_events_app.
    split; [reflexivity|]. unfold init_events. split.
    + intros e He Hnet. destruct (whisper_available W); cbn in He;
        repeat (apply elem_of_cons in He as [->|He]; [done|]);
        by apply elem_of_nil in He.
    + by intros ->.
Qed.

Lemma missing_credentials_fail_first_witness :
  exists st',
    __init__ silent_world ∅ empty_state =
      (Raise ("Missing credentials: " ++ PyStr.join ", " (missing_creds ∅)), st').
Proof.
  destruct (missing_credentials_fail_first silent_world ∅ empty_state
              "TWITCH_CLIENT_ID" ltac:(by left) eq_refl)
    as (_ & Hmade).
  destruct (Hmade eq_refl) as (st' & Hinit & _).
  exists st'. exact Hinit.
Defined.

(** ** Upload *)

Ltac new_events_eq :=
  erewrite new_events_app
    by (cbn [trace]; rewrite <- ?app_assoc; cbn [app]; reflexivity).

(** C5: in every run of [upload_to_youtube_shorts], if the request that
    opens the upload session was answered with status 200 or 201 and
    the answer has no [Location] header, or an empty one, the call
    returns [False], no PUT was sent and the video file was not read;
    and if the PUT was answered with status 200 or 201 by a body from
    which no video identifier can be taken, the call returns [False]
    as well. *)
Theorem upload_needs_location_and_id (W : world)
    (video_path title description : string) (tags : list string) (st : state) :
  let run := upload_to_youtube_shorts W video_path title description tags st in
  let evs := new_events st run.2 in
  (forall resp,
     EvHttp POST init_url (Some resp) ∈ evs ->
     status_in_200_201 resp = true ->
     header_get "Location" (headers resp) = None \/
     header_get "Location" (headers resp) = Some "" ->
     run.1 = Ok false /\
     forallb (fun e => negb (is_put e)) evs = true /\
     EvReadFile video_path ∉ evs) /\
  (forall url resp,
     EvHttp PUT url (Some resp) ∈ evs ->
     status_in_200_201 resp = true ->
     (forall response_data video_id,
        json resp = Some response_data ->
        Dict.get "id" response_data = Some video_id ->
        truthy video_id = false) ->
     run.1 = Ok false).
Proof.
  cbv zeta.
  unfold upload_to_youtube_shorts, get_fresh_access_token, request, getsize.
  unfold_monad. cbn [fs trace].
  repeat case_match; simplify_eq; cbn [fst snd].
  all: new_events_eq.
  all: unfold init_url, token_url in *.
  all: split; [intros resp Hin Hst Hloc | intros url resp Hin Hst Hid].
  all: repeat (apply elem_of_cons in Hin as [Hin|Hin]; [simplify_eq|]).
  all: try (by apply elem_of_nil in Hin).
  all: try (destruct Hloc as [Hloc|Hloc]; simplify_eq; done).
  all: try (split; [reflexivity|split; [reflexivity|]];
            by repeat (apply not_elem_of_cons; split; [discriminate|]);
               apply not_elem_of_nil).
  all: try reflexivity.
  destruct (Dict.get "id" l) as [video_id|] eqn:Hget; [|reflexivity].
  cbn [from_option]. f_equal. by eapply Hid.
Qed.

Lemma upload_needs_location_and_id_witness :
  (upload_to_youtube_shorts no_location_world "uploads/final.mp4" "t" "d" []
     state_with_final).1 = Ok false /\
  (upload_to_youtube_shorts no_id_world "uploads/final.mp4" "t" "d" []
     state_with_final).1 = Ok false.
Proof.
  split.
  - destruct (upload_needs_location_and_id no_location_world
                "uploads/final.mp4" "t" "d" [] state_with_final) as [Hloc _].
    apply (Hloc (reply 200)).
    + vm_compute. apply list_elem_of_In. right. left. reflexivity.
    + reflexivity.
    + left. reflexivity.
  - destruct (upload_needs_location_and_id no_id_world
                "uploads/final.mp4" "t" "d" [] state_with_final) as [_ Hid].
    apply (Hid "https://upload.example/session"
             {| status_code := 200; headers := [];
                json := Some [("kind", JStr "youtube#video")];
                content := {| size := 0; video := None |};
                stream_breaks := None |}).
    + vm_compute. apply list_elem_of_In. do 3 right. left. reflexivity.
    + reflexivity.
    + intros response_data video_id [= <-]. discriminate.
Defined.

(** ** Computations that only talk to the world outside *)

Section Quiet.

Context {A B : Type}.

Lemma quiet_ret (a : A) : quiet (ret a).
Proof. intros st. exists []. split; [by rewrite app_nil_r|constructor]. Qed.

Lemma quiet_raise (msg : string) : quiet (@raise A msg).
Proof. intros st. exists []. split; [by rewrite app_nil_r|constructor]. Qed.

Lemma quiet_bind (c : E A) (k : A -> E B) :
  quiet c -> (forall a, quiet (k a)) -> quiet (bind c k).
Proof.
  intros Hc Hk st. unfold bind.
  destruct (Hc st) as (evs1 & Htr1 & Hn1).
  destruct (c st) as [[a|msg] st1]; cbn [snd] in *.
  - destruct (Hk a st1) as (evs2 & Htr2 & Hn2).
    exists (evs1 ++ evs2)%list. split.
    + by rewrite Htr2, Htr1, app_assoc.
    + by apply Forall_app.
  - by exists evs1.
Qed.

Lemma quiet_try_except (c : E A) (h : string -> E A) :
  quiet c -> (forall msg, quiet (h msg)) -> quiet (try_except c h).
Proof.
  intros Hc Hh st. unfold try_except.
  destruct (Hc st) as (evs1 & Htr1 & Hn1).
  destruct (c st) as [[a|msg] st1]; cbn [snd] in *.
  - by exists evs1.
  - destruct (Hh msg st1) as (evs2 & Htr2 & Hn2).
    exists (evs1 ++ evs2)%list. split.
    + by rewrite Htr2, Htr1, app_assoc.
    + by apply Forall_app.
Qed.

End Quiet.

Lemma quiet_tell (e : event) : neutral e = true -> quiet (tell e).
Proof. intros He st. exists [e]. split; [reflexivity|]. by repeat constructor. Qed.

Lemma quiet_clock : quiet clock.
Proof. intros st. exists []. split; [by rewrite app_nil_r|constructor]. Qed.

Lemma quiet_get_fs : quiet get_fs.
Proof. intros st. exists []. split; [by rewrite app_nil_r|constructor]. Qed.

Lemma quiet_put_file (path : string) (f : file) : quiet (put_file path f).
Proof. intros st. exists []. split; [by rewrite app_nil_r|constructor]. Qed.

Lemma quiet_delete_file (path : string) : quiet (delete_file path).
Proof. intros st. exists []. split; [by rewrite app_nil_r|constructor]. Qed.

Ltac quiet_step :=
  first
    [ apply quiet_ret | apply quiet_raise | apply quiet_clock
    | apply quiet_get_fs | apply quiet_put_file | apply quiet_delete_file
    | apply quiet_tell; reflexivity
    | apply quiet_bind; [|intros ?]
    | apply quiet_try_except; [|intros ?]
    | assumption
    | match goal with
      | |- quiet (match ?x with _ => _ end) => destruct x
      | |- quiet (let '(_, _) := ?x in _) => destruct x
      end ].

Ltac quiet_tac := cbv zeta; repeat quiet_step.

Section QuietProgram.

Variable W : world.

Lemma quiet_path_exists (path : string) : quiet (path_exists path).
Proof. unfold path_exists. quiet_tac. Qed.

Lemma quiet_getsize (path : string) : quiet (getsize path).
Proof. unfold getsize. quiet_tac. Qed.

Lemma quiet_getitem (v : Json.json) (key : string) :
  quiet (getitem v key).
Proof. unfold getitem. quiet_tac. Qed.

Lemma quiet_request (m : http_method) (url : string) : quiet (request W m url).
Proof. unfold request. quiet_tac. Qed.

Lemma quiet_get_fresh_access_token : quiet (get_fresh_access_token W).
Proof.
  unfold get_fresh_access_token. pose proof quiet_request. quiet_tac.
Qed.

Lemma quiet_probe (possible_urls : list string) : quiet (probe W possible_urls).
Proof.
  induction possible_urls as [|url rest IH]; cbn [probe];
    pose proof quiet_request; quiet_tac.
Qed.

Lemma quiet_get_clip_download_url (clip_url : string) :
  quiet (get_clip_download_url W clip_url).
Proof.
  unfold get_clip_download_url. pose proof quiet_probe. quiet_tac.
Qed.

Lemma quiet_write_stream (filepath : string) (r : response) :
  quiet (write_stream W filepath r).
Proof. unfold write_stream. quiet_tac. Qed.

Lemma quiet_download_clip (clip_url filename : string) :
  quiet (download_clip W clip_url filename).
Proof.
  unfold download_clip.
  pose proof quiet_get_clip_download_url. pose proof quiet_request.
  pose proof quiet_write_stream. pose proof quiet_path_exists.
  pose proof quiet_getsize.
  apply quiet_try_except; [|intros ?; apply quiet_ret].
  apply quiet_bind; [done|]. intros [url|]; [|apply quiet_ret].
  destruct (String.eqb url ""); quiet_tac.
Qed.

Lemma quiet_download_clip_of (clip_url : Json.json) (filename : string) :
  quiet (download_clip_of W clip_url filename).
Proof.
  unfold download_clip_of. pose proof quiet_download_clip. quiet_tac.
Qed.

Lemma quiet_skip_clip (clip : Json.json) : quiet (skip_clip clip).
Proof. unfold skip_clip. quiet_tac. Qed.

Lemma quiet_transcribe_audio (self : automation) (video_path : string) :
  quiet (transcribe_audio W self video_path).
Proof. unfold transcribe_audio. quiet_tac. Qed.

Lemma quiet_open_video (path : string) : quiet (open_video path).
Proof.
  unfold open_video. quiet_tac. 
Qed.

Lemma quiet_write_videofile (path : string) (out : media) (t_start t_end : Q) :
  quiet (write_videofile W path out t_start t_end).
Proof. unfold write_videofile. quiet_tac. Qed.

Lemma quiet_create_vertical_video (input_path output_path : string) :
  quiet (create_vertical_video W input_path output_path).
Proof.
  unfold create_vertical_video.
  pose proof quiet_open_video. pose proof quiet_write_videofile. quiet_tac.
Qed.

Lemma quiet_trim_video (input_path output_path : string) (max_duration : Q) :
  quiet (trim_video W input_path output_path max_duration).
Proof.
  unfold trim_video.
  pose proof quiet_open_video. pose proof quiet_write_videofile. quiet_tac.
Qed.

Lemma quiet_generate_engaging_title {T : Type} (clip_title : T)
    (ca : content_analysis) (streamer_name : string) :
  quiet (generate_engaging_title W clip_title ca streamer_name).
Proof. unfold generate_engaging_title. quiet_tac. Qed.

Lemma quiet_upload_to_youtube_shorts (video_path title description : string)
    (tags : list string) :
  quiet (upload_to_youtube_shorts W video_path title description tags).
Proof.
  unfold upload_to_youtube_shorts.
  pose proof quiet_get_fresh_access_token. pose proof quiet_request.
  pose proof quiet_getsize.
  apply quiet_try_except; [|intros ?; apply quiet_ret].
  apply quiet_bind; [done|]. intros access_token.
  destruct (negb _); [apply quiet_ret|].
  apply quiet_bind; [done|]. intros init_response.
  destruct (negb _); [apply quiet_ret|].
  destruct (header_get _ _) as [upload_url|]; [|apply quiet_ret].
  destruct (String.eqb upload_url ""); quiet_tac.
Qed.

Lemma quiet_cleanup (paths : list string) : quiet (cleanup W paths).
Proof.
  induction paths as [|path rest IH]; cbn [cleanup];
    pose proof quiet_path_exists; quiet_tac.
Qed.

Lemma quiet_get_twitch_clips (self : automation) (streamer_name : string) :
  quiet (get_twitch_clips W self streamer_name).
Proof. unfold get_twitch_clips. quiet_tac. Qed.

End QuietProgram.

(** ** Watching a run of [process_clips] *)

Lemma observe_all_app (m : monitor) (evs1 evs2 : list event) :
  observe_all m (evs1 ++ evs2) =
  match observe_all m evs1 with
  | Some m' => observe_all m' evs2
  | None => None
  end.
Proof.
  revert m. induction evs1 as [|e evs1 IH]; intros m; [reflexivity|].
  cbn [app observe_all]. destruct (observe m e); [apply IH|reflexivity].
Qed.

Lemma observe_neutral (m : monitor) (e : event) :
  neutral e = true -> observe m e = Some m.
Proof. by destruct e. Qed.

Lemma observe_all_neutral (m : monitor) (evs : list event) :
  Forall (fun e => neutral e = true) evs -> observe_all m evs = Some m.
Proof.
  induction 1 as [|e evs He _ IH]; [reflexivity|].
  cbn [observe_all]. by rewrite observe_neutral.
Qed.

Section Observed.

Context {A B : Type}.

Lemma observed_ret (m0 : monitor) (a : A) (Q : result A -> monitor -> Prop) :
  Q (Ok a) m0 -> observed m0 (ret a) Q.
Proof.
  intros HQ st. exists [], m0. by rewrite app_nil_r.
Qed.

Lemma observed_raise (m0 : monitor) (msg : string)
    (Q : result A -> monitor -> Prop) :
  Q (Raise msg) m0 -> observed m0 (raise msg) Q.
Proof.
  intros HQ st. exists [], m0. split; [by rewrite app_nil_r|]. by split.
Qed.

Lemma observed_bind (m0 : monitor) (c : E A) (k : A -> E B)
    (Q : result A -> monitor -> Prop) (R : result B -> monitor -> Prop) :
  observed m0 c Q ->
  (forall a m1, Q (Ok a) m1 -> observed m1 (k a) R) ->
  (forall msg m1, Q (Raise msg) m1 -> R (Raise msg) m1) ->
  observed m0 (bind c k) R.
Proof.
  intros Hc Hk Hraise st. unfold bind.
  destruct (Hc st) as (evs1 & m1 & Htr1 & Hobs1 & HQ).
  destruct (c st) as [[a|msg] st1]; cbn [fst snd] in *.
  - destruct (Hk a m1 HQ st1) as (evs2 & m2 & Htr2 & Hobs2 & HR).
    exists (evs1 ++ evs2)%list, m2. split; [|split; [|exact HR]].
    + by rewrite Htr2, Htr1, app_assoc.
    + by rewrite observe_all_app, Hobs1.
  - exists evs1, m1. eauto.
Qed.

Lemma observed_quiet (m0 : monitor) (c : E A) :
  quiet c -> observed m0 c (fun _ m1 => m1 = m0).
Proof.
  intros Hc st. destruct (Hc st) as (evs & Htr & Hn).
  exists evs, m0. split; [exact Htr|]. split; [|reflexivity].
  by apply observe_all_neutral.
Qed.

(** A quiet step leaves the observer where it was. *)
Lemma observed_quiet_bind (m0 : monitor) (c : E A) (k : A -> E B)
    (R : result B -> monitor -> Prop) :
  quiet c ->
  (forall a, observed m0 (k a) R) ->
  (forall msg, R (Raise msg) m0) ->
  observed m0 (bind c k) R.
Proof.
  intros Hc Hk Hraise.
  eapply observed_bind; [by apply observed_quiet| |].
  - intros a m1 ->. apply Hk.
  - intros msg m1 ->. apply Hraise.
Qed.

(** A quiet step that always returns. *)
Lemma observed_returns_bind (m0 : monitor) (c : E A) (k : A -> E B)
    (R : result B -> monitor -> Prop) :
  quiet c ->
  (forall st, exists a st', c st = (Ok a, st')) ->
  (forall a, observed m0 (k a) R) ->
  observed m0 (bind c k) R.
Proof.
  intros Hc Hret Hk.
  eapply (observed_bind m0 c k (fun r m1 => m1 = m0 /\ exists a, r = Ok a)).
  - intros st. destruct (Hc st) as (evs & Htr & Hn).
    exists evs, m0. split; [exact Htr|]. split; [by apply observe_all_neutral|].
    split; [reflexivity|]. destruct (Hret st) as (a & st' & ->). by exists a.
  - intros a m1 [-> _]. apply Hk.
  - intros msg m1 [_ [a Ha]]. discriminate.
Qed.

Lemma observed_try_except (m0 : monitor) (c : E A) (h : string -> E A)
    (Q R : result A -> monitor -> Prop) :
  observed m0 c Q ->
  (forall a m1, Q (Ok a) m1 -> R (Ok a) m1) ->
  (forall msg m1, Q (Raise msg) m1 -> observed m1 (h msg) R) ->
  observed m0 (try_except c h) R.
Proof.
  intros Hc Hok Hh st. unfold try_except.
  destruct (Hc st) as (evs1 & m1 & Htr1 & Hobs1 & HQ).
  destruct (c st) as [[a|msg] st1]; cbn [fst snd] in *.
  - exists evs1, m1. eauto.
  - destruct (Hh msg m1 HQ st1) as (evs2 & m2 & Htr2 & Hobs2 & HR).
    exists (evs1 ++ evs2)%list, m2. split; [|split; [|exact HR]].
    + by rewrite Htr2, Htr1, app_assoc.
    + by rewrite observe_all_app, Hobs1.
Qed.

End Observed.

Lemma observed_tell_bind {B} (m0 m1 : monitor) (e : event) (k : E B)
    (R : result B -> monitor -> Prop) :
  observe m0 e = Some m1 ->
  observed m1 k R ->
  observed m0 (bind (tell e) (fun _ => k)) R.
Proof.
  intros He Hk st. unfold bind, tell.
  destruct (Hk {| fs := fs st; trace := (trace st ++ [e])%list |})
    as (evs & m2 & Htr & Hobs & HR). cbn [trace] in Htr.
  exists (e :: evs), m2. split; [|split; [|exact HR]].
  - by rewrite Htr, <- app_assoc.
  - cbn [observe_all]. by rewrite He.
Qed.

Section ObservedProgram.

Variable W : world.

(** A stage called while no download failure is pending: the call is
    accepted, an upload that returns [True] is counted, and the rest
    of the clip is accepted after any stage that returns [True]. *)
Lemma observed_call (m0 : monitor) (f : stage) (arg : string) (c : E bool) :
  download_failed m0 = false ->
  quiet c ->
  observed m0 (call f arg c)
    (fun r m1 =>
       considered m1 = considered m0 /\
       shorts m1 = match f, r with
                   | UploadShort, Ok true => S (shorts m0)
                   | _, _ => shorts m0
                   end /\
       (r = Ok true -> download_failed m1 = false)).
Proof.
  intros Hfailed Hc. unfold call.
  apply (observed_tell_bind m0 m0); [cbn; by rewrite Hfailed|].
  apply observed_quiet_bind;
    [exact Hc| |intros msg; destruct f; by repeat split].
  intros r.
  destruct r, f.
  all: eapply observed_tell_bind; [reflexivity|].
  all: apply observed_ret; cbn; by repeat split.
Qed.

Lemma cleanup_returns (paths : list string) (st : state) :
  exists a st', cleanup W paths st = (Ok a, st').
Proof.
  revert st. induction paths as [|path rest IH]; intros st; [by eexists _, _|].
  cbn [cleanup]. unfold path_exists. unfold_monad.
  destruct (bool_decide _); [destruct (remove_ok W _ path)|]; apply IH.
Qed.

Local Ltac settle :=
  try apply observed_ret;
  repeat match goal with m := _ : monitor |- _ => subst m end;
  cbn in *; split; congruence.

Lemma observed_process_clip (self : automation)
    (clip : Json.json) (m0 : monitor) :
  considered m0 < 6 ->
  shorts m0 < 3 ->
  observed m0 (process_clip W self clip)
    (fun r m1 =>
       considered m1 = S (considered m0) /\
       shorts m1 = match r with Ok true => S (shorts m0) | _ => shorts m0 end).
Proof.
  intros Hconsidered Hshorts. unfold process_clip. cbv zeta.
  eapply (observed_tell_bind m0
            {| considered := S (considered m0); shorts := shorts m0;
               download_failed := false |}).
  { cbn [observe].
    destruct (Nat.ltb_spec (considered m0) 6); [|lia].
    destruct (Nat.ltb_spec (shorts m0) 3); [reflexivity|lia]. }
  set (mA := {| considered := S (considered m0); shorts := shorts m0;
                download_failed := false |}).
  apply observed_quiet_bind; [apply quiet_getitem| |intros; settle].
  intros clip_id.
  apply observed_quiet_bind; [apply quiet_getitem| |intros; settle].
  intros clip_title.
  apply observed_quiet_bind; [apply quiet_getitem| |intros; settle].
  intros clip_url.
  eapply observed_bind;
    [apply observed_call; [reflexivity|apply quiet_download_clip_of]| |].
  2: { intros msg m1 (Hc & Hs & _). settle. }
  intros [|] m1 (Hc1 & Hs1 & Hf1); cbn [negb];
    [|settle].
  specialize (Hf1 eq_refl).
  apply observed_quiet_bind; [apply quiet_path_exists| |intros; settle].
  intros present.
  apply observed_quiet_bind;
    [destruct present; [apply quiet_getsize|apply quiet_ret]|
    |intros; settle].
  intros bytes.
  destruct (negb present || (bytes <? 1000)%nat);
    [settle|].
  apply observed_quiet_bind;
    [apply quiet_transcribe_audio| |intros; settle].
  intros transcription.
  eapply observed_bind;
    [apply observed_call; [exact Hf1|apply quiet_create_vertical_video]| |].
  2: { intros msg m2 (Hc & Hs & _). settle. }
  intros [|] m2 (Hc2 & Hs2 & Hf2); cbn [negb];
    [|settle].
  specialize (Hf2 eq_refl).
  eapply observed_bind;
    [apply observed_call; [exact Hf2|apply quiet_trim_video]| |].
  2: { intros msg m3 (Hc & Hs & _). settle. }
  intros [|] m3 (Hc3 & Hs3 & Hf3); cbn [negb];
    [|settle].
  specialize (Hf3 eq_refl).
  apply observed_quiet_bind;
    [apply quiet_generate_engaging_title|
    |intros; settle].
  intros title.
  eapply observed_bind;
    [apply observed_call; [exact Hf3|apply quiet_upload_to_youtube_shorts]| |].
  2: { intros msg m4 (Hc & Hs & _). settle. }
  intros [|] m4 (Hc4 & Hs4 & Hf4).
  - apply observed_returns_bind; [apply quiet_cleanup|apply cleanup_returns|].
    intros _.
    eapply observed_tell_bind; [reflexivity|]. settle.
  - apply observed_quiet_bind; [apply quiet_cleanup| |intros; settle].
    intros _.
    eapply observed_tell_bind; [reflexivity|]. settle.
Qed.

Lemma sliced_length (v : Json.json) (n : nat) (items : list Json.json) :
  Json.sliced v n = Some items -> length items <= n.
Proof.
  destruct v; cbn; intros [= <-]; rewrite length_take; lia.
Qed.

(** The loop takes up one clip at a time, while fewer than three
    uploads have succeeded; if it returns, it returns their number. *)
Lemma observed_process_loop (self : automation)
    (clips : list Json.json) (m0 : monitor) :
  considered m0 + length clips <= 6 ->
  shorts m0 <= 3 ->
  observed m0 (process_loop W self clips (shorts m0))
    (fun r m1 => shorts m1 <= 3 /\ forall n, r = Ok n -> n = shorts m1).
Proof.
  revert m0. induction clips as [|clip rest IH]; intros m0 Hroom Hcap.
  - apply observed_ret. split; [done|]. by intros n [= <-].
  - cbn [process_loop length] in *.
    destruct (Nat.leb_spec max_uploads (shorts m0)) as [Hfull|Hless];
      [apply observed_ret; split; [done|]; by intros n [= <-]|].
    unfold max_uploads in Hless.
    eapply (observed_bind m0 _ _
              (fun r m1 =>
                 considered m1 = S (considered m0) /\
                 shorts m1 = match r with
                             | Ok true => S (shorts m0)
                             | _ => shorts m0
                             end)).
    + eapply observed_try_except;
        [apply observed_process_clip; lia| |].
      * by intros uploaded m1 [Hc Hs].
      * intros msg m1 [Hc Hs]. unfold skip_clip.
        destruct (Json.is_dict clip);
          [apply observed_ret|apply observed_raise]; by split.
    + intros uploaded m1 (Hc & Hs).
      assert (shorts m1 = if uploaded then S (shorts m0) else shorts m0) as Hs'
        by by destruct uploaded.
      rewrite <- Hs'. apply IH; [lia|]. destruct uploaded; lia.
    + intros msg m1 (Hc & Hs). split; [lia|done].
Qed.

Lemma observed_process_clips (self : automation) :
  observed monitor0 (process_clips W self)
    (fun r m1 => shorts m1 <= 3 /\ forall n, r = Ok n -> n = shorts m1).
Proof.
  unfold process_clips.
  apply observed_returns_bind; [apply quiet_get_twitch_clips| |].
  { intros st. by eexists _, _. }
  intros clips.
  destruct (negb (Json.truthy clips));
    [apply observed_ret; split; [cbn; lia|]; by intros n [= <-]|].
  destruct (Json.sliced clips (max_uploads * 2)) as [items|] eqn:Hsliced;
    [|apply observed_raise; split; [cbn; lia|done]].
  apply (observed_process_loop self _ monitor0); [|cbn; lia].
  cbn [considered monitor0]. apply sliced_length in Hsliced.
  unfold max_uploads in Hsliced. lia.
Qed.

End ObservedProgram.

(** What an accepted sequence of events looks like. *)

Lemma accepted_counts (m m' : monitor) (evs : list event) :
  observe_all m evs = Some m' ->
  considered m <= 6 ->
  considered m' <= 6 /\
  considered m' = considered m + length (List.filter is_clip evs) /\
  shorts m' = shorts m + length (List.filter is_upload_success evs).
Proof.
  revert m. induction evs as [|e evs IH]; intros m Hobs Hsix.
  - injection Hobs as <-. cbn. lia.
  - cbn [observe_all] in Hobs.
    destruct (observe m e) as [m1|] eqn:Hstep; [|done].
    assert (considered m1 <= 6 /\
            considered m1 = considered m + (if is_clip e then 1 else 0) /\
            shorts m1 = shorts m + (if is_upload_success e then 1 else 0)) as (H6 & Hc & Hs).
    { destruct e; cbn in Hstep |- *; repeat case_match; simplify_eq; cbn;
        try lia.
      apply andb_true_iff in H as [H _]. apply Nat.leb_le in H. lia. }
    destruct (IH m1 Hobs H6) as (H6' & Hc' & Hs').
    cbn [List.filter]. destruct (is_clip e), (is_upload_success e); cbn [length]; lia.
Qed.

Lemma accepted_after_cap (m m' : monitor) (evs : list event) :
  observe_all m evs = Some m' ->
  3 <= shorts m ->
  Forall (fun e => is_clip e = false) evs.
Proof.
  revert m. induction evs as [|e evs IH]; intros m Hobs Hcap; [constructor|].
  cbn [observe_all] in Hobs.
  destruct (observe m e) as [m1|] eqn:Hstep; [|done].
  assert (is_clip e = false /\ 3 <= shorts m1) as [Hclip Hcap1].
  { destruct e; cbn in Hstep |- *; repeat case_match; simplify_eq; cbn;
      try (split; [done|lia]).
    apply andb_true_iff in H as [_ H]. apply Nat.leb_le in H. lia. }
  constructor; [exact Hclip|]. by apply (IH m1).
Qed.

Lemma accepted_after_failed_download (m m' : monitor) (evs : list event) :
  observe_all m evs = Some m' ->
  download_failed m = true ->
  download_failed m' = false ->
  exists clip, EvClip clip ∈ evs.
Proof.
  revert m. induction evs as [|e evs IH]; intros m Hobs Hfailed Hclear.
  - injection Hobs as <-. congruence.
  - cbn [observe_all] in Hobs.
    destruct (observe m e) as [m1|] eqn:Hstep; [|done].
    destruct (decide (is_clip e = true)) as [Hclip|Hclip].
    { destruct e; try done. eexists. left. }
    assert (download_failed m1 = true) as Hfailed1.
    { destruct e; cbn in Hstep, Hclip; repeat case_match; simplify_eq; cbn;
        done. }
    destruct (IH m1 Hobs Hfailed1 Hclear) as [clip Hin].
    exists clip. by right.
Qed.

(** C4: in every run of [process_clips], at most six clips are taken
    up; at most three uploads succeed, and a run that returns returns
    their number; once three uploads have succeeded no further clip is
    taken up; and after a download that returned [False] no stage is
    called, be it the reformatter, the trimmer or the uploader, before
    the next clip is taken up. *)
Theorem process_clips_bounded (W : world) (self : automation) (st : state) :
  let run := process_clips W self st in
  let evs := new_events st run.2 in
  length (List.filter is_clip evs) <= 6 /\
  length (List.filter is_upload_success evs) <= 3 /\
  (forall n, run.1 = Ok n -> n = length (List.filter is_upload_success evs)) /\
  (forall pre post,
     evs = (pre ++ post)%list ->
     length (List.filter is_upload_success pre) = 3 ->
     Forall (fun e => is_clip e = false) post) /\
  (forall pre mid post f arg,
     evs = (pre ++ EvReturn DownloadClip false :: mid ++ EvCall f arg :: post)%list ->
     exists clip, EvClip clip ∈ mid).
Proof.
  cbv zeta.
  destruct (observed_process_clips W self st) as (evs & m1 & Htr & Hobs & Hcap & Hr).
  rewrite (new_events_app _ _ _ Htr).
  destruct (accepted_counts _ _ _ Hobs) as (Hsix & Hclips & Hshorts);
    [cbn; lia|]. cbn [monitor0 considered shorts] in *.
  split; [lia|]. split; [lia|].
  split; [intros n Hn; rewrite (Hr n Hn); lia|].
  split.
  - intros pre post -> Hthree.
    rewrite observe_all_app in Hobs.
    destruct (observe_all monitor0 pre) as [mp|] eqn:Hpre; [|done].
    destruct (accepted_counts _ _ _ Hpre) as (_ & _ & Hs); [cbn; lia|].
    apply (accepted_after_cap mp m1); [exact Hobs|]. cbn in Hs. lia.
  - intros pre mid post f arg ->.
    rewrite observe_all_app in Hobs.
    destruct (observe_all monitor0 pre) as [mp|] eqn:Hpre; [|done].
    cbn [observe_all observe] in Hobs.
    rewrite observe_all_app in Hobs.
    destruct (observe_all _ mid) as [mq|] eqn:Hmid; [|done].
    cbn [observe_all observe] in Hobs.
    destruct (download_failed mq) eqn:Hq; [done|].
    by apply (accepted_after_failed_download _ _ _ Hmid).
Qed.

(** ** The exit status and the files left behind *)

(** C3, where the code departs from the claim: with no credential in
    the environment [main] returns 1, and the script still leaves with
    status 0, as it does on every run. *)
Theorem exit_status_drops_failure :
  (main silent_world ∅ empty_state).1 = 1 /\
  (script_exit_status silent_world ∅ empty_state).1 = 0 /\
  (forall W env st, (script_exit_status W env st).1 = 0).
Proof.
  split; [reflexivity|]. split; [reflexivity|].
  intros W env st. unfold script_exit_status. by destruct (main W env st).
Qed.

(** The sibling path: when the stages succeed and the upload then
    returns [False], the three artifacts are removed. *)
Example cleanup_runs_after_failed_upload :
  let run := process_clips failed_upload_world ninja empty_state in
  run.1 = Ok 0 /\
  List.filter is_remove (trace run.2) =
    [EvRemove "downloads/twitch_clip_c1.mp4";
     EvRemove "processed/vertical_twitch_clip_c1.mp4";
     EvRemove "uploads/final_twitch_clip_c1.mp4"] /\
  fs run.2 = ∅.
Proof. cbv zeta. split; [by vm_compute|]. split; by vm_compute. Qed.

(** C2, where the code departs from the claim: a clip is downloaded,
    the reformatter turns it down as shorter than a second, and the
    run ends with the download still on disk and no removal attempted. *)
Theorem raw_download_survives_failed_reformat :
  let run := process_clips short_clip_world ninja empty_state in
  run.1 = Ok 0 /\
  EvReturn CreateVertical false ∈ trace run.2 /\
  forallb (fun e => negb (is_remove e)) (trace run.2) = true /\
  is_Some (fs run.2 !! "downloads/twitch_clip_c1.mp4").
Proof.
  cbv zeta. split; [by vm_compute|]. split.
  - apply list_elem_of_In. vm_compute. tauto.
  - split; [by vm_compute|]. vm_compute. eauto.
Qed.

(** ** What the fetcher leaves on disk *)

Lemma request_keeps_fs (W : world) (m : http_method) (url : string) (st : state) :
  fs (request W m url st).2 = fs st.
Proof.
  unfold request. unfold_monad. cbn. by destruct (http W _ m url).
Qed.

Lemma probe_keeps_fs (W : world) (possible_urls : list string) (st : state) :
  fs (probe W possible_urls st).2 = fs st /\
  exists found, (probe W possible_urls st).1 = Ok found.
Proof.
  revert st. induction possible_urls as [|url rest IH]; intros st.
  - split; [reflexivity|exists None; reflexivity].
  - cbn [probe]. unfold try_except, bind.
    pose proof (request_keeps_fs W HEAD url st) as Hfs.
    destruct (request W HEAD url st) as [[r|msg] st1]; cbn [fst snd ret] in *.
    + destruct (status_code r =? 200)%nat.
      * split; [exact Hfs|by eexists].
      * destruct (IH st1) as [IHfs IHok]. split; [congruence|exact IHok].
    + destruct (IH st1) as [IHfs IHok]. split; [congruence|exact IHok].
Qed.

Lemma get_clip_download_url_keeps_fs (W : world) (clip_url : string) (st : state) :
  fs (get_clip_download_url W clip_url st).2 = fs st /\
  exists found, (get_clip_download_url W clip_url st).1 = Ok found.
Proof.
  unfold get_clip_download_url, PyStr.split. unfold try_except, bind, ret.
  match goal with |- context [probe W ?urls st] =>
    destruct (probe_keeps_fs W urls st) as [Hfs [found Hok]];
    destruct (probe W urls st) as [r1 st1] end.
  cbn [fst snd] in *. subst r1.
  destruct found as [url|]; cbn; [split; [exact Hfs|by eexists]|].
  split; [exact Hfs|by eexists].
Qed.

(** X1: [download_clip] never raises.  When it returns [True], the file
    [downloads/filename] exists and holds more than 1000 bytes.
    Whatever it returns, every other path of the file system is as
    before. *)
Theorem download_clip_verified (W : world) (clip_url filename : string) (st : state) :
  let run := download_clip W clip_url filename st in
  let filepath := "downloads/" ++ filename in
  (exists ok, run.1 = Ok ok /\
     (ok = true ->
      exists f, fs run.2 !! filepath = Some f /\ 1000 < size f)) /\
  (forall path, path <> filepath -> fs run.2 !! path = fs st !! path).
Proof.
  cbv zeta. unfold download_clip. unfold try_except, bind.
  destruct (get_clip_download_url_keeps_fs W clip_url st) as [Hfs [found Hok]].
  destruct (get_clip_download_url W clip_url st) as [r1 st1].
  cbn [fst snd] in *. subst r1.
  destruct found as [url|]; [|cbn; split; [by exists false|by rewrite Hfs]].
  destruct (String.eqb url ""); [cbn; split; [by exists false|by rewrite Hfs]|].
  pose proof (request_keeps_fs W GET url st1) as Hfs2.
  destruct (request W GET url st1) as [[r|msg] st2]; cbn [fst snd] in *;
    [|cbn; split; [by exists false|congruence]].
  destruct (status_code r =? 200)%nat;
    [|cbn; split; [by exists false|congruence]].
  unfold write_stream, path_exists, getsize. unfold_monad. cbn [fs trace].
  destruct (open_ok W _ _); cbn [negb fst snd fs];
    [|split; [by exists false|congruence]].
  destruct (stream_breaks r) as [n|]; cbn [fst snd fs].
  - split; [by exists false|]. intros path Hne.
    rewrite lookup_insert_ne by done. congruence.
  - rewrite lookup_insert_eq, bool_decide_eq_true_2 by eauto.
    cbn [fst snd fs]. rewrite lookup_insert_eq. cbn [fst snd fs].
    split.
    + eexists. split; [reflexivity|]. intros Hlt%Nat.ltb_lt.
      exists (content r). by rewrite lookup_insert_eq.
    + intros path Hne. rewrite lookup_insert_ne by done. congruence.
Qed.

(** ** The order of the probes *)

Lemma probe_order (W : world) (possible_urls : list string) (st : state) :
  let run := probe W possible_urls st in
  (exists pre url post r probes,
     possible_urls = (pre ++ url :: post)%list /\
     run.1 = Ok (Some url) /\
     status_code r = 200 /\
     trace run.2 = (trace st ++ probes ++ [EvHttp HEAD url (Some r)])%list /\
     Forall2 failed_probe probes pre) \/
  (exists probes,
     run.1 = Ok None /\
     trace run.2 = (trace st ++ probes)%list /\
     Forall2 failed_probe probes possible_urls).
Proof.
  cbv zeta. revert st. induction possible_urls as [|url rest IH]; intros st.
  - right. exists []. cbn. rewrite app_nil_r. by repeat split.
  - cbn [probe]. unfold request. unfold_monad. cbn [fs trace].
    set (answer := http W (length (trace st)) HEAD url).
    set (st1 := {| fs := fs st; trace := (trace st ++ [EvHttp HEAD url answer])%list |}).
    assert (forall r, answer = Some r -> (status_code r =? 200)%nat = false ->
                      failed_probe (EvHttp HEAD url answer) url) as Hfail_some.
    { intros r -> Hne. exists (Some r). split; [reflexivity|].
      intros r' [= <-]. by apply Nat.eqb_neq. }
    assert (answer = None -> failed_probe (EvHttp HEAD url answer) url) as Hfail_none.
    { intros ->. exists None. by split. }
    assert (failed_probe (EvHttp HEAD url answer) url ->
            (exists pre url0 post r probes,
               (url :: rest = pre ++ url0 :: post)%list /\
               (probe W rest st1).1 = Ok (Some url0) /\
               status_code r = 200 /\
               trace (probe W rest st1).2 =
                 (trace st ++ probes ++ [EvHttp HEAD url0 (Some r)])%list /\
               Forall2 failed_probe probes pre) \/
            (exists probes,
               (probe W rest st1).1 = Ok None /\
               trace (probe W rest st1).2 = (trace st ++ probes)%list /\
               Forall2 failed_probe probes (url :: rest))) as Hnext.
    { intros Hfailed.
      destruct (IH st1) as [(pre & url0 & post & r & probes & -> & Hok & H200 & Htr & Hpre)
                           |(probes & Hok & Htr & Hall)].
      - left. exists (url :: pre), url0, post, r, (EvHttp HEAD url answer :: probes).
        split; [reflexivity|]. split; [exact Hok|]. split; [exact H200|].
        split; [|by constructor].
        rewrite Htr. subst st1. cbn [trace]. by rewrite <- app_assoc.
      - right. exists (EvHttp HEAD url answer :: probes).
        split; [exact Hok|]. split; [|by constructor].
        rewrite Htr. subst st1. cbn [trace]. by rewrite <- app_assoc. }
    destruct answer as [r|] eqn:Hanswer; cbn [fst snd].
    + destruct (status_code r =? 200)%nat eqn:Hstatus.
      * left. exists [], url, rest, r, []. cbn [fst snd].
        split; [reflexivity|]. split; [reflexivity|].
        split; [by apply Nat.eqb_eq|]. split; [reflexivity|constructor].
      * apply Hnext. by apply (Hfail_some r).
    + apply Hnext. by apply Hfail_none.
Qed.

(** X2: [get_clip_download_url] probes the three candidate addresses
    with HEAD, in their fixed order, and returns the first that is
    answered with status 200 without probing the rest.  Only when all
    three probes failed is the extractor asked, and its answer is then
    the result.  Nothing else is recorded. *)
Theorem get_clip_download_url_order (W : world) (clip_url : string) (st : state) :
  let run := get_clip_download_url W clip_url st in
  let evs := new_events st run.2 in
  (exists pre url post r probes,
     candidate_urls clip_url = (pre ++ url :: post)%list /\
     run.1 = Ok (Some url) /\
     status_code r = 200 /\
     evs = (probes ++ [EvHttp HEAD url (Some r)])%list /\
     Forall2 failed_probe probes pre) \/
  (exists probes,
     run.1 = Ok (ydl_url W (length (trace st) + 3) clip_url) /\
     evs = (probes ++ [EvExtractInfo clip_url])%list /\
     Forall2 failed_probe probes (candidate_urls clip_url)).
Proof.
  cbv zeta. unfold get_clip_download_url, PyStr.split.
  unfold try_except, bind, ret. fold (candidate_urls clip_url).
  destruct (probe_order W (candidate_urls clip_url) st)
    as [(pre & url & post & r & probes & Hsplit & Hok & H200 & Htr & Hpre)
       |(probes & Hok & Htr & Hall)];
    cbv zeta in *;
    destruct (probe W (candidate_urls clip_url) st) as [r1 st1];
    cbn [fst snd] in *; subst r1.
  - left. exists pre, url, post, r, probes. cbn [fst snd].
    repeat split; try done. by apply new_events_app.
  - right. exists probes. unfold clock, tell. cbn [fst snd trace].
    pose proof (Forall2_length _ _ _ Hall) as Hlen. cbn in Hlen.
    split; [|split; [|exact Hall]].
    + do 2 f_equal. rewrite Htr, length_app. lia.
    + apply new_events_app. cbn [trace]. by rewrite Htr, <- app_assoc.
Qed.

(** ** A successful upload *)

(** X3: [upload_to_youtube_shorts] never raises and leaves the file
    system as it was.  When it returns [True], the run was exactly four
    steps: the token request, answered with status 200; the session
    request, answered with 200 or 201 and a non-empty [Location] header;
    reading the video file, which exists; and the PUT to that location,
    answered with 200 or 201 and a JSON body whose [id] is truthy. *)
Theorem upload_success_is_full_protocol (W : world)
    (video_path title description : string) (tags : list string) (st : state) :
  let run := upload_to_youtube_shorts W video_path title description tags st in
  (exists ok, run.1 = Ok ok /\
     (ok = true ->
      exists token session upload_url accepted response_data video_id,
        new_events st run.2 =
          [ EvHttp POST token_url (Some token);
            EvHttp POST init_url (Some session);
            EvReadFile video_path;
            EvHttp PUT upload_url (Some accepted) ] /\
        status_code token = 200 /\
        status_in_200_201 session = true /\
        header_get "Location" (headers session) = Some upload_url /\
        upload_url <> "" /\
        is_Some (fs st !! video_path) /\
        status_in_200_201 accepted = true /\
        json accepted = Some response_data /\
        Dict.get "id" response_data = Some video_id /\
        truthy video_id = true)) /\
  fs run.2 = fs st.
Proof.
  cbv zeta.
  unfold upload_to_youtube_shorts, get_fresh_access_token, request, getsize.
  unfold_monad. cbn [fs trace].
  repeat case_match; simplify_eq; cbn [fst snd fs].
  all: split; [eexists; split; [reflexivity|]; intros Htrue; try discriminate
              |reflexivity].
  repeat match goal with
         | H : negb _ = false |- _ => apply negb_false_iff in H
         end.
  match goal with
  | H : context [Dict.get "id" ?d] |- _ =>
      destruct (Dict.get "id" d) as [video_id|] eqn:Hid; [|done]
  end.
  cbn [from_option fs] in *.
  do 6 eexists. split; [by new_events_eq|].
  split; [by apply Nat.eqb_eq|]. split; [eassumption|].
  split; [eassumption|]. split; [by intros ->|].
  split; [by eexists|]. split; [eassumption|].
  split; [eassumption|]. split; [eassumption|]. exact Htrue.
Qed.

(** ** Tokens *)

(** X4: When the token request is not answered with status 200, or not
    answered at all, [get_fresh_access_token] returns [None] and
    [upload_to_youtube_shorts] returns [False]; in both the token
    request is the only event and the file system is untouched. *)
Theorem upload_stops_without_token (W : world)
    (video_path title description : string) (tags : list string) (st : state) :
  let answer := http W (length (trace st)) POST token_url in
  (forall r, answer = Some r -> status_code r <> 200) ->
  get_fresh_access_token W st =
    (Ok None, {| fs := fs st;
                 trace := (trace st ++ [EvHttp POST token_url answer])%list |}) /\
  upload_to_youtube_shorts W video_path title description tags st =
    (Ok false, {| fs := fs st;
                  trace := (trace st ++ [EvHttp POST token_url answer])%list |}).
Proof.
  cbv zeta. intros Hrefused.
  assert (get_fresh_access_token W st =
          (Ok None, {| fs := fs st;
                       trace := (trace st ++
                                 [EvHttp POST token_url
                                    (http W (length (trace st)) POST token_url)])%list |}))
    as Htoken.
  { unfold get_fresh_access_token, request. unfold_monad. cbn [fs trace].
    destruct (http W (length (trace st)) POST token_url) as [r|]; [|reflexivity].
    destruct (Nat.eqb_spec (status_code r) 200) as [H200|_]; [|reflexivity].
    by destruct (Hrefused r eq_refl). }
  split; [exact Htoken|].
  unfold upload_to_youtube_shorts. unfold try_except, bind. by rewrite Htoken.
Qed.

Lemma upload_stops_without_token_witness :
  upload_to_youtube_shorts silent_world "uploads/final.mp4" "t" "d" [] state_with_final =
  (Ok false,
   {| fs := fs state_with_final; trace := [EvHttp POST token_url None] |}).
Proof.
  destruct (upload_stops_without_token silent_world "uploads/final.mp4" "t" "d" []
              state_with_final) as [_ Hupload].
  - intros r. discriminate.
  - exact Hupload.
Defined.

(** ** The reformatter *)



(** ** Cleanup *)

Lemma cleanup_step (W : world) (paths : list string) (st : state) (path : string) :
  (fs (cleanup W paths st).2 !! path = fs st !! path \/
   (path ∈ paths /\ fs (cleanup W paths st).2 !! path = None)).
Proof.
  revert st. induction paths as [|p rest IH]; intros st; [by left|].
  cbn [cleanup]. unfold path_exists. unfold_monad. cbn [fs trace].
  destruct (bool_decide (is_Some (fs st !! p))) eqn:Hex; cbn [fst snd].
  - destruct (remove_ok W _ p); cbn [fst snd].
    + match goal with |- context [cleanup W rest ?s] =>
        destruct (IH s) as [Hsame|[Hin Hgone]] end.
      * rewrite Hsame. cbn [fs].
        destruct (decide (p = path)) as [->|Hne].
        -- right. split; [by left|]. apply lookup_delete_eq.
        -- left. by rewrite lookup_delete_ne.
      * right. split; [by right|done].
    + match goal with |- context [cleanup W rest ?s] =>
        destruct (IH s) as [Hsame|[Hin Hgone]] end.
      * left. by rewrite Hsame.
      * right. split; [by right|done].
  - match goal with |- context [cleanup W rest ?s] =>
      destruct (IH s) as [Hsame|[Hin Hgone]] end.
    + left. by rewrite Hsame.
    + right. split; [by right|done].
Qed.

(** X7: When every removal succeeds, the cleanup at the end of a clip
    returns normally; none of the listed paths exists afterwards and
    every other path is as before. *)
Theorem cleanup_removes_artifacts (W : world) (paths : list string) (st : state) :
  (forall t path, remove_ok W t path = true) ->
  let run := cleanup W paths st in
  run.1 = Ok tt /\
  (forall path, path ∈ paths -> fs run.2 !! path = None) /\
  (forall path, path ∉ paths -> fs run.2 !! path = fs st !! path).
Proof.
  intros Hok. cbv zeta. split; [|split].
  - destruct (cleanup_returns W paths st) as ([] & st' & ->). reflexivity.
  - revert st. induction paths as [|p rest IH]; intros st path Hin;
      [by apply elem_of_nil in Hin|].
    cbn [cleanup]. unfold path_exists. unfold_monad. cbn [fs trace].
    destruct (bool_decide (is_Some (fs st !! p))) eqn:Hex; cbn [fst snd].
    + rewrite Hok. cbn [fst snd].
      match goal with |- context [cleanup W rest ?s] =>
        destruct (cleanup_step W rest s path) as [Hsame|[_ Hgone]];
        [|exact Hgone]; pose proof (IH s path) as IH' end.
      apply elem_of_cons in Hin as [->|Hin]; [|by apply IH'].
      rewrite Hsame. cbn [fs]. apply lookup_delete_eq.
    + match goal with |- context [cleanup W rest ?s] =>
        destruct (cleanup_step W rest s path) as [Hsame|[_ Hgone]];
        [|exact Hgone]; pose proof (IH s path) as IH' end.
      apply elem_of_cons in Hin as [->|Hin]; [|by apply IH'].
      rewrite Hsame. cbn [fs].
      apply bool_decide_eq_false in Hex. by apply eq_None_not_Some.
  - intros path Hnot.
    destruct (cleanup_step W paths st path) as [Hsame|[Hin _]]; done.
Qed.

Lemma cleanup_removes_artifacts_witness :
  fs (cleanup silent_world ["uploads/final.mp4"; "other.mp4"] state_with_final).2
    !! "uploads/final.mp4" = None.
Proof.
  destruct (cleanup_removes_artifacts silent_world ["uploads/final.mp4"; "other.mp4"]
              state_with_final) as (_ & Hgone & _).
  - reflexivity.
  - apply Hgone. by left.
Defined.

(** ** Initialisation and the value of [main] *)

Lemma missing_creds_nil (env : gmap string string) :
  missing_creds env = [] <->
  forall k, k ∈ required_names -> exists v, env !! k = Some v /\ v <> "".
Proof.
  split.
  - intros Hnil k Hk.
    destruct (falsy (env !! k)) eqn:Hfalsy.
    + assert (k ∈ missing_creds env) as Hin by by apply elem_of_missing_creds.
      rewrite Hnil in Hin. by apply elem_of_nil in Hin.
    + destruct (env !! k) as [v|]; [|done]. exists v. split; [done|].
      intros ->. done.
  - intros Hall. destruct (missing_creds env) as [|k ks] eqn:Hlist; [done|].
    assert (k ∈ missing_creds env) as Hin by (rewrite Hlist; by left).
    apply elem_of_missing_creds in Hin as [Hreq Hfalsy].
    destruct (Hall k Hreq) as (v & Hv & Hne). rewrite Hv in Hfalsy.
    cbn in Hfalsy. by apply String.eqb_eq in Hfalsy.
Qed.

(** What a run of [__init__] that returns has been through. *)
Lemma init_outcome (W : world) (env : gmap string string) (st : state)
    (a : automation) (st' : state) :
  __init__ W env st = (Ok a, st') ->
  directories_made W st = true /\
  missing_creds env = [] /\
  st' = {| fs := fs st; trace := (trace st ++ init_events W)%list |} /\
  exists streamers,
    PyStr.split (default "" (env !! "YOUTUBE_STREAMERS")) "," = Some streamers /\
    a = instance_of W env streamers.
Proof.
  intros Hinit. destruct (directories_made W st) eqn:Hmade.
  - destruct (init_run W env st Hmade) as (streamers & Hsplit & Hrun).
    rewrite Hrun in Hinit. destruct (missing_creds env); [|done].
    injection Hinit as <- <-. split; [done|]. split; [done|]. split; [done|].
    by exists streamers.
  - destruct (init_without_directories W env st Hmade) as (msg & st1 & Hrun & _).
    congruence.
Qed.

(** X14: [__init__] returns normally exactly when it gets its three
    directories and the seven required environment variables are set
    and not empty.  The object then holds their values unchanged and
    holds a Whisper model exactly when the library is there and the
    model loads; and what the run did is to load the model, if the
    library is there, and to make the three directories. *)
Theorem init_copies_environment (W : world) (env : gmap string string) (st : state) :
  ((exists a st', __init__ W env st = (Ok a, st')) <->
   directories_made W st = true /\
   forall k, k ∈ required_names -> exists v, env !! k = Some v /\ v <> "") /\
  (forall a st', __init__ W env st = (Ok a, st') ->
     env !! "TWITCH_CLIENT_ID" = Some (twitch_client_id a) /\
     env !! "TWITCH_CLIENT_SECRET" = Some (twitch_client_secret a) /\
     env !! "TWITCH_STREAMER_NAME" = Some (twitch_streamer a) /\
     env !! "YOUTUBE_API_KEY" = Some (youtube_api_key a) /\
     env !! "YOUTUBE_CLIENT_ID" = Some (youtube_client_id a) /\
     env !! "YOUTUBE_CLIENT_SECRET" = Some (youtube_client_secret a) /\
     env !! "YOUTUBE_REFRESH_TOKEN" = Some (youtube_refresh_token a) /\
     whisper_model a = whisper_available W && whisper_loads W /\
     new_events st st' = init_events W).
Proof.
  split.
  - rewrite <- missing_creds_nil. split.
    + intros (a & st' & Hinit).
      by destruct (init_outcome _ _ _ _ _ Hinit) as (Hmade & Hnil & _).
    + intros [Hmade Hnil].
      destruct (init_run W env st Hmade) as (streamers & _ & Hrun).
      rewrite Hnil in Hrun. by eexists _, _.
  - intros a st' Hinit.
    destruct (init_outcome _ _ _ _ _ Hinit) as (Hmade & Hnil & -> & streamers & _ & ->).
    pose proof (proj1 (missing_creds_nil env) Hnil) as Hall.
    assert (forall k, k ∈ required_names -> env !! k = Some (default "" (env !! k)))
      as Hget.
    { intros k Hk. destruct (Hall k Hk) as (v & -> & _). reflexivity. }
    cbn [instance_of twitch_client_id twitch_client_secret twitch_streamer
         youtube_api_key youtube_client_id youtube_client_secret
         youtube_refresh_token whisper_model].
    repeat (split; [apply Hget, (bool_decide_unpack _); by vm_compute|]).
    split; [done|]. by apply new_events_app.
Qed.

(** The loop gets through clips that are dictionaries. *)
Lemma process_loop_returns (W : world) (self : automation) (clips : list Json.json) :
  Forall (fun clip => Json.is_dict clip = true) clips ->
  forall processed_count st,
    exists n st', process_loop W self clips processed_count st = (Ok n, st').
Proof.
  induction 1 as [|clip rest Hdict _ IH]; intros processed_count st; cbn [process_loop].
  - by eexists _, _.
  - destruct (max_uploads <=? processed_count)%nat; [by eexists _, _|].
    unfold bind, try_except, skip_clip. rewrite Hdict.
    destruct (process_clip W self clip st) as [[uploaded|msg] st1]; apply IH.
Qed.

(** It stops, with an exception, at a clip that is no dictionary. *)
Lemma process_loop_raises (W : world) (self : automation) (clip : Json.json)
    (rest : list Json.json) (st : state) :
  Json.is_dict clip = false ->
  exists msg st', process_loop W self (clip :: rest) 0 st = (Raise msg, st').
Proof.
  intros Hdict. cbn [process_loop]. unfold max_uploads. cbn [Nat.leb].
  unfold bind at 1. unfold try_except, skip_clip. rewrite Hdict.
  unfold process_clip. unfold bind at 1 2. unfold tell at 1. unfold getitem at 1.
  destruct clip; try done; cbn; by eexists _, _.
Qed.

(** X9: [main] returns 0 or 1.  It returns 1 when a required credential
    is missing or empty, and when [__init__] does not get its
    directories.  Otherwise the clips decide: with none, and with a
    list whose first six items are all dictionaries, [main] returns 0,
    whatever becomes of the clips; with a dictionary that is not empty
    where the list should be, and with a list whose first item is no
    dictionary, it returns 1. *)
Theorem main_return_value (W : world) (env : gmap string string) (st : state) :
  let run := main W env st in
  let clips := listed_clips W env (length (trace st) + length (init_events W)) in
  (run.1 = 0 \/ run.1 = 1) /\
  (missing_creds env <> [] -> run.1 = 1) /\
  (directories_made W st = false -> run.1 = 1) /\
  (missing_creds env = [] -> directories_made W st = true ->
   (Json.truthy clips = false -> run.1 = 0) /\
   (forall items,
      clips = Json.JsList items ->
      Forall (fun clip => Json.is_dict clip = true) (take 6 items) ->
      run.1 = 0) /\
   (Json.truthy clips = true -> Json.is_dict clips = true -> run.1 = 1) /\
   (forall item items,
      clips = Json.JsList (item :: items) -> Json.is_dict item = false ->
      run.1 = 1)).
Proof.
  cbv zeta. split; [|split; [|split]].
  - unfold main. by destruct (bind _ _ st) as [[n|msg] st']; [left|right].
  - intros Hmissing. unfold main, bind.
    destruct (__init__ W env st) as [[a|msg] st'] eqn:Hinit; [|done].
    by destruct (init_outcome _ _ _ _ _ Hinit) as (_ & Hnil & _).
  - intros Hmade. unfold main, bind.
    destruct (__init__ W env st) as [[a|msg] st'] eqn:Hinit; [|done].
    destruct (init_outcome _ _ _ _ _ Hinit) as (Hmade' & _). congruence.
  - intros Hnil Hmade.
    destruct (init_run W env st Hmade) as (streamers & _ & Hrun).
    rewrite Hnil in Hrun.
    set (clips := listed_clips W env _).
    set (self := instance_of W env streamers) in *.
    set (st1 := {| fs := fs st;
                   trace := ((trace st ++ init_events W) ++
                             [EvTwitchClips (twitch_streamer self)])%list |}).
    assert ((main W env st).1 =
            match (if negb (Json.truthy clips) then ret 0
                   else match Json.sliced clips 6 with
                        | Some items => process_loop W self items 0
                        | None => raise "TypeError"
                        end) st1 with
            | (Ok _, _) => 0
            | (Raise _, _) => 1
            end) as ->.
    { unfold main. unfold bind at 1. rewrite Hrun.
      unfold process_clips. unfold bind at 1. unfold get_twitch_clips.
      unfold bind at 1 2, clock, tell, ret. cbn [fs trace].
      rewrite length_app.
      change (Listing.get_twitch_clips _ self _ 20).1 with clips.
      change (max_uploads * 2) with 6. fold st1.
      match goal with
      | |- (let (r, st') := ?x in _).1 = _ => by destruct x as [[n|msg] st2]
      end. }
    clearbody clips.
    split; [|split; [|split]].
    + intros Hfalsy. by rewrite Hfalsy.
    + intros items Hitems Hdicts. rewrite Hitems.
      destruct (negb _); [done|]. cbn [Json.sliced].
      by destruct (process_loop_returns W self (take 6 items) Hdicts 0 st1)
        as (n & st2 & ->).
    + intros Htruthy Hdict. rewrite Htruthy. cbn [negb].
      by destruct clips.
    + intros item items Hitems Hdict. rewrite Hitems. cbn [Json.truthy Json.sliced].
      cbn [length Nat.eqb negb take].
      by destruct (process_loop_raises W self item (take 5 items) st1 Hdict)
        as (msg & st2 & ->).
Qed.

(** Two runs with every credential: no clip is listed, and [main]
    returns 0; a dictionary comes where the list of clips should be,
    and [main] returns 1. *)
Example main_with_malformed_clips :
  (main silent_world full_env empty_state).1 = 0 /\
  (main malformed_world full_env empty_state).1 = 1.
Proof. split; reflexivity. Qed.

(** ** More on the analysis *)

Lemma lower_upper_char (c : ascii) :
  PyStr.lower_char (PyStr.upper_char c) = PyStr.lower_char c.
Proof. destruct c as [[] [] [] [] [] [] [] []]; reflexivity. Qed.

Lemma lower_lower_char (c : ascii) :
  PyStr.lower_char (PyStr.lower_char c) = PyStr.lower_char c.
Proof. destruct c as [[] [] [] [] [] [] [] []]; reflexivity. Qed.

Lemma lower_upper (t : string) : PyStr.lower (PyStr.upper t) = PyStr.lower t.
Proof.
  induction t as [|c t IH]; [reflexivity|].
  cbn [PyStr.lower PyStr.upper]. by rewrite lower_upper_char, IH.
Qed.

Lemma lower_lower (t : string) : PyStr.lower (PyStr.lower t) = PyStr.lower t.
Proof.
  induction t as [|c t IH]; [reflexivity|].
  cbn [PyStr.lower]. by rewrite lower_lower_char, IH.
Qed.

Lemma analyze_content_lower (t1 t2 : string) :
  PyStr.lower t1 = PyStr.lower t2 -> analyze_content t1 = analyze_content t2.
Proof. intros H. unfold analyze_content. cbv zeta. by rewrite H. Qed.

(** X10: for a text within ASCII, [analyze_content] gives the same
    result for the text, for its upper-case form and for its
    lower-case form. *)
Theorem analyze_content_ignores_case (t : string) :
  is_ascii t = true ->
  analyze_content (PyStr.upper t) = analyze_content t /\
  analyze_content (PyStr.lower t) = analyze_content t.
Proof.
  intros _.
  split; apply analyze_content_lower; [apply lower_upper|apply lower_lower].
Qed.

Lemma analyze_content_ignores_case_witness :
  analyze_content (PyStr.upper "What a Clutch") = analyze_content "What a Clutch" /\
  analyze_content (PyStr.lower "What a Clutch") = analyze_content "What a Clutch".
Proof.
  apply (analyze_content_ignores_case "What a Clutch"). reflexivity.
Defined.

(** X16: The dominant category is neutral exactly when the total score
    is zero; it is always one of the five category names; and no
    category score exceeds the total. *)
Theorem neutral_iff_no_keyword (t : string) :
  let a := analyze_content t in
  (total_score a = 0 <-> dominant_emotion a = "neutral") /\
  dominant_emotion a ∈ ["excitement"; "action"; "reaction"; "skill"; "neutral"] /\
  Forall (fun item => item.2 <= total_score a) (categories a).
Proof.
  cbv zeta. rewrite analyze_content_unfold. cbv zeta.
  cbn [categories dominant_emotion total_score category_names highlight_keywords
       map fst tail sum_list].
  generalize (non_overlapping_score "excitement" t)
             (non_overlapping_score "action" t)
             (non_overlapping_score "reaction" t)
             (non_overlapping_score "skill" t).
  intros n1 n2 n3 n4. unfold id.
  destruct (py_max_first snd ("excitement", n1)
              [("action", n2); ("reaction", n3); ("skill", n4)])
    as (i & Hi & Hmax).
  destruct (py_max snd ("excitement", n1) _) as [c n] eqn:Hbest.
  cbn [fst snd] in *.
  pose proof (Hmax 0 _ eq_refl) as [H1 _].
  pose proof (Hmax 1 _ eq_refl) as [H2 _].
  pose proof (Hmax 2 _ eq_refl) as [H3 _].
  pose proof (Hmax 3 _ eq_refl) as [H4 _]. cbn [snd] in *.
  assert (c ∈ ["excitement"; "action"; "reaction"; "skill"] /\ n <= n1 + n2 + n3 + n4)
    as [Hc Hn].
  { destruct i as [|[|[|[|i]]]]; cbn in Hi; try done;
      injection Hi as <- <-; (split; [|lia]);
      apply (bool_decide_unpack _); by vm_compute. }
  split; [|split].
  - destruct (Nat.ltb_spec 0 n) as [Hpos|Hzero].
    + split; [lia|]. intros ->.
      by apply (bool_decide_pack _) in Hc.
    + split; [done|]. intros _. lia.
  - destruct (0 <? n)%nat; [|do 4 right; left].
    repeat (apply elem_of_cons in Hc as [->|Hc];
            [apply (bool_decide_unpack _); by vm_compute|]).
    by apply elem_of_nil in Hc.
  - repeat constructor; cbn [snd]; lia.
Qed.

(** ** Keywords inside keywords *)

Lemma occurrences_empty (sub : string) :
  sub <> "" -> PyStr.occurrences sub "" = 0.
Proof. by destruct sub. Qed.

Lemma occurrences_prefix (sub sup s : string) :
  String.prefix sub sup = true ->
  PyStr.occurrences sup s <= PyStr.occurrences sub s.
Proof.
  intros Hsub.
  assert (forall s', String.prefix sup s' = true -> String.prefix sub s' = true)
    as Hmono.
  { intros s' [r ->]%prefix_app. apply prefix_app in Hsub as [r' ->].
    apply prefix_app. exists (r' ++ r). apply append_assoc. }
  induction s as [|c s IH]; cbn [PyStr.occurrences].
  - destruct (String.prefix sup "") eqn:Hsup; [|lia]. by rewrite (Hmono _ Hsup).
  - destruct (String.prefix sup (String c s)) eqn:Hsup; [|lia].
    rewrite (Hmono _ Hsup). lia.
Qed.

Lemma occurrences_cons (sub : string) (c : ascii) (s : string) :
  PyStr.occurrences sub (String c s) =
  (if String.prefix sub (String c s) then 1 else 0) + PyStr.occurrences sub s.
Proof. reflexivity. Qed.

Lemma occurrences_tail (sub : string) (c : ascii) (s : string) :
  PyStr.occurrences sub s <= PyStr.occurrences sub (String c s).
Proof. rewrite occurrences_cons. lia. Qed.

(** A keyword that starts at the second character of a longer one
    occurs wherever the longer one does. *)
Lemma occurrences_inside (sub sup : string) (s : string) :
  sup <> "" ->
  String.prefix sub (drop_chars 1 sup) = true ->
  PyStr.occurrences sup s <= PyStr.occurrences sub s.
Proof.
  intros Hne Hin.
  assert (forall c s', String.prefix sup (String c s') = true ->
                       String.prefix sub s' = true) as Hshift.
  { intros c s' [r Hr]%prefix_app.
    destruct sup as [|c0 sup]; [done|]. cbn [drop_chars] in Hin.
    rewrite append_cons in Hr. injection Hr as _ ->.
    apply prefix_app in Hin as [r' ->]. apply prefix_app.
    exists (r' ++ r). apply append_assoc. }
  assert (forall s0, PyStr.occurrences sup s0 <= PyStr.occurrences sub (drop_chars 1 s0))
    as Hdrop.
  { induction s0 as [|c s0 IH]; [rewrite occurrences_empty by done; lia|].
    cbn [drop_chars]. rewrite (occurrences_cons sup).
    destruct s0 as [|c1 s1].
    - rewrite (occurrences_empty sup) by done.
      destruct (String.prefix sup (String c "")) eqn:Hsup; [|lia].
      cbn [PyStr.occurrences]. rewrite (Hshift _ _ Hsup). lia.
    - cbn [drop_chars] in IH. rewrite (occurrences_cons sub).
      destruct (String.prefix sup (String c (String c1 s1))) eqn:Hsup; [|lia].
      rewrite (Hshift _ _ Hsup). lia. }
  destruct s as [|c s]; [rewrite occurrences_empty by done; lia|].
  etrans; [apply Hdrop|]. apply occurrences_tail.
Qed.

Lemma keyword_sum_member (tl keyword : string) (keywords : list string) :
  keyword ∈ keywords -> PyStr.count tl keyword <= keyword_sum tl keywords.
Proof.
  unfold keyword_sum. induction keywords as [|k ks IH]; intros Hin;
    [by apply elem_of_nil in Hin|].
  cbn [map sum_list]. unfold id.
  apply elem_of_cons in Hin as [->|Hin]; [lia|].
  specialize (IH Hin). unfold id in *. lia.
Qed.

(** X11: A keyword that contains a keyword of another category scores in
    both: every occurrence of [skilled] counts for skill and, as [kill],
    for action; every occurrence of [god-tier] counts for skill and, as
    [god], for reaction. *)
Theorem contained_keywords_score_twice (t : string) :
  let tl := PyStr.lower t in
  exists action reaction skill,
    category_score "action" t = Some action /\
    category_score "reaction" t = Some reaction /\
    category_score "skill" t = Some skill /\
    PyStr.count tl "skilled" <= action /\
    PyStr.count tl "god-tier" <= reaction /\
    PyStr.count tl "skilled" + PyStr.count tl "god-tier" <= skill.
Proof.
  cbv zeta.
  exists (non_overlapping_score "action" t), (non_overlapping_score "reaction" t),
         (non_overlapping_score "skill" t).
  split; [apply category_score_eq, (bool_decide_unpack _); by vm_compute|].
  split; [apply category_score_eq, (bool_decide_unpack _); by vm_compute|].
  split; [apply category_score_eq, (bool_decide_unpack _); by vm_compute|].
  split; [|split].
  - etrans; [|apply (keyword_sum_member _ "kill"), (bool_decide_unpack _); by vm_compute].
    rewrite !count_occurrences by done.
    by apply occurrences_inside.
  - etrans; [|apply (keyword_sum_member _ "god"), (bool_decide_unpack _); by vm_compute].
    rewrite !count_occurrences by done.
    by apply occurrences_prefix.
  - unfold non_overlapping_score.
    change (keyword_sum (PyStr.lower t) (keywords_of "skill")) with
      (PyStr.count (PyStr.lower t) "pro" +
       (PyStr.count (PyStr.lower t) "skilled" +
        (PyStr.count (PyStr.lower t) "talent" +
         (PyStr.count (PyStr.lower t) "god-tier" +
          (PyStr.count (PyStr.lower t) "masterclass" + 0))))).
    lia.
Qed.

(** ** Titles *)

Ltac list_mem := solve [repeat first [by left | right]].

Lemma contains_upper_or_self (streamer_name a b : string) :
  PyStr.contains streamer_name (a ++ streamer_name ++ b) = true.
Proof. apply contains_app_r, contains_app_l, contains_refl. Qed.

(** X13: [generate_engaging_title] never raises; it draws one random
    number and changes nothing else.  The three titles it chooses from
    are the list the template mapping has for the dominant category,
    and the neutral list when it has none; the title it returns is one
    of the three, and for a streamer name within ASCII it holds the
    name, as given or in upper case. *)
Theorem title_is_a_template (W : world) (clip_title : string)
    (ca : content_analysis) (streamer_name : string) (st : state) :
  is_ascii streamer_name = true ->
  let selected := selected_titles ca streamer_name in
  exists title,
    generate_engaging_title W clip_title ca streamer_name st =
      (Ok title, {| fs := fs st; trace := (trace st ++ [EvRandom 3])%list |}) /\
    (forall titles,
       (dominant_emotion ca, titles) ∈ templates streamer_name -> selected = titles) /\
    (dominant_emotion ca ∉ map fst (templates streamer_name) ->
     selected = neutral_titles streamer_name) /\
    selected ∈ map snd (templates streamer_name) /\
    length selected = 3 /\
    title ∈ selected /\
    (PyStr.contains streamer_name title = true \/
     PyStr.contains (PyStr.upper streamer_name) title = true).
Proof.
  intros _. cbv zeta.
  assert (forall titles,
            (dominant_emotion ca, titles) ∈ templates streamer_name ->
            selected_titles ca streamer_name = titles) as Hkey.
  { intros titles Hin. unfold selected_titles. cbn [templates] in *.
    repeat (apply elem_of_cons in Hin as [Heq|Hin];
            [injection Heq as -> ->; reflexivity|]).
    by apply elem_of_nil in Hin. }
  assert (dominant_emotion ca ∉ map fst (templates streamer_name) ->
          selected_titles ca streamer_name = neutral_titles streamer_name) as Hnone.
  { intros Hnot. unfold selected_titles. cbn [templates Dict.get map fst] in *.
    repeat match goal with
           | |- context [String.eqb (dominant_emotion ca) ?k] =>
               destruct (String.eqb_spec (dominant_emotion ca) k) as [Heq|_];
               [exfalso; apply Hnot; rewrite Heq; list_mem|]
           end.
    reflexivity. }
  assert (selected_titles ca streamer_name ∈ map snd (templates streamer_name))
    as Hin.
  { unfold selected_titles. cbn [templates Dict.get].
    repeat (destruct (String.eqb (dominant_emotion ca) _);
            [cbn [map snd]; list_mem|]).
    cbn [default from_option map snd]. list_mem. }
  unfold generate_engaging_title. unfold_monad. cbn [fs trace].
  revert Hkey Hnone Hin. generalize (selected_titles ca streamer_name).
  intros selected Hkey Hnone Hin.
  cbn [templates map snd] in Hin.
  assert (forall draw a b c, selected = [a; b; c] ->
            choice selected draw ∈ selected /\
            (choice selected draw = a \/ choice selected draw = b \/
             choice selected draw = c)) as Hchoice.
  { intros draw a b c ->. unfold choice. cbn [length].
    pose proof (Nat.mod_upper_bound draw 3 ltac:(lia)) as Hlt.
    destruct (draw mod 3) as [|[|[|n]]]; [| | |lia]; cbn [nth];
      (split; [list_mem|tauto]). }
  repeat (apply elem_of_cons in Hin as [->|Hin]);
    [| | | |by apply elem_of_nil in Hin].
  all: eexists; split; [reflexivity|]; split; [exact Hkey|];
    split; [exact Hnone|]; split; [list_mem|]; split; [reflexivity|].
  all: match goal with |- choice ?l ?d ∈ _ /\ _ =>
         destruct (Hchoice d _ _ _ eq_refl) as [Hmem Hcase] end.
  all: split; [exact Hmem|].
  all: destruct Hcase as [-> | [-> | ->]].
  all: first [ left; apply (contains_upper_or_self streamer_name "")
             | left; apply contains_upper_or_self
             | right; apply contains_upper_or_self ].
Qed.

Lemma title_is_a_template_witness :
  exists title,
    generate_engaging_title silent_world "clip" (analyze_content "wow") "ninja"
      empty_state = (Ok title, {| fs := ∅; trace := [EvRandom 3] |}) /\
    title ∈ selected_titles (analyze_content "wow") "ninja".
Proof.
  destruct (title_is_a_template silent_world "clip" (analyze_content "wow") "ninja"
              empty_state eq_refl) as (title & Hrun & _ & _ & _ & _ & Hin & _).
  by exists title.
Defined.

(** ** Clips without a transcript *)

(** X12: When no Whisper model is loaded, or the transcription fails,
    [transcribe_audio] returns the empty string and leaves the file
    system alone; the analysis of the empty string is neutral, and the
    title generated from it is one of the three neutral templates. *)
Theorem untranscribed_clip_gets_neutral_title (W : world) (self : automation)
    (video_path clip_title : string) (st : state) :
  whisper_model self = false \/
  whisper_text W (length (trace st)) video_path = None ->
  exists st1 title,
    transcribe_audio W self video_path st = (Ok "", st1) /\
    fs st1 = fs st /\
    dominant_emotion (analyze_content "") = "neutral" /\
    (generate_engaging_title W clip_title (analyze_content "")
       (twitch_streamer self) st1).1 = Ok title /\
    title ∈ neutral_titles (twitch_streamer self).
Proof.
  intros Hno.
  assert (exists st1, transcribe_audio W self video_path st = (Ok "", st1) /\
                      fs st1 = fs st) as (st1 & Hrun & Hfs).
  { unfold transcribe_audio.
    destruct (whisper_model self); cbn [negb]; [|by eexists].
    destruct Hno as [|Hnone]; [done|].
    unfold_monad. cbn [fs trace]. rewrite Hnone. by eexists. }
  exists st1. eexists. split; [exact Hrun|]. split; [exact Hfs|].
  split; [reflexivity|].
  unfold generate_engaging_title. unfold_monad. cbn [fst].
  split; [reflexivity|].
  change (selected_titles (analyze_content "") (twitch_streamer self))
    with (neutral_titles (twitch_streamer self)).
  unfold choice, neutral_titles. cbn [length].
  pose proof (Nat.mod_upper_bound (randbelow W (length (trace st1)) 3) 3 ltac:(lia)).
  destruct (_ mod 3) as [|[|[|n]]]; [| | |lia]; cbn [nth];
    solve [repeat first [by left | right]].
Qed.

Lemma untranscribed_clip_gets_neutral_title_witness :
  exists st1 title,
    transcribe_audio silent_world ninja "downloads/a.mp4" empty_state = (Ok "", st1) /\
    fs st1 = fs empty_state /\
    dominant_emotion (analyze_content "") = "neutral" /\
    (generate_engaging_title silent_world "t" (analyze_content "")
       (twitch_streamer ninja) st1).1 = Ok title /\
    title ∈ neutral_titles (twitch_streamer ninja).
Proof.
  apply (untranscribed_clip_gets_neutral_title silent_world ninja
           "downloads/a.mp4" "t" empty_state).
  left. reflexivity.
Defined.

(** ** Splitting and joining *)

Lemma rev_app_append (a b c : string) :
  String.rev_app a b ++ c = String.rev_app a (b ++ c).
Proof.
  revert b. induction a as [|x a IH]; intros b; [reflexivity|].
  cbn [String.rev_app]. rewrite IH. by rewrite append_cons.
Qed.

Lemma split_from_not_nil (sep : string) (k : nat) (cur s : string) :
  PyStr.split_from sep k cur s <> [].
Proof.
  revert k cur. induction s as [|c s IH]; intros k cur; [done|].
  cbn [PyStr.split_from]. destruct k; [|apply IH].
  destruct (String.prefix sep (String c s)); [done|apply IH].
Qed.

Lemma join_cons (sep x : string) (l : list string) :
  l <> [] -> PyStr.join sep (x :: l) = x ++ sep ++ PyStr.join sep l.
Proof. by destruct l. Qed.

Lemma drop_chars_all (a r : string) :
  drop_chars (String.length a) (a ++ r) = r.
Proof. induction a as [|x a IH]; [reflexivity|]. by rewrite append_cons. Qed.

(** Joining the pieces of a split with the separator gives the text
    back. *)
Lemma join_split_from (sep : string) (s : string) :
  sep <> "" ->
  (forall cur, PyStr.join sep (PyStr.split_from sep 0 cur s) = String.rev_app cur s) /\
  (forall k, PyStr.join sep (PyStr.split_from sep k "" s) = drop_chars k s).
Proof.
  intros Hsep. induction s as [|c s [IHcur IHskip]].
  - split; [intros cur; reflexivity|]. intros [|k]; reflexivity.
  - assert (forall cur,
              PyStr.join sep (PyStr.split_from sep 0 cur (String c s)) =
              String.rev_app cur (String c s)) as Hcur.
    { intros cur. cbn [PyStr.split_from].
      destruct (String.prefix sep (String c s)) eqn:Hpre.
      - rewrite join_cons by apply split_from_not_nil. rewrite IHskip.
        apply prefix_app in Hpre as [r Hr].
        destruct sep as [|c0 sep]; [done|].
        rewrite append_cons in Hr. injection Hr as <- ->.
        replace (String.length (String c sep) - 1) with (String.length sep)
          by (cbn [String.length]; lia).
        rewrite drop_chars_all.
        unfold String.rev. rewrite rev_app_append.
        change ("" ++ String c sep ++ r) with (String c (sep ++ r)).
        reflexivity.
      - rewrite IHcur. reflexivity. }
    split; [exact Hcur|]. intros [|k]; [apply (Hcur "")|].
    cbn [PyStr.split_from drop_chars]. apply IHskip.
Qed.

Lemma contains_char_eq (x : ascii) (s : string) :
  PyStr.contains (String x "") (String x s) = true.
Proof. cbn. destruct (ascii_dec x x); [by destruct s|done]. Qed.

Lemma contains_char_ne (x c : ascii) (s : string) :
  x <> c ->
  PyStr.contains (String x "") (String c s) = PyStr.contains (String x "") s.
Proof. intros Hne. cbn [PyStr.contains String.prefix]. by destruct (ascii_dec x c). Qed.

Lemma contains_char_rev_app (x : ascii) (a b : string) :
  PyStr.contains (String x "") (String.rev_app a b) =
  PyStr.contains (String x "") a || PyStr.contains (String x "") b.
Proof.
  revert b. induction a as [|c a IH]; intros b; [by destruct b|].
  cbn [String.rev_app]. rewrite IH.
  destruct (ascii_dec x c) as [<-|Hne].
  - rewrite !contains_char_eq. by rewrite orb_true_r.
  - by rewrite !contains_char_ne.
Qed.

(** No piece of a split at a character holds the character. *)
Lemma split_from_char_free (x : ascii) (s cur : string) :
  PyStr.contains (String x "") cur = false ->
  Forall (fun piece => PyStr.contains (String x "") piece = false)
         (PyStr.split_from (String x "") 0 cur s).
Proof.
  revert cur. induction s as [|c s IH]; intros cur Hcur.
  - cbn [PyStr.split_from]. constructor; [|constructor].
    unfold String.rev. rewrite contains_char_rev_app, Hcur. by cbn.
  - cbn [PyStr.split_from String.prefix String.length Nat.sub].
    destruct (ascii_dec x c) as [<-|Hne].
    + replace (String.prefix "" s) with true by by destruct s.
      constructor.
      * unfold String.rev. rewrite contains_char_rev_app, Hcur. by cbn.
      * by apply IH.
    + apply IH. by rewrite contains_char_ne.
Qed.

(** X15: with every credential present and its directories made,
    [__init__] succeeds; its streamer list is never empty, no name in
    it holds a comma, and joining the names with commas gives back the
    value of [YOUTUBE_STREAMERS], the empty string when it is unset. *)
Theorem youtube_streamers_round_trip (W : world) (env : gmap string string)
    (st : state) :
  missing_creds env = [] ->
  directories_made W st = true ->
  exists a st',
    __init__ W env st = (Ok a, st') /\
    youtube_streamers a <> [] /\
    Forall (fun name => PyStr.contains "," name = false) (youtube_streamers a) /\
    PyStr.join "," (youtube_streamers a) = default "" (env !! "YOUTUBE_STREAMERS").
Proof.
  intros Hnil Hmade.
  destruct (init_run W env st Hmade) as (streamers & Hsplit & Hrun).
  rewrite Hnil in Hrun. unfold PyStr.split in Hsplit. injection Hsplit as <-.
  eexists _, _. split; [exact Hrun|]. cbn [instance_of youtube_streamers].
  split; [apply split_from_not_nil|]. split; [by apply split_from_char_free|].
  by apply (join_split_from ",").
Qed.

Lemma youtube_streamers_round_trip_witness :
  exists a st',
    __init__ silent_world (<["YOUTUBE_STREAMERS" := "a,b"]> full_env) empty_state =
      (Ok a, st') /\
    youtube_streamers a <> [] /\
    Forall (fun name => PyStr.contains "," name = false) (youtube_streamers a) /\
    PyStr.join "," (youtube_streamers a) =
      default "" ((<["YOUTUBE_STREAMERS" := "a,b"]> full_env) !! "YOUTUBE_STREAMERS").
Proof.
  apply (youtube_streamers_round_trip silent_world
           (<["YOUTUBE_STREAMERS" := "a,b"]> full_env) empty_state).
  - by vm_compute.
  - by vm_compute.
Defined.

(** ** Which events a computation may add *)

Section Emits.

Context {A B : Type}.
Variable P : event -> bool.

Lemma emits_ret (a : A) : emits P (ret a).
Proof. intros st. exists []. by rewrite app_nil_r. Qed.

Lemma emits_raise (msg : string) : emits P (@raise A msg).
Proof. intros st. exists []. by rewrite app_nil_r. Qed.

Lemma emits_bind (c : E A) (k : A -> E B) :
  emits P c -> (forall a, emits P (k a)) -> emits P (bind c k).
Proof.
  intros Hc Hk st. unfold bind.
  destruct (Hc st) as (evs1 & Htr1 & Hn1).
  destruct (c st) as [[a|msg] st1]; cbn [snd] in *.
  - destruct (Hk a st1) as (evs2 & Htr2 & Hn2).
    exists (evs1 ++ evs2)%list. split.
    + by rewrite Htr2, Htr1, app_assoc.
    + by rewrite forallb_app, Hn1, Hn2.
  - by exists evs1.
Qed.

Lemma emits_try_except (c : E A) (h : string -> E A) :
  emits P c -> (forall msg, emits P (h msg)) -> emits P (try_except c h).
Proof.
  intros Hc Hh st. unfold try_except.
  destruct (Hc st) as (evs1 & Htr1 & Hn1).
  destruct (c st) as [[a|msg] st1]; cbn [snd] in *.
  - by exists evs1.
  - destruct (Hh msg st1) as (evs2 & Htr2 & Hn2).
    exists (evs1 ++ evs2)%list. split.
    + by rewrite Htr2, Htr1, app_assoc.
    + by rewrite forallb_app, Hn1, Hn2.
Qed.

(** A [try] whose handler returns a value always returns. *)
Lemma try_except_returns (c : E A) (a0 : A) (st : state) :
  exists a st', try_except c (fun _ => ret a0) st = (Ok a, st').
Proof.
  unfold try_except, ret. destruct (c st) as [[a|msg] st1]; by eexists _, _.
Qed.

End Emits.

Lemma emits_tell (P : event -> bool) (e : event) : P e = true -> emits P (tell e).
Proof. intros He st. exists [e]. split; [reflexivity|]. cbn. by rewrite He. Qed.

Lemma emits_clock (P : event -> bool) : emits P clock.
Proof. intros st. exists []. by rewrite app_nil_r. Qed.

Lemma emits_get_fs (P : event -> bool) : emits P get_fs.
Proof. intros st. exists []. by rewrite app_nil_r. Qed.

Lemma emits_put_file (P : event -> bool) (path : string) (f : file) :
  emits P (put_file path f).
Proof. intros st. exists []. by rewrite app_nil_r. Qed.

Lemma emits_delete_file (P : event -> bool) (path : string) :
  emits P (delete_file path).
Proof. intros st. exists []. by rewrite app_nil_r. Qed.

Ltac emits_step :=
  first
    [ apply emits_ret | apply emits_raise | apply emits_clock
    | apply emits_get_fs | apply emits_put_file | apply emits_delete_file
    | apply emits_tell; reflexivity
    | apply emits_bind; [|intros ?]
    | apply emits_try_except; [|intros ?]
    | match goal with H : _ |- _ => apply H end
    | match goal with
      | |- emits _ (match ?x with _ => _ end) => destruct x
      | |- emits _ (let '(_, _) := ?x in _) => destruct x
      end ].

Ltac emits_tac := cbv zeta; repeat emits_step.

Section CalmProgram.

Variable W : world.

Lemma calm_path_exists (path : string) : emits calm (path_exists path).
Proof. unfold path_exists. emits_tac. Qed.

Lemma calm_getsize (path : string) : emits calm (getsize path).
Proof. unfold getsize. emits_tac. Qed.

Lemma calm_getitem (d : Json.json) (key : string) :
  emits calm (getitem d key).
Proof. unfold getitem. emits_tac. Qed.

Lemma calm_request (m : http_method) (url : string) : emits calm (request W m url).
Proof. unfold request. emits_tac. Qed.

Lemma calm_get_fresh_access_token : emits calm (get_fresh_access_token W).
Proof. unfold get_fresh_access_token. pose proof calm_request. emits_tac. Qed.

Lemma calm_probe (possible_urls : list string) : emits calm (probe W possible_urls).
Proof.
  induction possible_urls as [|url rest IH]; cbn [probe];
    pose proof calm_request; emits_tac.
Qed.

Lemma calm_get_clip_download_url (clip_url : string) :
  emits calm (get_clip_download_url W clip_url).
Proof. unfold get_clip_download_url. pose proof calm_probe. emits_tac. Qed.

Lemma calm_write_stream (filepath : string) (r : response) :
  emits calm (write_stream W filepath r).
Proof. unfold write_stream. emits_tac. Qed.

Lemma calm_download_clip (clip_url filename : string) :
  emits calm (download_clip W clip_url filename).
Proof.
  unfold download_clip.
  pose proof calm_get_clip_download_url. pose proof calm_request.
  pose proof calm_write_stream. pose proof calm_path_exists.
  pose proof calm_getsize.
  apply emits_try_except; [|intros ?; apply emits_ret].
  apply emits_bind; [done|]. intros [url|]; [|apply emits_ret].
  destruct (String.eqb url ""); emits_tac.
Qed.

Lemma calm_download_clip_of (clip_url : Json.json) (filename : string) :
  emits calm (download_clip_of W clip_url filename).
Proof.
  unfold download_clip_of. pose proof calm_download_clip. emits_tac.
Qed.

Lemma download_clip_of_returns (clip_url : Json.json) (filename : string)
    (st : state) :
  exists ok st', download_clip_of W clip_url filename st = (Ok ok, st').
Proof.
  unfold download_clip_of.
  destruct clip_url; try by eexists _, _. apply try_except_returns.
Qed.

Lemma calm_transcribe_audio (self : automation) (video_path : string) :
  emits calm (transcribe_audio W self video_path).
Proof. unfold transcribe_audio. emits_tac. Qed.

Lemma calm_open_video (path : string) : emits calm (open_video path).
Proof. unfold open_video. emits_tac. Qed.

Lemma calm_write_videofile (path : string) (out : media) (t_start t_end : Q) :
  emits calm (write_videofile W path out t_start t_end).
Proof. unfold write_videofile. emits_tac. Qed.

Lemma calm_create_vertical_video (input_path output_path : string) :
  emits calm (create_vertical_video W input_path output_path).
Proof.
  unfold create_vertical_video.
  pose proof calm_open_video. pose proof calm_write_videofile. emits_tac.
Qed.

Lemma calm_trim_video (input_path output_path : string) (max_duration : Q) :
  emits calm (trim_video W input_path output_path max_duration).
Proof.
  unfold trim_video.
  pose proof calm_open_video. pose proof calm_write_videofile. emits_tac.
Qed.

Lemma calm_generate_engaging_title {T : Type} (clip_title : T)
    (ca : content_analysis) (streamer_name : string) :
  emits calm (generate_engaging_title W clip_title ca streamer_name).
Proof. unfold generate_engaging_title. emits_tac. Qed.

Lemma calm_upload_to_youtube_shorts (video_path title description : string)
    (tags : list string) :
  emits calm (upload_to_youtube_shorts W video_path title description tags).
Proof.
  unfold upload_to_youtube_shorts.
  pose proof calm_get_fresh_access_token. pose proof calm_request.
  pose proof calm_getsize.
  apply emits_try_except; [|intros ?; apply emits_ret].
  apply emits_bind; [done|]. intros access_token.
  destruct (negb _); [apply emits_ret|].
  apply emits_bind; [done|]. intros init_response.
  destruct (negb _); [apply emits_ret|].
  destruct (header_get _ _) as [upload_url|]; [|apply emits_ret].
  destruct (String.eqb upload_url ""); emits_tac.
Qed.

Lemma calm_get_twitch_clips (self : automation) (streamer_name : string) :
  emits calm (get_twitch_clips W self streamer_name).
Proof. unfold get_twitch_clips. emits_tac. Qed.

(** The cleanup adds removals and nothing else. *)
Lemma cleanup_only_removes (paths : list string) :
  emits is_remove (cleanup W paths).
Proof.
  induction paths as [|path rest IH]; cbn [cleanup]; [apply emits_ret|].
  unfold path_exists. emits_tac.
Qed.

End CalmProgram.

(** ** The order of the stages *)

Lemma watch_all_app (s : progress) (evs1 evs2 : list event) :
  watch_all s (evs1 ++ evs2) =
  match watch_all s evs1 with
  | Some s' => watch_all s' evs2
  | None => None
  end.
Proof.
  revert s. induction evs1 as [|e evs1 IH]; intros s; [reflexivity|].
  cbn [app watch_all]. destruct (watch s e); [apply IH|reflexivity].
Qed.

Lemma watch_all_calm (s : progress) (evs : list event) :
  forallb calm evs = true -> watch_all s evs = Some s.
Proof.
  induction evs as [|e evs IH]; [reflexivity|].
  cbn [forallb watch_all]. intros [He Hevs]%andb_true_iff.
  replace (watch s e) with (Some s) by (by destruct e). by apply IH.
Qed.

Lemma watch_all_removes (evs : list event) :
  forallb is_remove evs = true -> watch_all Attempted evs = Some Attempted.
Proof.
  induction evs as [|e evs IH]; [reflexivity|].
  cbn [forallb watch_all]. intros [He Hevs]%andb_true_iff.
  destruct e; try done. by apply IH.
Qed.

Section Watched.

Context {A B : Type}.

Lemma watched_ret (s0 : progress) (a : A) (Q : result A -> progress -> Prop) :
  Q (Ok a) s0 -> watched s0 (ret a) Q.
Proof. intros HQ st. exists [], s0. by rewrite app_nil_r. Qed.

Lemma watched_raise (s0 : progress) (msg : string)
    (Q : result A -> progress -> Prop) :
  Q (Raise msg) s0 -> watched s0 (raise msg) Q.
Proof.
  intros HQ st. exists [], s0. split; [by rewrite app_nil_r|]. by split.
Qed.

Lemma watched_bind (s0 : progress) (c : E A) (k : A -> E B)
    (Q : result A -> progress -> Prop) (R : result B -> progress -> Prop) :
  watched s0 c Q ->
  (forall a s1, Q (Ok a) s1 -> watched s1 (k a) R) ->
  (forall msg s1, Q (Raise msg) s1 -> R (Raise msg) s1) ->
  watched s0 (bind c k) R.
Proof.
  intros Hc Hk Hraise st. unfold bind.
  destruct (Hc st) as (evs1 & s1 & Htr1 & Hobs1 & HQ).
  destruct (c st) as [[a|msg] st1]; cbn [fst snd] in *.
  - destruct (Hk a s1 HQ st1) as (evs2 & s2 & Htr2 & Hobs2 & HR).
    exists (evs1 ++ evs2)%list, s2. split; [|split; [|exact HR]].
    + by rewrite Htr2, Htr1, app_assoc.
    + by rewrite watch_all_app, Hobs1.
  - exists evs1, s1. eauto.
Qed.

(** A step between the stages leaves the observer where it was. *)
Lemma watched_calm_bind (s0 : progress) (c : E A) (k : A -> E B)
    (R : result B -> progress -> Prop) :
  emits calm c ->
  (forall a, watched s0 (k a) R) ->
  (forall msg, R (Raise msg) s0) ->
  watched s0 (bind c k) R.
Proof.
  intros Hc Hk Hraise.
  eapply (watched_bind s0 c k (fun _ s1 => s1 = s0)).
  - intros st. destruct (Hc st) as (evs & Htr & Hcalm).
    exists evs, s0. split; [exact Htr|]. split; [|reflexivity].
    by apply watch_all_calm.
  - intros a s1 ->. apply Hk.
  - intros msg s1 ->. apply Hraise.
Qed.

Lemma watched_try_except (s0 : progress) (c : E A) (h : string -> E A)
    (Q R : result A -> progress -> Prop) :
  watched s0 c Q ->
  (forall a s1, Q (Ok a) s1 -> R (Ok a) s1) ->
  (forall msg s1, Q (Raise msg) s1 -> watched s1 (h msg) R) ->
  watched s0 (try_except c h) R.
Proof.
  intros Hc Hok Hh st. unfold try_except.
  destruct (Hc st) as (evs1 & s1 & Htr1 & Hobs1 & HQ).
  destruct (c st) as [[a|msg] st1]; cbn [fst snd] in *.
  - exists evs1, s1. eauto.
  - destruct (Hh msg s1 HQ st1) as (evs2 & s2 & Htr2 & Hobs2 & HR).
    exists (evs1 ++ evs2)%list, s2. split; [|split; [|exact HR]].
    + by rewrite Htr2, Htr1, app_assoc.
    + by rewrite watch_all_app, Hobs1.
Qed.

End Watched.

Lemma watched_tell_bind {B} (s0 s1 : progress) (e : event) (k : E B)
    (R : result B -> progress -> Prop) :
  watch s0 e = Some s1 ->
  watched s1 k R ->
  watched s0 (bind (tell e) (fun _ => k)) R.
Proof.
  intros He Hk st. unfold bind, tell.
  destruct (Hk {| fs := fs st; trace := (trace st ++ [e])%list |})
    as (evs & s2 & Htr & Hobs & HR). cbn [trace] in Htr.
  exists (e :: evs), s2. split; [|split; [|exact HR]].
  - by rewrite Htr, <- app_assoc.
  - cbn [watch_all]. by rewrite He.
Qed.

(** A step whose events the observer accepts without moving, and that
    always returns. *)
Lemma watched_step_bind {A B} (s0 : progress) (c : E A) (k : A -> E B)
    (R : result B -> progress -> Prop) :
  (forall st, exists evs a st',
     c st = (Ok a, st') /\ trace st' = (trace st ++ evs)%list /\
     watch_all s0 evs = Some s0) ->
  (forall a, watched s0 (k a) R) ->
  watched s0 (bind c k) R.
Proof.
  intros Hc Hk st. unfold bind.
  destruct (Hc st) as (evs1 & a & st1 & -> & Htr1 & Hobs1).
  destruct (Hk a st1) as (evs2 & s2 & Htr2 & Hobs2 & HR).
  exists (evs1 ++ evs2)%list, s2. split; [|split; [|exact HR]].
  - by rewrite Htr2, Htr1, app_assoc.
  - by rewrite watch_all_app, Hobs1.
Qed.

Section WatchedProgram.

Variable W : world.

(** A stage called in its turn runs to its return. *)
Lemma watched_call (s0 : progress) (f : stage) (arg : string) (c : E bool) :
  watch s0 (EvCall f arg) = Some (Running f) ->
  emits calm c ->
  (forall st, exists ok st', c st = (Ok ok, st')) ->
  watched s0 (call f arg c)
    (fun r s1 =>
       exists ok, r = Ok ok /\
         s1 = match f with
              | UploadShort => Attempted
              | _ => if ok then Passed f else Dropped
              end).
Proof.
  intros Hcall Hcalm Hreturns st. unfold call, bind, tell, ret.
  set (st0 := {| fs := fs st; trace := (trace st ++ [EvCall f arg])%list |}).
  destruct (Hcalm st0) as (evs & Htr & Hevs).
  destruct (Hreturns st0) as (ok & st1 & Hrun). rewrite Hrun in *.
  cbn [fst snd fs trace] in *.
  eexists (EvCall f arg :: evs ++ [EvReturn f ok])%list, _.
  split; [|split; [|by exists ok]].
  - rewrite Htr. subst st0. cbn [trace]. by rewrite <- !app_assoc.
  - cbn [watch_all]. rewrite Hcall, watch_all_app, (watch_all_calm _ _ Hevs).
    by destruct f, ok.
Qed.

Lemma watched_process_clip (self : automation) (clip : Json.json)
    (s0 : progress) :
  clip_over s0 = true ->
  watched s0 (process_clip W self clip) (fun _ s1 => clip_over s1 = true).
Proof.
  intros Hover. unfold process_clip. cbv zeta.
  apply (watched_tell_bind s0 Fresh); [by destruct s0 as [| |[]|[]| | |]|].
  apply watched_calm_bind; [apply calm_getitem| |done]. intros clip_id.
  apply watched_calm_bind; [apply calm_getitem| |done]. intros clip_title.
  apply watched_calm_bind; [apply calm_getitem| |done]. intros clip_url.
  eapply watched_bind;
    [apply watched_call;
     [reflexivity|apply calm_download_clip_of|apply download_clip_of_returns]| |].
  2: { by intros msg s1 (ok & [=] & _). }
  intros downloaded s1 (ok & [= <-] & ->).
  destruct downloaded; cbn [negb]; [|by apply watched_ret].
  apply watched_calm_bind; [apply calm_path_exists| |done]. intros present.
  apply watched_calm_bind;
    [destruct present; [apply calm_getsize|apply emits_ret]| |done].
  intros bytes.
  destruct (negb present || (bytes <? 1000)%nat); [by apply watched_ret|].
  apply watched_calm_bind; [apply calm_transcribe_audio| |done].
  intros transcription.
  eapply watched_bind;
    [apply watched_call;
     [reflexivity|apply calm_create_vertical_video
     |intros; apply try_except_returns]| |].
  2: { by intros msg s2 (ok & [=] & _). }
  intros vertical s2 (ok & [= <-] & ->).
  destruct vertical; cbn [negb]; [|by apply watched_ret].
  eapply watched_bind;
    [apply watched_call;
     [reflexivity|apply calm_trim_video|intros; apply try_except_returns]| |].
  2: { by intros msg s3 (ok & [=] & _). }
  intros trimmed s3 (ok & [= <-] & ->).
  destruct trimmed; cbn [negb]; [|by apply watched_ret].
  apply watched_step_bind.
  { intros st. destruct (calm_generate_engaging_title W clip_title
                           (analyze_content transcription) (twitch_streamer self) st)
      as (evs & Htr & Hcalm).
    exists evs. unfold generate_engaging_title in *. unfold_monad.
    cbn [fst snd] in *. eexists _, _. split; [reflexivity|].
    split; [exact Htr|]. by apply watch_all_calm. }
  intros title.
  eapply watched_bind;
    [apply watched_call;
     [reflexivity|apply calm_upload_to_youtube_shorts
     |intros; apply try_except_returns]| |].
  2: { by intros msg s4 (ok & [=] & _). }
  intros uploaded s4 (ok & [= <-] & ->).
  apply watched_step_bind.
  { intros st. destruct (cleanup_only_removes W
                           ["downloads/" ++ ("twitch_clip_" ++ py_str W clip_id ++ ".mp4");
                            "processed/vertical_" ++ ("twitch_clip_" ++ py_str W clip_id ++ ".mp4");
                            "uploads/final_" ++ ("twitch_clip_" ++ py_str W clip_id ++ ".mp4")] st)
      as (evs & Htr & Hremoves).
    destruct (cleanup_returns W
                ["downloads/" ++ ("twitch_clip_" ++ py_str W clip_id ++ ".mp4");
                 "processed/vertical_" ++ ("twitch_clip_" ++ py_str W clip_id ++ ".mp4");
                 "uploads/final_" ++ ("twitch_clip_" ++ py_str W clip_id ++ ".mp4")] st)
      as (a & st' & Hrun).
    rewrite Hrun in *. exists evs, a, st'. split; [reflexivity|].
    split; [exact Htr|]. by apply watch_all_removes. }
  intros _.
  apply (watched_tell_bind Attempted Slept); [reflexivity|].
  by apply watched_ret.
Qed.

Lemma watched_process_loop (self : automation)
    (clips : list Json.json) (count : nat) (s0 : progress) :
  clip_over s0 = true ->
  watched s0 (process_loop W self clips count) (fun _ s1 => clip_over s1 = true).
Proof.
  revert count s0. induction clips as [|clip rest IH]; intros count s0 Hover.
  - by apply watched_ret.
  - cbn [process_loop].
    destruct (max_uploads <=? count)%nat; [by apply watched_ret|].
    eapply (watched_bind s0 _ _ (fun r s1 => clip_over s1 = true)).
    + eapply watched_try_except; [by apply watched_process_clip|done|].
      intros msg s1 Hs1. unfold skip_clip.
      destruct (Json.is_dict clip); [by apply watched_ret|by apply watched_raise].
    + intros uploaded s1 Hs1. by apply IH.
    + done.
Qed.

Lemma watched_process_clips (self : automation) :
  watched Idle (process_clips W self) (fun _ s1 => clip_over s1 = true).
Proof.
  unfold process_clips.
  apply watched_step_bind.
  { intros st. unfold get_twitch_clips. unfold_monad. cbn [fst snd].
    eexists [_], _, _. split; [reflexivity|]. by split. }
  intros clips.
  destruct (negb (Json.truthy clips)); [by apply watched_ret|].
  destruct (Json.sliced clips (max_uploads * 2)) as [items|];
    [by apply watched_process_loop|by apply watched_raise].
Qed.

End WatchedProgram.

(** What an accepted sequence tells about the state it reaches. *)

Lemma attempted_or_not (s : progress) : s = Attempted \/ s <> Attempted.
Proof. destruct s; (by left) || (by right). Qed.

Lemma reached_attempted (pre : list event) :
  watch_all Idle pre = Some Attempted ->
  exists pre' ok mid,
    pre = (pre' ++ EvReturn UploadShort ok :: mid)%list /\
    Forall (fun e => is_clip e = false) mid.
Proof.
  induction pre as [|e pre IH] using rev_ind; [done|].
  rewrite watch_all_app. destruct (watch_all Idle pre) as [s|] eqn:Hpre; [|done].
  cbn [watch_all]. destruct (watch s e) as [s'|] eqn:Hstep; [|done].
  intros [= ->].
  destruct (attempted_or_not s) as [->|Hs].
  - destruct (IH eq_refl) as (pre' & ok & mid & -> & Hmid).
    exists pre', ok, (mid ++ [e])%list. split; [by rewrite <- app_assoc|].
    apply Forall_app. split; [exact Hmid|]. constructor; [|constructor].
    by destruct e.
  - destruct e; cbn in Hstep; try (by destruct s as [| |[]|[]| | |]);
      try congruence.
    + destruct (stage_before f), s as [| |[]|[]| | |];
        repeat case_match; congruence.
    + destruct s as [| |g|[]| | |]; try done.
      destruct (stage_eqb f g) eqn:Hfg; [|done].
      destruct f; [destruct r; done..|].
      exists pre, r, []. by split.
Qed.

Lemma reached_passed (pre : list event) (g : stage) :
  watch_all Idle pre = Some (Passed g) ->
  exists pre' mid,
    pre = (pre' ++ EvReturn g true :: mid)%list /\
    forallb calm mid = true.
Proof.
  induction pre as [|e pre IH] using rev_ind; [done|].
  rewrite watch_all_app. destruct (watch_all Idle pre) as [s|] eqn:Hpre; [|done].
  cbn [watch_all]. destruct (watch s e) as [s'|] eqn:Hstep; [|done].
  intros [= ->].
  destruct (calm e) eqn:Hcalm.
  - assert (s = Passed g) as -> by (destruct e; cbn in Hstep, Hcalm; congruence).
    destruct (IH eq_refl) as (pre' & mid & -> & Hmid).
    exists pre', (mid ++ [e])%list. split; [by rewrite <- app_assoc|].
    rewrite forallb_app, Hmid. cbn. by rewrite Hcalm.
  - destruct e; cbn in Hstep, Hcalm; try done.
    all: try solve [destruct s as [| |[]|[]| | |]; repeat case_match; simplify_eq].
    destruct s as [| |f'|[]| | |]; try done.
    destruct (stage_eqb f f') eqn:Hfg; [|done].
    destruct f, r; try done; injection Hstep as <-; exists pre, []; by split.
Qed.

Lemma sleep_follows (post : list event) (s : progress) :
  watch_all Attempted post = Some s ->
  clip_over s = true ->
  exists mid post',
    post = (mid ++ EvSleep 30 :: post')%list /\
    Forall (fun e => neutral e = true) mid.
Proof.
  induction post as [|e post IH]; [intros [= <-] Hover; discriminate|].
  cbn [watch_all]. destruct (watch Attempted e) as [s'|] eqn:Hstep; [|done].
  intros Hrest Hover.
  destruct (attempted_or_not s') as [->|Hs].
  - destruct (IH Hrest Hover) as (mid & post' & -> & Hmid).
    exists (e :: mid), post'. split; [reflexivity|].
    constructor; [|exact Hmid].
    destruct e; cbn in Hstep |- *; try done. by destruct (stage_before f).
  - destruct e; cbn in Hstep; try congruence.
    + destruct (Nat.eqb_spec seconds 30) as [->|]; [|done].
      exists [], post. by split.
    + by destruct (stage_before f).
Qed.

(** X8: In every run of [process_clips] the events are accepted by the
    stage-order observer, and the run ends between clips.  A stage other
    than the download is called only after the stage before it returned
    [True], with nothing in between but events of the world outside that
    are neither removals nor sleeps.  A file is removed, or the run
    sleeps, only after the upload returned in the same clip.  Every
    return of the upload is followed by a sleep of 30 seconds, with no
    new clip, call or return in between. *)
Theorem process_clips_stage_order (W : world) (self : automation) (st : state) :
  let evs := new_events st (process_clips W self st).2 in
  (exists s, watch_all Idle evs = Some s /\ clip_over s = true) /\
  (forall pre f arg post g,
     evs = (pre ++ EvCall f arg :: post)%list ->
     stage_before f = Some g ->
     exists pre' mid,
       pre = (pre' ++ EvReturn g true :: mid)%list /\ forallb calm mid = true) /\
  (forall pre e post,
     evs = (pre ++ e :: post)%list ->
     is_remove e || is_sleep e = true ->
     exists pre' ok mid,
       pre = (pre' ++ EvReturn UploadShort ok :: mid)%list /\
       Forall (fun e => is_clip e = false) mid) /\
  (forall pre ok post,
     evs = (pre ++ EvReturn UploadShort ok :: post)%list ->
     exists mid post',
       post = (mid ++ EvSleep 30 :: post')%list /\
       Forall (fun e => neutral e = true) mid).
Proof.
  cbv zeta.
  destruct (watched_process_clips W self st) as (evs & s & Htr & Hobs & Hover).
  rewrite (new_events_app _ _ _ Htr).
  split; [by exists s|]. split; [|split].
  - intros pre f arg post g -> Hbefore.
    rewrite watch_all_app in Hobs.
    destruct (watch_all Idle pre) as [s1|] eqn:Hpre; [|done].
    cbn [watch_all watch] in Hobs. rewrite Hbefore in Hobs.
    destruct s1 as [| |f1|g1| | |]; try done.
    destruct (stage_eqb g g1) eqn:Hg; [|done].
    assert (g1 = g) as -> by (by destruct g, g1).
    by apply reached_passed.
  - intros pre e post -> He.
    rewrite watch_all_app in Hobs.
    destruct (watch_all Idle pre) as [s1|] eqn:Hpre; [|done].
    cbn [watch_all] in Hobs.
    assert (s1 = Attempted) as ->.
    { destruct e; try done; by destruct s1. }
    by apply reached_attempted.
  - intros pre ok post ->.
    rewrite watch_all_app in Hobs.
    destruct (watch_all Idle pre) as [s1|] eqn:Hpre; [|done].
    cbn [watch_all watch] in Hobs.
    destruct s1 as [| |f1|g1| | |]; try done.
    destruct f1; try done. cbn in Hobs.
    by apply (sleep_follows post s).
Qed.

(** ** The crop *)

Lemma new_width_eq (h : Z) :
  (0 <= h)%Z ->
  py_int (inject_Z h * (inject_Z target_width / inject_Z target_height)) =
  (9 * h / 16)%Z.
Proof.
  intros Hh. change (inject_Z target_width / inject_Z target_height)%Q
    with (1080 # 1920)%Q.
  unfold py_int. cbn [Qmult inject_Z Qnum Qden].
  rewrite Z.quot_div_nonneg by lia.
  change (Z.pos (1 * 1920)) with (16 * 120)%Z.
  replace (h * 1080)%Z with (9 * h * 120)%Z by lia.
  apply Z.div_mul_cancel_r; lia.
Qed.

Lemma new_height_eq (w : Z) :
  (0 <= w)%Z ->
  py_int (inject_Z w / (inject_Z target_width / inject_Z target_height)) =
  (16 * w / 9)%Z.
Proof.
  intros Hw. change (inject_Z target_width / inject_Z target_height)%Q
    with (1080 # 1920)%Q.
  change (inject_Z w / (1080 # 1920))%Q with (inject_Z w * (1920 # 1080))%Q.
  unfold py_int. cbn [Qmult inject_Z Qnum Qden].
  rewrite Z.quot_div_nonneg by lia.
  change (Z.pos (1 * 1080)) with (9 * 120)%Z.
  replace (w * 1920)%Z with (16 * w * 120)%Z by lia.
  apply Z.div_mul_cancel_r; lia.
Qed.

Lemma centre_eq (a b : Z) :
  (b <= a)%Z ->
  py_int (inject_Z a / 2 - inject_Z b / 2) = ((a - b) / 2)%Z.
Proof.
  intros Hab. unfold py_int. cbn.
  rewrite Z.quot_div_nonneg by lia.
  change (Z.pos (1 * 2 * (1 * 2))) with (2 * 2)%Z.
  change (Z.pos (1 * 2)) with 2%Z.
  replace (a * 1 * 2 + - (b * 1) * 2)%Z with ((a - b) * 2)%Z by lia.
  apply Z.div_mul_cancel_r; lia.
Qed.

Lemma wider_than_target (w : Z) (p : positive) :
  Qle_bool (inject_Z w / inject_Z (Z.pos p))
           (inject_Z target_width / inject_Z target_height) = true <->
  (16 * w <= 9 * Z.pos p)%Z.
Proof.
  rewrite Qle_bool_iff.
  change (inject_Z target_width / inject_Z target_height)%Q with (1080 # 1920)%Q.
  unfold Qle. cbn. lia.
Qed.

(** X17: For a frame of positive width [w] and height [h], the band
    [create_vertical_video] crops to lies inside the frame.  A source
    wider than 9:16 keeps all rows and the integer part of [9h/16]
    columns, any other keeps all columns and the integer part of [16w/9]
    rows, and the two margins cut off differ by at most one pixel. *)
Theorem crop_box_inside_frame (w h : Z) :
  (0 < w)%Z -> (0 < h)%Z ->
  match crop_box w h with
  | CropX x1 x2 =>
      (9 * h < 16 * w)%Z /\
      (0 <= x1)%Z /\ (x2 <= w)%Z /\
      (x2 - x1 = 9 * h / 16)%Z /\
      (0 <= (w - x2) - x1 <= 1)%Z
  | CropY y1 y2 =>
      (16 * w <= 9 * h)%Z /\
      (0 <= y1)%Z /\ (y2 <= h)%Z /\
      (y2 - y1 = 16 * w / 9)%Z /\
      (0 <= (h - y2) - y1 <= 1)%Z
  end.
Proof.
  intros Hw Hh. unfold crop_box. cbv zeta.
  destruct h as [|p|p]; [lia| |lia].
  destruct (Qle_bool (inject_Z w / inject_Z (Z.pos p))
                     (inject_Z target_width / inject_Z target_height)) eqn:Hcmp;
    cbn [negb].
  - apply wider_than_target in Hcmp.
    rewrite new_height_eq by lia.
    pose proof (Z.div_mod (16 * w) 9 ltac:(lia)) as Hdiv.
    pose proof (Z.mod_pos_bound (16 * w) 9 ltac:(lia)) as Hmod.
    set (nh := (16 * w / 9)%Z) in *.
    rewrite centre_eq by lia.
    pose proof (Z.div_mod (Z.pos p - nh) 2 ltac:(lia)) as Hdiv2.
    pose proof (Z.mod_pos_bound (Z.pos p - nh) 2 ltac:(lia)) as Hmod2.
    repeat split; lia.
  - assert (9 * Z.pos p < 16 * w)%Z as Hwide.
    { destruct (Z.le_gt_cases (16 * w) (9 * Z.pos p)) as [Hle|Hgt]; [|lia].
      apply wider_than_target in Hle. congruence. }
    rewrite new_width_eq by lia.
    pose proof (Z.div_mod (9 * Z.pos p) 16 ltac:(lia)) as Hdiv.
    pose proof (Z.mod_pos_bound (9 * Z.pos p) 16 ltac:(lia)) as Hmod.
    set (nw := (9 * Z.pos p / 16)%Z) in *.
    rewrite centre_eq by lia.
    pose proof (Z.div_mod (w - nw) 2 ltac:(lia)) as Hdiv2.
    pose proof (Z.mod_pos_bound (w - nw) 2 ltac:(lia)) as Hmod2.
    repeat split; lia.
Qed.

Lemma crop_box_inside_frame_witness :
  crop_box 1920 1080 = CropX 656 1263 /\
  (9 * 1080 < 16 * 1920)%Z /\ (0 <= 656)%Z /\ (1263 <= 1920)%Z /\
  (1263 - 656 = 9 * 1080 / 16)%Z /\ (0 <= (1920 - 1263) - 656 <= 1)%Z.
Proof.
  split; [reflexivity|].
  apply (crop_box_inside_frame 1920 1080); reflexivity.
Defined.

(** ** Listing clips and videos *)

Section ListingFacts.
Import Json.

(** X22: [get_twitch_clips] always returns a value that has a length.
    It asks for the token first, then for the user, then for the clips,
    and stops at the first step that fails.  When the token is not
    granted the token request is the only call and the result is empty.
    When it is granted but the user is not known, the calls are the
    token request and the user request made with that token, and the
    result is empty.  When both succeed the calls are these two and the
    clips request for that user, and a result other than the empty list
    is the [data] of a third answer with status 200. *)
Theorem twitch_clips_need_three_answers
    (requests : Json.call -> option Json.reply)
    (self : automation) (streamer_name : string) (limit : Z) :
  let run := Listing.get_twitch_clips requests self streamer_name limit in
  let token := Json.PostToken (twitch_client_id self) (twitch_client_secret self) in
  let users access_token :=
    Json.GetUsers (twitch_client_id self) access_token streamer_name in
  let clips access_token user_id :=
    Json.GetClips (twitch_client_id self) access_token user_id limit in
  Json.has_len run.1 = true /\
  ((forall access_token, ~ Listing.token_granted requests self access_token) ->
   run = (Json.JsList [], [token])) /\
  (forall access_token,
     Listing.token_granted requests self access_token ->
     (forall user_id,
        ~ Listing.user_known requests self streamer_name access_token user_id) ->
     run = (Json.JsList [], [token; users access_token])) /\
  (forall access_token user_id,
     Listing.token_granted requests self access_token ->
     Listing.user_known requests self streamer_name access_token user_id ->
     run.2 = [token; users access_token; clips access_token user_id] /\
     (run.1 <> Json.JsList [] ->
      exists r d,
        requests (clips access_token user_id) = Some r /\
        Json.status r = 200%nat /\ Json.body r = Some (Json.JsDict d) /\
        Dict.get "data" d = Some run.1)).
Proof.
  cbv zeta.
  assert (forall a b, Listing.token_granted requests self a ->
                      Listing.token_granted requests self b -> a = b) as Htoken.
  { intros a b (r & v & Hr & _ & Hv & Ha & _) (r' & v' & Hr' & _ & Hv' & Hb & _).
    congruence. }
  assert (forall t a b, Listing.user_known requests self streamer_name t a ->
                        Listing.user_known requests self streamer_name t b -> a = b)
    as Huser.
  { intros t a b (r & d & data & user & Hr & _ & Hd & Hdata & _ & Hu & Ha)
      (r' & d' & data' & user' & Hr' & _ & Hd' & Hdata' & _ & Hu' & Hb).
    congruence. }
  unfold Listing.get_twitch_clips, Listing.get_twitch_oauth_token.
  set (token := PostToken _ _).
  assert (forall r v t, requests token = Some r -> (status r =? 200)%nat = true ->
            body r = Some v -> subscript v "access_token" = Some t ->
            truthy t = true -> Listing.token_granted requests self t) as Hgrant.
  { intros r v t Hr Hs Hb Ht Htruthy. apply Nat.eqb_eq in Hs. by exists r, v. }
  assert ((forall r v t, requests token = Some r -> (status r =? 200)%nat = true ->
             body r = Some v -> subscript v "access_token" = Some t ->
             truthy t = true -> False) ->
          forall t, ~ Listing.token_granted requests self t) as Hrefused.
  { intros Hno t (r & v & Hr & Hs & Hb & Ht & Htruthy).
    apply Nat.eqb_eq in Hs. eauto. }
  destruct (requests token) as [r1|] eqn:H1; cbn [negb truthy];
    [|pose proof (Hrefused ltac:(intros; simplify_eq; congruence)) as Hnever;
      split; [done|]; split; [done|];
      split; [intros t|intros t u]; intros Hgt; exfalso; by apply (Hnever t)].
  destruct (status r1 =? 200)%nat eqn:Hs1; cbn [negb truthy];
    [|pose proof (Hrefused ltac:(intros; simplify_eq; congruence)) as Hnever;
      split; [done|]; split; [done|];
      split; [intros t|intros t u]; intros Hgt; exfalso; by apply (Hnever t)].
  destruct (body r1) as [v1|] eqn:Hb1; cbn [negb truthy];
    [|pose proof (Hrefused ltac:(intros; simplify_eq; congruence)) as Hnever;
      split; [done|]; split; [done|];
      split; [intros t|intros t u]; intros Hgt; exfalso; by apply (Hnever t)].
  destruct (subscript v1 "access_token") as [access_token|] eqn:Ht;
    cbn [negb truthy];
    [|pose proof (Hrefused ltac:(intros; simplify_eq; congruence)) as Hnever;
      split; [done|]; split; [done|];
      split; [intros t|intros t u]; intros Hgt; exfalso; by apply (Hnever t)].
  destruct (truthy access_token) eqn:Htruthy; cbn [negb];
    [|pose proof (Hrefused ltac:(intros; simplify_eq; congruence)) as Hnever;
      split; [done|]; split; [done|];
      split; [intros t|intros t u]; intros Hgt; exfalso; by apply (Hnever t)].
  pose proof (Hgrant _ _ _ eq_refl Hs1 Hb1 Ht Htruthy) as Hg. clear Hgrant Hrefused.
  set (users := GetUsers (twitch_client_id self) access_token streamer_name).
  assert (forall r d data user u, requests users = Some r ->
            (status r =? 200)%nat = true -> body r = Some (JsDict d) ->
            Dict.get "data" d = Some data -> truthy data = true ->
            index0 data = Some user -> subscript user "id" = Some u ->
            Listing.user_known requests self streamer_name access_token u) as Hknow.
  { intros r d data user u Hr Hs Hb Hd Htr Hi Hu. apply Nat.eqb_eq in Hs.
    by exists r, d, data, user. }
  assert ((forall r d data user u, requests users = Some r ->
            (status r =? 200)%nat = true -> body r = Some (JsDict d) ->
            Dict.get "data" d = Some data -> truthy data = true ->
            index0 data = Some user -> subscript user "id" = Some u -> False) ->
          forall u, ~ Listing.user_known requests self streamer_name access_token u)
    as Hunknown.
  { intros Hno u (r & d & data & user & Hr & Hs & Hb & Hd & Htr & Hi & Hu).
    apply Nat.eqb_eq in Hs. eauto. }
  assert (forall t, Listing.token_granted requests self t -> t = access_token)
    as Honly by (intros t Hgt; by apply Htoken).
  assert (forall (P : json -> Prop), P access_token ->
            forall t, Listing.token_granted requests self t -> P t) as Hsame.
  { intros P HP t Hgt. by rewrite (Honly t Hgt). }
  split; [repeat case_match; done|].
  split; [intros Hno; exfalso; by apply (Hno access_token)|].
  cbn [fst snd app].
  destruct (requests users) as [r2|] eqn:H2;
    [|pose proof (Hunknown ltac:(intros; simplify_eq; congruence)) as Hnever;
      split; intros t; [|intros u]; intros Hgt; rewrite (Honly t Hgt);
      [done|intros Hku; exfalso; by apply (Hnever u)]].
  destruct (status r2 =? 200)%nat eqn:Hs2; cbn [negb];
    [|pose proof (Hunknown ltac:(intros; simplify_eq; congruence)) as Hnever;
      split; intros t; [|intros u]; intros Hgt; rewrite (Honly t Hgt);
      [done|intros Hku; exfalso; by apply (Hnever u)]].
  destruct (body r2) as [user_data|] eqn:Hb2;
    [|pose proof (Hunknown ltac:(intros; simplify_eq; congruence)) as Hnever;
      split; intros t; [|intros u]; intros Hgt; rewrite (Honly t Hgt);
      [done|intros Hku; exfalso; by apply (Hnever u)]].
  destruct (dict_get user_data "data" JsNull) as [data|] eqn:Hd2;
    [|pose proof (Hunknown ltac:(intros; simplify_eq; congruence)) as Hnever;
      split; intros t; [|intros u]; intros Hgt; rewrite (Honly t Hgt);
      [done|intros Hku; exfalso; by apply (Hnever u)]].
  assert (exists d2, user_data = JsDict d2 /\
            (Dict.get "data" d2 = Some data \/
             Dict.get "data" d2 = None /\ data = JsNull))
    as (d2 & -> & Hget2).
  { destruct user_data as [| | | | | |d2]; try done. exists d2. split; [done|].
    cbn in Hd2. destruct (Dict.get "data" d2); [left; congruence|].
    right. by injection Hd2 as <-. }
  destruct (truthy data) eqn:Hdata; cbn [negb];
    [|pose proof (Hunknown ltac:(intros; simplify_eq; destruct Hget2 as [Hsome|[Hnone _]];
                                  congruence)) as Hnever;
      split; intros t; [|intros u]; intros Hgt; rewrite (Honly t Hgt);
      [done|intros Hku; exfalso; by apply (Hnever u)]].
  assert (Dict.get "data" d2 = Some data) as Hdict.
  { destruct Hget2 as [Hsome|[_ ->]]; done. }
  destruct (index0 data) as [user|] eqn:Hi;
    [|pose proof (Hunknown ltac:(intros; simplify_eq; congruence)) as Hnever;
      split; intros t; [|intros u]; intros Hgt; rewrite (Honly t Hgt);
      [done|intros Hku; exfalso; by apply (Hnever u)]].
  destruct (subscript user "id") as [user_id|] eqn:Hid;
    [|pose proof (Hunknown ltac:(intros; simplify_eq; congruence)) as Hnever;
      split; intros t; [|intros u]; intros Hgt; rewrite (Honly t Hgt);
      [done|intros Hku; exfalso; by apply (Hnever u)]].
  pose proof (Hknow _ _ _ _ _ eq_refl Hs2 Hb2 Hdict Hdata Hi Hid) as Hk.
  split.
  { intros t Hgt. rewrite (Honly t Hgt). intros Hno. exfalso. by apply (Hno user_id). }
  intros t u Hgt. rewrite (Honly t Hgt). intros Hku.
  rewrite (Huser _ _ _ Hku Hk). cbn [fst snd]. split; [done|].
  set (clips := GetClips _ _ _ _).
  destruct (requests clips) as [r3|] eqn:H3; [|done].
  destruct (status r3 =? 200)%nat eqn:Hs3; [|done].
  destruct (body r3) as [v3|] eqn:Hb3; [|done].
  destruct v3 as [| | | | | |d3]; try done. cbn [dict_get].
  destruct (Dict.get "data" d3) as [clips_data|] eqn:Hget3; [|done].
  destruct (has_len clips_data) eqn:Hlen; [|done].
  intros _. apply Nat.eqb_eq in Hs3. by exists r3, d3.
Qed.

End ListingFacts.

Lemma collect_Forall2 (items : list Json.json) :
  forall videos, Listing.collect items = Some videos ->
  Forall2 (fun item v => Listing.video_data item = Some v) items videos.
Proof.
  induction items as [|item rest IH]; intros videos; cbn [Listing.collect].
  - intros [= <-]. constructor.
  - destruct (Listing.video_data item) as [v|] eqn:Hv; [|done].
    destruct (Listing.collect rest) as [vs|]; [|done].
    intros [= <-]. constructor; [done|]. by apply IH.
Qed.

Lemma collect_lacking (items : list Json.json) :
  Exists (fun item => Listing.video_data item = None) items ->
  Listing.collect items = None.
Proof.
  induction 1 as [item rest Hitem|item rest _ IH]; cbn [Listing.collect].
  - by rewrite Hitem.
  - rewrite IH. by destruct (Listing.video_data item).
Qed.

Lemma collect_complete (items : list Json.json) :
  Forall (fun item => is_Some (Listing.video_data item)) items ->
  is_Some (Listing.collect items).
Proof.
  induction 1 as [|item rest [v Hv] _ [vs IH]]; cbn [Listing.collect]; [done|].
  by rewrite Hv, IH.
Qed.

Lemma video_data_url (item : Json.json) (v : Listing.video) :
  Listing.video_data item = Some v ->
  Listing.url v = ("https://www.youtube.com/watch?v=", Listing.id v).
Proof.
  unfold Listing.video_data. repeat case_match; try done. by intros [= <-].
Qed.

Lemma collect_strings (l : list Json.json) (videos : list Listing.video) :
  Forall (fun item => exists s, item = Json.JsStr s) l ->
  Listing.collect l = Some videos -> videos = [].
Proof.
  intros Hl. destruct Hl as [|item rest [s ->] _]; cbn; [by intros [= <-]|done].
Qed.

(** X23: Every video [get_youtube_videos] returns has as its address the
    watch prefix followed by its own id.  When the client cannot be
    built no search is made; when it can but no channel is found the
    channel search is the only call; in both cases the result is empty.
    When a channel is found the calls are the channel search and then
    the video search for exactly that channel.  A result that is not
    empty holds one video for every item of the second answer, in
    order; when that answer lists an item that lacks a field the result
    is empty, and when every listed item has its fields the result has
    one video for each. *)
Theorem youtube_videos_all_or_nothing
    (build : string -> bool) (execute : Json.call -> option Json.json)
    (self : automation) (streamer_name : string) (max_results : Z) :
  let run := Listing.get_youtube_videos build execute self streamer_name max_results in
  let search := Json.SearchChannel streamer_name in
  let found := Listing.channel_found build execute self streamer_name in
  Forall (fun v => Listing.url v =
                   ("https://www.youtube.com/watch?v=", Listing.id v)) run.1 /\
  (build (youtube_api_key self) = false -> run = ([], [])) /\
  (build (youtube_api_key self) = true ->
   (forall channel_id, ~ found channel_id) -> run = ([], [search])) /\
  (forall channel_id,
     found channel_id ->
     let recent := Json.SearchVideos channel_id max_results in
     run.2 = [search; recent] /\
     (run.1 <> [] ->
      exists d items,
        execute recent = Some (Json.JsDict d) /\
        Dict.get "items" d = Some (Json.JsList items) /\
        Forall2 (fun item v => Listing.video_data item = Some v) items run.1) /\
     (forall d items,
        execute recent = Some (Json.JsDict d) ->
        Dict.get "items" d = Some (Json.JsList items) ->
        (Exists (fun item => Listing.video_data item = None) items -> run.1 = []) /\
        (Forall (fun item => is_Some (Listing.video_data item)) items ->
         Forall2 (fun item v => Listing.video_data item = Some v) items run.1))).
Proof.
  cbv zeta.
  assert (forall a b, Listing.channel_found build execute self streamer_name a ->
                      Listing.channel_found build execute self streamer_name b ->
                      a = b) as Hsame.
  { intros a b (_ & d & items & channel & Hd & Hi & _ & Hc & Ha)
      (_ & d' & items' & channel' & Hd' & Hi' & _ & Hc' & Hb). congruence. }
  unfold Listing.get_youtube_videos.
  assert ((forall d items channel c,
             build (youtube_api_key self) = true ->
             execute (Json.SearchChannel streamer_name) = Some (Json.JsDict d) ->
             Dict.get "items" d = Some items -> Json.truthy items = true ->
             Json.index0 items = Some channel ->
             Json.path channel ["id"; "channelId"] = Some c -> False) ->
          forall c, ~ Listing.channel_found build execute self streamer_name c)
    as Hunknown.
  { intros Hno c (Hb & d & items & channel & Hd & Hi & Ht & Hc & Hp). eauto. }
  destruct (build (youtube_api_key self)) eqn:Hbuild; cbn [negb];
    [|pose proof (Hunknown ltac:(intros; simplify_eq; congruence)) as Hnever;
      split; [done|]; split; [done|]; split; [done|];
      intros c Hc; exfalso; by apply (Hnever c)].
  destruct (execute (Json.SearchChannel streamer_name)) as [search_response|] eqn:H1;
    [|pose proof (Hunknown ltac:(intros; simplify_eq; congruence)) as Hnever;
      split; [done|]; split; [done|]; split; [done|];
      intros c Hc; exfalso; by apply (Hnever c)].
  destruct (Json.dict_get search_response "items" Json.JsNull) as [found|] eqn:Hd1;
    [|pose proof (Hunknown ltac:(intros; simplify_eq; congruence)) as Hnever;
      split; [done|]; split; [done|]; split; [done|];
      intros c Hc; exfalso; by apply (Hnever c)].
  assert (exists d1, search_response = Json.JsDict d1 /\
            (Dict.get "items" d1 = Some found \/
             Dict.get "items" d1 = None /\ found = Json.JsNull))
    as (d1 & -> & Hget1).
  { destruct search_response as [| | | | | |d1]; try done. exists d1. split; [done|].
    cbn in Hd1. destruct (Dict.get "items" d1); [left; congruence|].
    right. by injection Hd1 as <-. }
  destruct (Json.truthy found) eqn:Hfound; cbn [negb];
    [|pose proof (Hunknown ltac:(intros; simplify_eq;
                                  destruct Hget1 as [Hsome|[Hnone _]]; congruence))
        as Hnever;
      split; [done|]; split; [done|]; split; [done|];
      intros c Hc; exfalso; by apply (Hnever c)].
  assert (Dict.get "items" d1 = Some found) as Hdict.
  { destruct Hget1 as [Hsome|[_ ->]]; done. }
  destruct (Json.index0 found) as [channel|] eqn:Hi;
    [|pose proof (Hunknown ltac:(intros; simplify_eq; congruence)) as Hnever;
      split; [done|]; split; [done|]; split; [done|];
      intros c Hc; exfalso; by apply (Hnever c)].
  destruct (Json.path channel ["id"; "channelId"]) as [channel_id|] eqn:Hc;
    [|pose proof (Hunknown ltac:(intros; simplify_eq; congruence)) as Hnever;
      split; [done|]; split; [done|]; split; [done|];
      intros c Hc'; exfalso; by apply (Hnever c)].
  assert (Listing.channel_found build execute self streamer_name channel_id) as Hk.
  { split; [done|]. by exists d1, found, channel. }
  cbn [fst snd].
  set (recent := Json.SearchVideos channel_id max_results).
  set (videos := match execute recent with Some _ => _ | None => _ end).
  assert (Forall (fun v => Listing.url v =
                   ("https://www.youtube.com/watch?v=", Listing.id v)) videos) as Hurl.
  { subst videos. repeat case_match; try done.
    match goal with H : Listing.collect _ = Some _ |- _ =>
      pose proof (collect_Forall2 _ _ H) as Hall end.
    apply Forall_forall. intros v Hv.
    destruct (proj1 (list_elem_of_lookup _ _) Hv) as [i Hi'].
    destruct (Forall2_lookup_r _ _ _ _ _ Hall Hi') as (item & _ & Hitem).
    by apply (video_data_url item). }
  split; [done|]. split; [done|].
  split; [intros _ Hno; exfalso; by apply (Hno channel_id)|].
  intros c Hfc. rewrite (Hsame c channel_id Hfc Hk). fold recent.
  split; [done|]. subst videos. split.
  - destruct (execute recent) as [videos_response|] eqn:H2; [|done].
    destruct videos_response as [| | | | | |d2]; try done. cbn [Json.dict_get].
    destruct (Dict.get "items" d2) as [listed|] eqn:Hget2; [|done].
    destruct (Json.iterate listed) as [items|] eqn:Hiter; [|done].
    destruct (Listing.collect items) as [videos|] eqn:Hcollect; [|done].
    intros Hne.
    assert (listed = Json.JsList items) as ->.
    { destruct listed as [| | | |s|l|d]; try done; cbn in Hiter; injection Hiter as <-.
      - exfalso. apply Hne. apply (collect_strings (Json.chars s)); [|done].
        clear. induction s as [|c' s IH]; cbn; constructor; eauto.
      - done.
      - exfalso. apply Hne.
        apply (collect_strings (map (fun entry => Json.JsStr entry.1) d)); [|done].
        clear. induction d as [|[k v] d IH]; cbn; constructor; eauto. }
    exists d2, items. split; [done|]. split; [done|]. by apply collect_Forall2.
  - intros d items -> Hitems. cbn [Json.dict_get]. rewrite Hitems. cbn [Json.iterate].
    split.
    + intros Hex. by rewrite (collect_lacking items Hex).
    + intros Hall. destruct (collect_complete items Hall) as [vs Hvs].
      rewrite Hvs. by apply collect_Forall2.
Qed.

(** ** The TikTok downloader *)

Section TiktokFacts.
Import Tiktok.

Lemma lstrip_head (s : list N) :
  match lstrip s with
  | c :: _ => is_space c = false
  | [] => True
  end.
Proof.
  induction s as [|c s IH]; [done|]. cbn [lstrip].
  by destruct (is_space c) eqn:Hc.
Qed.

Lemma lstrip_suffix (s : list N) :
  exists spaces, s = (spaces ++ lstrip s)%list /\ forallb is_space spaces = true.
Proof.
  induction s as [|c s (spaces & Hs & Hsp)]; [by exists []|].
  cbn [lstrip]. destruct (is_space c) eqn:Hc.
  - exists (c :: spaces). split; [by rewrite Hs at 1|]. cbn. by rewrite Hc.
  - by exists [].
Qed.

Lemma lstrip_stripped (s : list N) :
  match s with c :: _ => is_space c = false | [] => True end ->
  lstrip s = s.
Proof. destruct s as [|c s]; [done|]. cbn. by intros ->. Qed.

Lemma lstrip_idem (s : list N) : lstrip (lstrip s) = lstrip s.
Proof. apply lstrip_stripped, lstrip_head. Qed.

Lemma rstrip_prefix (s : list N) :
  exists spaces, s = (rstrip s ++ spaces)%list /\ forallb is_space spaces = true.
Proof.
  unfold rstrip. destruct (lstrip_suffix (rev s)) as (spaces & Hs & Hsp).
  exists (rev spaces). split.
  - rewrite <- rev_app_distr, <- Hs. by rewrite rev_involutive.
  - rewrite forallb_forall in *. intros c Hc. apply Hsp. by apply in_rev.
Qed.

Lemma rstrip_idem (s : list N) : rstrip (rstrip s) = rstrip s.
Proof. unfold rstrip. by rewrite rev_involutive, lstrip_idem. Qed.

(** The first character left by [strip] is not a space. *)
Lemma strip_head (s : list N) :
  match strip s with
  | c :: _ => is_space c = false
  | [] => True
  end.
Proof.
  unfold strip. destruct (rstrip_prefix (lstrip s)) as (spaces & Hs & _).
  pose proof (lstrip_head s) as Hhead. rewrite Hs in Hhead.
  by destruct (rstrip (lstrip s)).
Qed.

Lemma strip_idem (s : list N) : strip (strip s) = strip s.
Proof.
  unfold strip at 1. rewrite (lstrip_stripped (strip s)) by apply strip_head.
  unfold strip. apply rstrip_idem.
Qed.

Lemma elem_of_keep_urls (lines : list (list N)) (url : list N) :
  url ∈ keep_urls lines <->
  exists line, line ∈ lines /\ url = strip line /\ url <> [] /\ is_comment url = false.
Proof.
  induction lines as [|line rest IH]; cbn [keep_urls].
  - split; [by intros ?%elem_of_nil|]. by intros (line & ?%elem_of_nil & _).
  - destruct (strip line) as [|c s] eqn:Hstrip.
    + rewrite IH. split.
      * intros (l & Hin & Hrest). exists l. split; [by right|done].
      * intros (l & Hin & Hurl & Hne & Hc).
        apply elem_of_cons in Hin as [->|Hin]; [congruence|]. by exists l.
    + destruct (is_comment (c :: s)) eqn:Hcomment.
      * rewrite IH. split.
        -- intros (l & Hin & Hrest). exists l. split; [by right|done].
        -- intros (l & Hin & Hurl & Hne & Hc).
           apply elem_of_cons in Hin as [->|Hin]; [congruence|]. by exists l.
      * rewrite elem_of_cons, IH. split.
        -- intros [->|(l & Hin & Hrest)].
           ++ exists line. split; [by left|]. by rewrite Hstrip.
           ++ exists l. split; [by right|done].
        -- intros (l & Hin & Hurl & Hne & Hc).
           apply elem_of_cons in Hin as [->|Hin]; [left; congruence|].
           right. by exists l.
Qed.

Lemma universal_newlines_no_cr (s : list N) : 13%N ∉ universal_newlines s.
Proof.
  induction s as [|c s IH]; cbn [universal_newlines]; [by intros ?%elem_of_nil|].
  destruct (c =? 13)%N eqn:Hc.
  - destruct s as [|c' s].
    + intros [?|?%elem_of_nil]%elem_of_cons; done.
    + destruct (c' =? 10)%N eqn:Hc'.
      * apply N.eqb_eq in Hc' as ->. cbn in IH.
        intros [?|Hin]%elem_of_cons; [done|].
        apply IH. by right.
      * intros [?|Hin]%elem_of_cons; [done|]. by apply IH.
  - apply N.eqb_neq in Hc.
    intros [?|Hin]%elem_of_cons; [congruence|]. by apply IH.
Qed.

Lemma universal_newlines_id (s : list N) :
  13%N ∉ s -> universal_newlines s = s.
Proof.
  induction s as [|c s IH]; [done|]. intros Hnot. cbn [universal_newlines].
  destruct (c =? 13)%N eqn:Hc.
  - apply N.eqb_eq in Hc as ->. exfalso. apply Hnot. by left.
  - rewrite IH; [done|]. intros Hin. apply Hnot. by right.
Qed.

Lemma elem_of_rev (c : N) (l : list N) : c ∈ rev l <-> c ∈ l.
Proof. rewrite !list_elem_of_In. symmetry. apply in_rev. Qed.

(** A line holds its only line feed at its end. *)
Lemma lines_from_shape (s cur line : list N) :
  10%N ∉ cur -> (line ∈ lines_from cur s) ->
  exists body, (10%N ∉ body) /\ (line = body \/ line = (body ++ [10%N])%list) /\
    forall c, c ∈ body -> c ∈ cur \/ c ∈ s.
Proof.
  revert cur. induction s as [|c s IH]; intros cur Hcur; cbn [lines_from].
  - destruct cur as [|c cur]; [by intros ?%elem_of_nil|].
    intros ->%list_elem_of_singleton. exists (rev (c :: cur)).
    split; [by rewrite elem_of_rev|].
    split; [by left|]. intros c' Hc'. left.
    by rewrite elem_of_rev in Hc'.
  - destruct (c =? 10)%N eqn:Hc.
    + intros [->|Hin]%elem_of_cons.
      * exists (rev cur). split; [by rewrite elem_of_rev|].
        apply N.eqb_eq in Hc as ->. split; [by right|]. intros c' Hc'. left.
        by rewrite elem_of_rev in Hc'.
      * destruct (IH [] ltac:(by intros ?%elem_of_nil) Hin) as (body & Hb & Hline & Hsub).
        exists body. split; [done|]. split; [done|]. intros c' Hc'.
        destruct (Hsub c' Hc') as [?%elem_of_nil|?]; [done|]. right. by right.
    + intros Hin. apply N.eqb_neq in Hc.
      destruct (IH (c :: cur)) as (body & Hb & Hline & Hsub); [|done|].
      { intros [?|?]%elem_of_cons; [congruence|done]. }
      exists body. split; [done|]. split; [done|]. intros c' Hc'.
      destruct (Hsub c' Hc') as [[->|?]%elem_of_cons|?].
      * right. by left.
      * by left.
      * right. by right.
Qed.

Lemma strip_last (s : list N) :
  match last (strip s) with
  | Some c => is_space c = false
  | None => True
  end.
Proof.
  unfold strip, rstrip. pose proof (lstrip_head (rev (lstrip s))) as Hhead.
  destruct (lstrip (rev (lstrip s))) as [|c t]; [done|].
  cbn [rev]. by rewrite last_snoc.
Qed.

Lemma strip_middle (s : list N) :
  exists before after, s = (before ++ strip s ++ after)%list.
Proof.
  destruct (lstrip_suffix s) as (before & Hs & _).
  destruct (rstrip_prefix (lstrip s)) as (after & Hl & _).
  exists before, after. unfold strip. by rewrite <- Hl.
Qed.

Lemma not_elem_of_snoc_inv (body u v : list N) (c : N) :
  c ∉ body -> (body ++ [c])%list = (u ++ c :: v)%list -> v = [].
Proof.
  revert u. induction body as [|b body IH]; intros u Hnot Heq.
  - destruct u as [|c' u]; cbn in Heq.
    + by injection Heq as <-.
    + injection Heq as _ Heq. by destruct u.
  - destruct u as [|c' u]; cbn in Heq.
    + injection Heq as -> _. exfalso. apply Hnot. by left.
    + injection Heq as _ Heq. apply (IH u); [|done].
      intros Hin. apply Hnot. by right.
Qed.

(** No address kept from a file holds a line break. *)
Lemma strip_line_no_break (content line : list N) :
  line ∈ file_lines content ->
  (10%N ∉ strip line) /\ (13%N ∉ strip line).
Proof.
  intros Hin. unfold file_lines in Hin.
  destruct (lines_from_shape _ [] line ltac:(by intros ?%elem_of_nil) Hin)
    as (body & Hbody & Hline & Hsub).
  destruct (strip_middle line) as (before & after & Hmid).
  assert (13%N ∉ body) as Hcr.
  { intros Hc. destruct (Hsub _ Hc) as [?%elem_of_nil|Hc']; [done|].
    by apply universal_newlines_no_cr in Hc'. }
  split.
  - intros (t1 & t2 & Hsplit)%list_elem_of_split.
    destruct Hline as [Hline|Hline].
    + apply Hbody. rewrite <- Hline, Hmid, Hsplit.
      rewrite !elem_of_app, elem_of_cons. right. left. right. by left.
    + rewrite Hsplit in Hmid. rewrite Hline in Hmid.
      rewrite <- !app_assoc, app_assoc in Hmid. cbn [app] in Hmid.
      apply not_elem_of_snoc_inv in Hmid; [|done].
      apply app_eq_nil in Hmid as [-> _].
      pose proof (strip_last line) as Hlast.
      rewrite Hsplit, last_snoc in Hlast. done.
  - intros Hc. destruct Hline as [Hline|Hline].
    + apply Hcr. rewrite <- Hline, Hmid. rewrite !elem_of_app. right. by left.
    + assert (13%N ∈ line) as Hin'
        by (rewrite Hmid, !elem_of_app; right; by left).
      rewrite Hline in Hin'. apply elem_of_app in Hin' as [?|Hin']; [done|].
      by apply list_elem_of_singleton in Hin'.
Qed.

Lemma lines_from_line (u rest cur : list N) :
  10%N ∉ u ->
  lines_from cur (u ++ 10%N :: rest) =
  (rev cur ++ u ++ [10%N])%list :: lines_from [] rest.
Proof.
  revert cur. induction u as [|c u IH]; intros cur Hnot.
  - by cbn.
  - cbn [app lines_from].
    destruct (c =? 10)%N eqn:Hc.
    + apply N.eqb_eq in Hc as ->. exfalso. apply Hnot. by left.
    + rewrite IH by (intros Hin; apply Hnot; by right).
      cbn [rev]. by rewrite <- app_assoc.
Qed.

Lemma file_lines_one_per_line (urls : list (list N)) :
  Forall (fun url => (10%N ∉ url) /\ (13%N ∉ url)) urls ->
  file_lines (one_per_line urls) = map (fun url => (url ++ [10%N])%list) urls.
Proof.
  intros Hclean. unfold file_lines.
  rewrite universal_newlines_id.
  - induction Hclean as [|url urls [Hlf _] _ IH]; [done|].
    cbn [one_per_line flat_map map]. rewrite <- app_assoc. cbn [app].
    rewrite lines_from_line by done. f_equal. exact IH.
  - unfold one_per_line. rewrite list_elem_of_In, in_flat_map.
    intros (url & Hurl & Hin). rewrite <- !list_elem_of_In in *.
    rewrite Forall_forall in Hclean. destruct (Hclean url Hurl) as [_ Hcr].
    apply elem_of_app in Hin as [?|Hin]; [done|].
    by apply list_elem_of_singleton in Hin.
Qed.

Lemma strip_with_newline (url : list N) :
  url <> [] -> strip url = url ->
  strip (url ++ [10%N]) = url.
Proof.
  intros Hne Hstrip.
  pose proof (strip_head url) as Hhead. rewrite Hstrip in Hhead.
  destruct url as [|c url]; [done|].
  assert (lstrip (c :: url) = c :: url) as Hl by (cbn; by rewrite Hhead).
  unfold strip in *. rewrite Hl in Hstrip.
  change (lstrip ((c :: url) ++ [10%N])) with
    (if is_space c then lstrip (url ++ [10%N]) else (c :: url) ++ [10%N])%list.
  rewrite Hhead. unfold rstrip in *. rewrite rev_app_distr. cbn [rev app lstrip].
  change (is_space 10) with true. cbv iota. exact Hstrip.
Qed.

Lemma keep_urls_one_per_line (urls : list (list N)) :
  Forall (fun url => url <> [] /\ is_comment url = false /\ strip url = url) urls ->
  keep_urls (map (fun url => (url ++ [10%N])%list) urls) = urls.
Proof.
  induction 1 as [|url urls (Hne & Hcomment & Hstrip) _ IH]; [done|].
  cbn [map keep_urls]. rewrite strip_with_newline by done.
  destruct url as [|c url]; [done|]. by rewrite Hcomment, IH.
Qed.

Lemma keep_urls_clean (content : list N) :
  Forall (fun url => url <> [] /\ is_comment url = false /\ strip url = url /\
                     (10%N ∉ url) /\ (13%N ∉ url))
         (keep_urls (file_lines content)).
Proof.
  apply Forall_forall. intros url (line & Hin & -> & Hne & Hcomment)%elem_of_keep_urls.
  destruct (strip_line_no_break content line Hin) as [Hlf Hcr].
  split; [done|]. split; [done|]. split; [apply strip_idem|]. by split.
Qed.

(** X19: Every address [read_urls_from_file] returns is not empty, is
    not a comment, has no white space at either end, holds no line
    break, and is the stripped form of a line of the file, which exists
    and can be read. *)
Theorem read_urls_are_clean (files : gmap string text_file) (file_path : string)
    (url : list N) :
  url ∈ read_urls_from_file files file_path ->
  url <> [] /\ is_comment url = false /\ strip url = url /\
  (10%N ∉ url) /\ (13%N ∉ url) /\
  exists content line,
    files !! file_path = Some (Text content) /\
    line ∈ file_lines content /\ url = strip line.
Proof.
  unfold read_urls_from_file.
  destruct (files !! file_path) as [[content|]|]; [|by intros ?%elem_of_nil..].
  assert (url ∈ match keep_urls (file_lines content) with [] => [] | urls => urls end
          <-> url ∈ keep_urls (file_lines content)) as -> by by destruct (keep_urls _).
  intros Hin.
  pose proof (keep_urls_clean content) as Hclean. rewrite Forall_forall in Hclean.
  destruct (Hclean url Hin) as (Hne & Hcomment & Hstrip & Hlf & Hcr).
  apply elem_of_keep_urls in Hin as (line & Hin & -> & _).
  repeat (split; [done|]). by exists content, line.
Qed.

Lemma read_urls_are_clean_witness :
  [97%N] <> [] /\ is_comment [97%N] = false /\ strip [97%N] = [97%N] /\
  (10%N ∉ [97%N]) /\ (13%N ∉ [97%N]) /\
  exists content line,
    ({[ "tiktok_urls.txt" := Text [32; 97; 13; 10; 35; 98]%N ]} : gmap string text_file)
      !! "tiktok_urls.txt" = Some (Text content) /\
    line ∈ file_lines content /\ [97%N] = strip line.
Proof.
  apply (read_urls_are_clean
           {[ "tiktok_urls.txt" := Text [32; 97; 13; 10; 35; 98]%N ]}
           "tiktok_urls.txt" [97%N]).
  vm_compute. left.
Defined.

(** X20: Writing the addresses read from a file into a file, one per
    line, and reading that file gives the same addresses in the same
    order. *)
Theorem read_urls_round_trip (files files' : gmap string text_file)
    (file_path file_path' : string) :
  let urls := read_urls_from_file files file_path in
  read_urls_from_file (<[file_path' := Text (one_per_line urls)]> files') file_path'
  = urls.
Proof.
  cbv zeta. unfold read_urls_from_file at 1. rewrite lookup_insert_eq.
  assert (Forall (fun url => url <> [] /\ is_comment url = false /\ strip url = url /\
                             (10%N ∉ url) /\ (13%N ∉ url))
                 (read_urls_from_file files file_path)) as Hclean.
  { unfold read_urls_from_file. destruct (files !! file_path) as [[content|]|]; [|done..].
    pose proof (keep_urls_clean content). by destruct (keep_urls _). }
  rewrite file_lines_one_per_line
    by (eapply Forall_impl; [exact Hclean|]; by intros url (_ & _ & _ & ? & ?)).
  rewrite keep_urls_one_per_line
    by (eapply Forall_impl; [exact Hclean|]; by intros url (? & ? & ? & _)).
  by destruct (read_urls_from_file files file_path).
Qed.

Lemma download_loop_spec (m : machine) (n : nat) (urls : list (list N)) :
  forall i successful failed,
  (i + length urls = S n)%nat ->
  let run := download_loop m n i urls successful failed in
  total run.1 = n /\
  (successful_downloads run.1 + failed_downloads run.1 =
     successful + failed + length urls)%nat /\
  (successful_downloads run.1 =
     successful +
     length (filter (fun ok => ok = true)
                    (imap (fun k url => download_tiktok_video m (i + k) url) urls)))%nat /\
  downloads_of run.2 = urls /\
  sleeps_of run.2 = replicate (length urls - 1) delay_between_downloads /\
  last run.2 = Download <$> last urls.
Proof.
  induction urls as [|url rest IH]; intros i successful failed Hn; cbv zeta.
  - cbn. repeat split; lia.
  - cbn [download_loop length] in *.
    specialize (IH (S i)
      (if download_tiktok_video m i url then S successful else successful)
      (if download_tiktok_video m i url then failed else S failed)
      ltac:(lia)).
    cbv zeta in IH.
    destruct (download_loop m n (S i) rest _ _) as [r steps] eqn:Hrun.
    cbn [fst snd] in *.
    destruct IH as (Htotal & Hsum & Hsucc & Hdown & Hsleep & Hlast).
    split; [done|]. split; [by destruct (download_tiktok_video m i url); lia|].
    split.
    { rewrite Hsucc, imap_cons, Nat.add_0_r.
      rewrite (imap_ext (_ ∘ S) (fun k url0 => download_tiktok_video m (S i + k) url0) rest)
        by (intros k u _; cbn; f_equal; lia).
      rewrite filter_cons.
      destruct (download_tiktok_video m i url) eqn:Hok.
      - rewrite decide_True by done. cbn [length]. lia.
      - rewrite decide_False by done. lia. }
    destruct rest as [|url' rest].
    + cbn in Hrun. injection Hrun as <- <-.
      replace (i <? n)%nat with false by (symmetry; apply Nat.ltb_ge; cbn in Hn; lia).
      done.
    + replace (i <? n)%nat with true
        by (symmetry; apply Nat.ltb_lt; cbn [length] in Hn; lia).
      cbn [length] in *. split; [|split].
      * cbn. unfold downloads_of in Hdown. by rewrite Hdown.
      * cbn. unfold sleeps_of in Hsleep. rewrite Hsleep.
        by replace (S (length rest) - 1)%nat with (length rest) by lia.
      * cbn [app]. destruct steps as [|s steps]; [by cbn in Hdown|].
        rewrite !last_cons in *. rewrite Hlast. cbn. by destruct (last rest).
Qed.

Lemma download_loop_steps (m : machine) (n : nat) (urls : list (list N)) :
  forall i successful failed,
  (i + length urls = S n)%nat ->
  (download_loop m n i urls successful failed).2 = with_pauses urls.
Proof.
  induction urls as [|url rest IH]; intros i successful failed Hn; [done|].
  cbn [download_loop with_pauses length] in *.
  specialize (IH (S i)
    (if download_tiktok_video m i url then S successful else successful)
    (if download_tiktok_video m i url then failed else S failed)
    ltac:(lia)).
  destruct (download_loop m n (S i) rest _ _) as [r steps].
  cbn [fst snd] in *. subst steps.
  destruct rest as [|url' rest].
  - replace (i <? n)%nat with false by (symmetry; apply Nat.ltb_ge; cbn in Hn; lia).
    done.
  - replace (i <? n)%nat with true
      by (symmetry; apply Nat.ltb_lt; cbn [length] in Hn; lia).
    done.
Qed.

Lemma with_pauses_cons (url url' : list N) (rest : list (list N)) :
  with_pauses (url :: url' :: rest) =
  Download url :: Sleep delay_between_downloads :: with_pauses (url' :: rest).
Proof. done. Qed.

Lemma with_pauses_length (urls : list (list N)) :
  length (with_pauses urls) = (2 * length urls - 1)%nat.
Proof.
  induction urls as [|url [|url' rest] IH]; [done..|].
  rewrite with_pauses_cons. cbn [length] in *. lia.
Qed.

Lemma with_pauses_download (urls : list (list N)) :
  forall k url, urls !! k = Some url ->
  with_pauses urls !! (2 * k)%nat = Some (Download url).
Proof.
  induction urls as [|url0 [|url' rest] IH]; intros k url; [done| |].
  - destruct k as [|k]; [by intros [= <-]|done].
  - rewrite with_pauses_cons. destruct k as [|k]; [by intros [= <-]|].
    intros Hk. replace (2 * S k)%nat with (S (S (2 * k))) by lia.
    by apply IH.
Qed.

Lemma with_pauses_sleep (urls : list (list N)) :
  forall k, (S k < length urls)%nat ->
  with_pauses urls !! (2 * k + 1)%nat = Some (Sleep delay_between_downloads).
Proof.
  induction urls as [|url0 [|url' rest] IH]; intros k; [cbn; lia|cbn; lia|].
  rewrite with_pauses_cons. destruct k as [|k]; [done|].
  intros Hk. replace (2 * S k + 1)%nat with (S (S (2 * k + 1))) by lia.
  apply IH. cbn [length] in *. lia.
Qed.

(** X21: When [main] of the downloader gets to its summary, the list of
    addresses was not empty, the total is its length, successes and
    failures add up to the total, the successes are the downloads that
    came back with code 0.  What it did after looking for yt-dlp is
    exactly this: it downloaded every address once, in the order of the
    file, and after each download but the last it paused for 3 seconds
    before the next one; the steps at even positions are the downloads
    and those at odd positions the pauses.  When it stops before, it
    did nothing after looking for yt-dlp: yt-dlp was missing and could
    not be installed, or the [tiktoks] directory was missing, or no
    address was found. *)
Theorem tiktok_main_downloads_every_url (m : machine) :
  let urls := read_urls_from_file (files m) "tiktok_urls.txt" in
  let run := main m in
  let checks := (check_and_install_ytdlp m).2 in
  match run.1 with
  | Some result =>
      urls <> [] /\
      total result = length urls /\
      (successful_downloads result + failed_downloads result)%nat = total result /\
      successful_downloads result =
        length (filter (fun ok => ok = true)
                       (imap (fun k url => download_tiktok_video m (S k) url) urls)) /\
      downloads_of run.2 = urls /\
      sleeps_of run.2 = replicate (length urls - 1) 3 /\
      last run.2 = Download <$> last urls /\
      exists downloads,
        run.2 = (checks ++ downloads)%list /\
        downloads = with_pauses urls /\
        length downloads = (2 * length urls - 1)%nat /\
        (forall k url, urls !! k = Some url ->
                       downloads !! (2 * k)%nat = Some (Download url)) /\
        (forall k, (S k < length urls)%nat ->
                   downloads !! (2 * k + 1)%nat = Some (Sleep 3))
  | None =>
      run.2 = checks /\
      downloads_of run.2 = [] /\ sleeps_of run.2 = [] /\
      ((check_and_install_ytdlp m).1 = false \/ tiktoks_exists m = false \/
       urls = [])
  end.
Proof.
  cbv zeta. unfold main, check_and_install_ytdlp.
  destruct (version_check m), (pip_install m); cbn [negb fst snd];
    try (split; [done|split; [done|split; [done|by left]]]);
    (destruct (tiktoks_exists m); cbn [negb fst snd];
      [|split; [done|split; [done|split; [done|right; by left]]]]);
    (destruct (read_urls_from_file (files m) "tiktok_urls.txt") as [|url rest] eqn:Hurls;
      [split; [done|split; [done|split; [done|right; by right]]]|]).
  all: pose proof (download_loop_spec m (length (url :: rest)) (url :: rest) 1 0 0
                     ltac:(cbn; lia)) as Hspec; cbv zeta in Hspec;
       pose proof (download_loop_steps m (length (url :: rest)) (url :: rest) 1 0 0
                     ltac:(cbn; lia)) as Hsteps;
       destruct (download_loop m _ 1 (url :: rest) 0 0) as [r steps];
       cbn [fst snd] in *;
       destruct Hspec as (Htotal & Hsum & Hsucc & Hdown & Hsleep & Hlast).
  all: split; [done|]; split; [done|]; split; [lia|]; split; [done|].
  all: split; [exact Hdown|]; split; [exact Hsleep|].
  all: split; [destruct steps as [|s0 steps0]; [by cbn in Hdown|]; exact Hlast|].
  all: exists steps; split; [done|]; split; [done|]; rewrite Hsteps.
  all: split; [apply with_pauses_length|].
  all: split; [apply with_pauses_download|apply with_pauses_sleep].
Qed.

End TiktokFacts.
